(** * tclllama: the generation/session engine of [generic/tclllama.c]

    A shallow embedding of the session engine of the Tcl binding: sampler
    configuration ([apply_options]), raw-prompt ingestion
    ([Llama_Generate_Cmd]), the generation loop with its three-tier
    termination shield and its streaming buffer ([run_inference]), the
    UTF-8 helpers, and the commands [Llama_Init_Cmd], [Llama_Chat],
    [Llama_Detokenize_Cmd], [Llama_ClearCache_Cmd] and
    [Llama_GetContext_Cmd], followed by the properties established about
    them.

    Conventions.
    - [std::string] is a list of bytes; [size_t] positions and lengths are
      [nat] (every subtraction on them in the source is guarded by a
      comparison); [std::string::npos] is [None].
    - [int] / [int32_t] session fields are [Z]; the counters [n_past] and
      [p_cnt] are only incremented below [n_ctx] resp. [max_tokens], so no
      wrap-around is reachable on them.
    - C [float] fields are IEEE-754 binary32 values ([spec_float] with
      precision 24 and [emax] 128); a Tcl double is a binary64 value.
    - The inference backend (sampling, vocabulary queries, tokenizer,
      decode) and the Tcl interpreter are not part of the source: the
      backend is a record of functions, the callback script a function,
      and a Tcl value is given by what the accessors used return for it.
    - What a call does to the outside (tokenizer and decoder calls,
      fragments appended to the result and handed to the callback) is
      recorded in a trace of events.
    - Not represented: the argument-count and handle checks of the
      commands, failed allocations ([ckalloc], [strdup]),
      [llama_sampler_accept], the key-value cache behind [llama_decode],
      the wall-clock telemetry ([t_eval_ms], [t_gen_ms]), the [verbose]
      diagnostic print to stderr, elements of a chat message list that are
      not dictionaries, and the commands [Llama_Tokenize_Cmd],
      [Llama_Info_Cmd], [Llama_Verbose_Cmd], [Llama_Version_Cmd] and
      [Llama_Free_Cmd]. *)

From Stdlib Require Import ZArith NArith Lia Bool List.
From Stdlib Require Import Strings.Byte Strings.String Floats.SpecFloat.
From stdpp Require Import base list gmap strings.

Local Open Scope Z_scope.

(** ** Byte strings *)

Module Str.

Abbreviation bytes := (list byte).

(** A C string literal as the bytes of a [std::string]. *)
Definition lit (s : string) : bytes := list_byte_of_string s.

(** [s.compare(0, needle.size(), needle) == 0]: [needle] starts [hay]. *)
Fixpoint starts_with (needle hay : bytes) : bool :=
  match needle, hay with
  | [], _ => true
  | _ :: _, [] => false
  | a :: needle', b :: hay' => Byte.eqb a b && starts_with needle' hay'
  end.

(** [std::string::find(needle)]: the first position at which [needle]
    occurs, [None] for [npos]. *)
Fixpoint find (hay needle : bytes) : option nat :=
  if starts_with needle hay then Some 0%nat
  else match hay with
       | [] => None
       | _ :: hay' => option_map S (find hay' needle)
       end.

(** [s.substr(pos)] and [s.substr(0, n)] (the positions used by the
    source are always within the string). *)
Definition substr_from (s : bytes) (pos : nat) : bytes := drop pos s.
Definition substr_to (s : bytes) (n : nat) : bytes := take n s.

(** The bytes a [const char *] denotes when its length is not given
    ([Tcl_NewStringObj(p, -1)]): everything before the first NUL. *)
Fixpoint c_str (s : bytes) : bytes :=
  match s with
  | [] => []
  | b :: s' => if Byte.eqb b x00 then [] else b :: c_str s'
  end.

End Str.

Import Str.

(** ** UTF-8 helpers *)

(** [first_byte & mask], on the numeric value of the byte. *)
Definition band (b : byte) (mask : N) : N := N.land (Byte.to_N b) mask.

Definition utf8_char_length (first_byte : byte) : nat :=
  if (band first_byte 0x80 =? 0x00)%N then 1%nat
  else if (band first_byte 0xE0 =? 0xC0)%N then 2%nat
  else if (band first_byte 0xF0 =? 0xE0)%N then 3%nat
  else if (band first_byte 0xF8 =? 0xF0)%N then 4%nat
  else 1%nat.

(** The [while (pos < max_pos)] loop of [find_last_utf8_boundary].  Every
    iteration that does not leave the loop advances [pos] by at least one,
    so [max_pos] iterations always suffice; [fuel] counts them. *)
Fixpoint utf8_scan (fuel : nat) (str : bytes) (max_pos pos last_valid : nat)
  : nat :=
  match fuel with
  | O => last_valid
  | S fuel' =>
      if (pos <? max_pos)%nat then
        let char_len := utf8_char_length (nth pos str x00) in
        if (pos + char_len <=? max_pos)%nat
        then utf8_scan fuel' str max_pos (pos + char_len) (pos + char_len)
        else last_valid
      else last_valid
  end.

Definition find_last_utf8_boundary (str : bytes) (max_pos : nat) : nat :=
  let max_pos := if (length str <=? max_pos)%nat then length str else max_pos in
  utf8_scan max_pos str max_pos 0 0.

(** ** C floating point

    IEEE-754 values in the sense of [SpecFloat]: [F32] is the C [float],
    [F64] the C [double] that [Tcl_GetDoubleFromObj] yields.  Comparisons
    are the IEEE ones ([SFltb]: false whenever an operand is NaN). *)

Module F32.
Definition prec : Z := 24.
Definition emax : Z := 128.
Definition of_Z (z : Z) : spec_float := binary_normalize prec emax z 0 false.
(** The literal [n/d f] for a decimal fraction, correctly rounded. *)
Definition lit (n d : Z) : spec_float := SFdiv prec emax (of_Z n) (of_Z d).
(** [(float)d]: round a binary64 value to the nearest binary32 one. *)
Definition of_double (d : spec_float) : spec_float :=
  match d with
  | S754_finite s m e => binary_round prec emax s m e
  | _ => d
  end.
End F32.

Module F64.
Definition prec : Z := 53.
Definition emax : Z := 1024.
Definition of_Z (z : Z) : spec_float := binary_normalize prec emax z 0 false.
Definition lit (n d : Z) : spec_float := SFdiv prec emax (of_Z n) (of_Z d).
End F64.

Definition is_nan (f : spec_float) : bool :=
  match f with S754_nan => true | _ => false end.

(** [(int32_t)i]: reduction to the signed 32-bit range. *)
Definition int32 (i : Z) : Z := (i + 2 ^ 31) mod 2 ^ 32 - 2 ^ 31.

(** ** Tcl values

    Only what the engine observes of a [Tcl_Obj]: what the two numeric
    accessors return for it, and whether it can be read as a dictionary.
    These accessors belong to the Tcl library, not to this repository.
    [Tcl_GetDoubleFromObj] reports an error for a value that is Not a
    Number, as the Tcl library does. *)

Record Tcl_Obj := {
  obj_double : option spec_float;   (* the double the value denotes, if any *)
  obj_int : option Z                (* the [int] the value denotes, if any *)
}.

Definition Tcl_GetDoubleFromObj (val : Tcl_Obj) : option spec_float :=
  match obj_double val with
  | Some d => if is_nan d then None else Some d
  | None => None
  end.

Definition Tcl_GetIntFromObj (val : Tcl_Obj) : option Z := obj_int val.

Inductive Tcl_Options :=
| OptDict (d : gmap string Tcl_Obj)   (* a well-formed dictionary *)
| OptNotADict.                        (* any other value *)

(** [Tcl_DictObjGet(...) == TCL_OK && val]: the value stored under [k]. *)
Definition Tcl_DictObjGet (o : Tcl_Options) (k : string) : option Tcl_Obj :=
  match o with
  | OptDict d => d !! k
  | OptNotADict => None
  end.

(** ** Session state *)

Abbreviation llama_token := Z.

(** The stages a sampler chain is built from, with the arguments the
    source passes to each constructor, in the order it passes them. *)
Inductive llama_sampler :=
| llama_sampler_init_temp (t : spec_float)
| llama_sampler_init_top_k (k : Z)
| llama_sampler_init_top_p (p : spec_float) (min_keep : Z)
| llama_sampler_init_min_p (p : spec_float) (min_keep : Z)
| llama_sampler_init_penalties (last_n : Z) (a1 a2 a3 : spec_float)
| llama_sampler_init_mirostat (n_vocab seed : Z) (tau eta : spec_float) (m : Z)
| llama_sampler_init_mirostat_v2 (seed : Z) (tau eta : spec_float)
| llama_sampler_init_dist (seed : Z).

Record LlamaState := {
  temp : spec_float;
  top_k : Z;
  top_p : spec_float;
  min_p : spec_float;
  repeat_penalty : spec_float;
  repeat_last_n : Z;
  presence_penalty : spec_float;
  frequency_penalty : spec_float;
  mirostat : Z;
  mirostat_tau : spec_float;
  mirostat_eta : spec_float;
  seed : Z;
  n_predict : Z;
  n_ctx : Z;
  n_past : Z;
  verbose : Z;
  n_eval : Z;
  n_gen : Z;
  sampler : option (list llama_sampler)
}.

(** Field assignments [state->f = v]. *)
Definition set_temp (v : spec_float) (st : LlamaState) : LlamaState :=
  {| temp := v; top_k := top_k st; top_p := top_p st; min_p := min_p st;
     repeat_penalty := repeat_penalty st; repeat_last_n := repeat_last_n st;
     presence_penalty := presence_penalty st;
     frequency_penalty := frequency_penalty st; mirostat := mirostat st;
     mirostat_tau := mirostat_tau st; mirostat_eta := mirostat_eta st;
     seed := seed st; n_predict := n_predict st; n_ctx := n_ctx st;
     n_past := n_past st; verbose := verbose st; n_eval := n_eval st;
     n_gen := n_gen st; sampler := sampler st |}.
Definition set_top_k (v : Z) (st : LlamaState) : LlamaState :=
  {| temp := temp st; top_k := v; top_p := top_p st; min_p := min_p st;
     repeat_penalty := repeat_penalty st; repeat_last_n := repeat_last_n st;
     presence_penalty := presence_penalty st;
     frequency_penalty := frequency_penalty st; mirostat := mirostat st;
     mirostat_tau := mirostat_tau st; mirostat_eta := mirostat_eta st;
     seed := seed st; n_predict := n_predict st; n_ctx := n_ctx st;
     n_past := n_past st; verbose := verbose st; n_eval := n_eval st;
     n_gen := n_gen st; sampler := sampler st |}.
Definition set_top_p (v : spec_float) (st : LlamaState) : LlamaState :=
  {| temp := temp st; top_k := top_k st; top_p := v; min_p := min_p st;
     repeat_penalty := repeat_penalty st; repeat_last_n := repeat_last_n st;
     presence_penalty := presence_penalty st;
     frequency_penalty := frequency_penalty st; mirostat := mirostat st;
     mirostat_tau := mirostat_tau st; mirostat_eta := mirostat_eta st;
     seed := seed st; n_predict := n_predict st; n_ctx := n_ctx st;
     n_past := n_past st; verbose := verbose st; n_eval := n_eval st;
     n_gen := n_gen st; sampler := sampler st |}.
Definition set_min_p (v : spec_float) (st : LlamaState) : LlamaState :=
  {| temp := temp st; top_k := top_k st; top_p := top_p st; min_p := v;
     repeat_penalty := repeat_penalty st; repeat_last_n := repeat_last_n st;
     presence_penalty := presence_penalty st;
     frequency_penalty := frequency_penalty st; mirostat := mirostat st;
     mirostat_tau := mirostat_tau st; mirostat_eta := mirostat_eta st;
     seed := seed st; n_predict := n_predict st; n_ctx := n_ctx st;
     n_past := n_past st; verbose := verbose st; n_eval := n_eval st;
     n_gen := n_gen st; sampler := sampler st |}.
Definition set_repeat_penalty (v : spec_float) (st : LlamaState) : LlamaState :=
  {| temp := temp st; top_k := top_k st; top_p := top_p st;
     min_p := min_p st; repeat_penalty := v;
     repeat_last_n := repeat_last_n st;
     presence_penalty := presence_penalty st;
     frequency_penalty := frequency_penalty st; mirostat := mirostat st;
     mirostat_tau := mirostat_tau st; mirostat_eta := mirostat_eta st;
     seed := seed st; n_predict := n_predict st; n_ctx := n_ctx st;
     n_past := n_past st; verbose := verbose st; n_eval := n_eval st;
     n_gen := n_gen st; sampler := sampler st |}.
Definition set_repeat_last_n (v : Z) (st : LlamaState) : LlamaState :=
  {| temp := temp st; top_k := top_k st; top_p := top_p st;
     min_p := min_p st; repeat_penalty := repeat_penalty st;
     repeat_last_n := v; presence_penalty := presence_penalty st;
     frequency_penalty := frequency_penalty st; mirostat := mirostat st;
     mirostat_tau := mirostat_tau st; mirostat_eta := mirostat_eta st;
     seed := seed st; n_predict := n_predict st; n_ctx := n_ctx st;
     n_past := n_past st; verbose := verbose st; n_eval := n_eval st;
     n_gen := n_gen st; sampler := sampler st |}.
Definition set_n_predict (v : Z) (st : LlamaState) : LlamaState :=
  {| temp := temp st; top_k := top_k st; top_p := top_p st;
     min_p := min_p st; repeat_penalty := repeat_penalty st;
     repeat_last_n := repeat_last_n st;
     presence_penalty := presence_penalty st;
     frequency_penalty := frequency_penalty st; mirostat := mirostat st;
     mirostat_tau := mirostat_tau st; mirostat_eta := mirostat_eta st;
     seed := seed st; n_predict := v; n_ctx := n_ctx st; n_past := n_past st;
     verbose := verbose st; n_eval := n_eval st; n_gen := n_gen st;
     sampler := sampler st |}.
Definition set_mirostat (v : Z) (st : LlamaState) : LlamaState :=
  {| temp := temp st; top_k := top_k st; top_p := top_p st;
     min_p := min_p st; repeat_penalty := repeat_penalty st;
     repeat_last_n := repeat_last_n st;
     presence_penalty := presence_penalty st;
     frequency_penalty := frequency_penalty st; mirostat := v;
     mirostat_tau := mirostat_tau st; mirostat_eta := mirostat_eta st;
     seed := seed st; n_predict := n_predict st; n_ctx := n_ctx st;
     n_past := n_past st; verbose := verbose st; n_eval := n_eval st;
     n_gen := n_gen st; sampler := sampler st |}.
Definition set_mirostat_tau (v : spec_float) (st : LlamaState) : LlamaState :=
  {| temp := temp st; top_k := top_k st; top_p := top_p st;
     min_p := min_p st; repeat_penalty := repeat_penalty st;
     repeat_last_n := repeat_last_n st;
     presence_penalty := presence_penalty st;
     frequency_penalty := frequency_penalty st; mirostat := mirostat st;
     mirostat_tau := v; mirostat_eta := mirostat_eta st; seed := seed st;
     n_predict := n_predict st; n_ctx := n_ctx st; n_past := n_past st;
     verbose := verbose st; n_eval := n_eval st; n_gen := n_gen st;
     sampler := sampler st |}.
Definition set_mirostat_eta (v : spec_float) (st : LlamaState) : LlamaState :=
  {| temp := temp st; top_k := top_k st; top_p := top_p st;
     min_p := min_p st; repeat_penalty := repeat_penalty st;
     repeat_last_n := repeat_last_n st;
     presence_penalty := presence_penalty st;
     frequency_penalty := frequency_penalty st; mirostat := mirostat st;
     mirostat_tau := mirostat_tau st; mirostat_eta := v; seed := seed st;
     n_predict := n_predict st; n_ctx := n_ctx st; n_past := n_past st;
     verbose := verbose st; n_eval := n_eval st; n_gen := n_gen st;
     sampler := sampler st |}.
Definition set_seed (v : Z) (st : LlamaState) : LlamaState :=
  {| temp := temp st; top_k := top_k st; top_p := top_p st;
     min_p := min_p st; repeat_penalty := repeat_penalty st;
     repeat_last_n := repeat_last_n st;
     presence_penalty := presence_penalty st;
     frequency_penalty := frequency_penalty st; mirostat := mirostat st;
     mirostat_tau := mirostat_tau st; mirostat_eta := mirostat_eta st;
     seed := v; n_predict := n_predict st; n_ctx := n_ctx st;
     n_past := n_past st; verbose := verbose st; n_eval := n_eval st;
     n_gen := n_gen st; sampler := sampler st |}.
Definition set_sampler (v : option (list llama_sampler)) (st : LlamaState) : LlamaState :=
  {| temp := temp st; top_k := top_k st; top_p := top_p st;
     min_p := min_p st; repeat_penalty := repeat_penalty st;
     repeat_last_n := repeat_last_n st;
     presence_penalty := presence_penalty st;
     frequency_penalty := frequency_penalty st; mirostat := mirostat st;
     mirostat_tau := mirostat_tau st; mirostat_eta := mirostat_eta st;
     seed := seed st; n_predict := n_predict st; n_ctx := n_ctx st;
     n_past := n_past st; verbose := verbose st; n_eval := n_eval st;
     n_gen := n_gen st; sampler := v |}.
Definition set_n_past (v : Z) (st : LlamaState) : LlamaState :=
  {| temp := temp st; top_k := top_k st; top_p := top_p st;
     min_p := min_p st; repeat_penalty := repeat_penalty st;
     repeat_last_n := repeat_last_n st;
     presence_penalty := presence_penalty st;
     frequency_penalty := frequency_penalty st; mirostat := mirostat st;
     mirostat_tau := mirostat_tau st; mirostat_eta := mirostat_eta st;
     seed := seed st; n_predict := n_predict st; n_ctx := n_ctx st;
     n_past := v; verbose := verbose st; n_eval := n_eval st;
     n_gen := n_gen st; sampler := sampler st |}.
Definition set_n_eval (v : Z) (st : LlamaState) : LlamaState :=
  {| temp := temp st; top_k := top_k st; top_p := top_p st;
     min_p := min_p st; repeat_penalty := repeat_penalty st;
     repeat_last_n := repeat_last_n st;
     presence_penalty := presence_penalty st;
     frequency_penalty := frequency_penalty st; mirostat := mirostat st;
     mirostat_tau := mirostat_tau st; mirostat_eta := mirostat_eta st;
     seed := seed st; n_predict := n_predict st; n_ctx := n_ctx st;
     n_past := n_past st; verbose := verbose st; n_eval := v;
     n_gen := n_gen st; sampler := sampler st |}.
Definition set_n_gen (v : Z) (st : LlamaState) : LlamaState :=
  {| temp := temp st; top_k := top_k st; top_p := top_p st;
     min_p := min_p st; repeat_penalty := repeat_penalty st;
     repeat_last_n := repeat_last_n st;
     presence_penalty := presence_penalty st;
     frequency_penalty := frequency_penalty st; mirostat := mirostat st;
     mirostat_tau := mirostat_tau st; mirostat_eta := mirostat_eta st;
     seed := seed st; n_predict := n_predict st; n_ctx := n_ctx st;
     n_past := n_past st; verbose := verbose st; n_eval := n_eval st;
     n_gen := v; sampler := sampler st |}.

(** The state right after [memset(state, 0, sizeof(LlamaState))]. *)
Definition zeroed_state : LlamaState :=
  {| temp := S754_zero false; top_k := 0; top_p := S754_zero false;
     min_p := S754_zero false; repeat_penalty := S754_zero false;
     repeat_last_n := 0; presence_penalty := S754_zero false;
     frequency_penalty := S754_zero false; mirostat := 0;
     mirostat_tau := S754_zero false; mirostat_eta := S754_zero false;
     seed := 0; n_predict := 0; n_ctx := 0; n_past := 0; verbose := 0;
     n_eval := 0; n_gen := 0; sampler := None |}.

(** The float literals of the source, as binary32 values. *)
Definition f32_0 : spec_float := S754_zero false.
Definition f32_1 : spec_float := Eval vm_compute in F32.of_Z 1.
Definition f32_2 : spec_float := Eval vm_compute in F32.of_Z 2.
Definition f32_5 : spec_float := Eval vm_compute in F32.of_Z 5.
Definition f32_0_80 : spec_float := Eval vm_compute in F32.lit 80 100.
Definition f32_0_95 : spec_float := Eval vm_compute in F32.lit 95 100.
Definition f32_0_05 : spec_float := Eval vm_compute in F32.lit 5 100.
Definition f32_1_10 : spec_float := Eval vm_compute in F32.lit 110 100.
Definition f32_0_10 : spec_float := Eval vm_compute in F32.lit 10 100.

Definition set_defaults (state : LlamaState) : LlamaState :=
  {| temp := f32_0_80;
     top_k := 40;
     top_p := f32_0_95;
     min_p := f32_0_05;
     repeat_penalty := f32_1_10;
     repeat_last_n := 64;
     presence_penalty := f32_0;
     frequency_penalty := f32_0;
     mirostat := 0;
     mirostat_tau := f32_5;
     mirostat_eta := f32_0_10;
     n_predict := -1;
     seed := -1;
     n_past := 0;
     n_ctx := 4096;
     verbose := 0;
     n_eval := 0;
     n_gen := 0;
     sampler := sampler state |}.

(** ** The inference backend

    The capability surface of llama.cpp the engine calls.  Within one
    generation the [k]-th call of [llama_sampler_sample] (counting from 0)
    returns [bk_sample k]; [llama_decode] succeeds (returns 0) on a batch
    iff [bk_decode] is [true] for it. *)

Record batch_entry := {
  be_token : llama_token;
  be_pos : Z;
  be_logits : bool
}.

Abbreviation llama_batch := (list batch_entry).

Record Backend := {
  bk_sample : nat -> llama_token;
  llama_vocab_is_eog : llama_token -> bool;
  (* llama_vocab_get_attr(vocab, id) & LLAMA_TOKEN_ATTR_CONTROL *)
  bk_attr_control : llama_token -> bool;
  (* the complete text piece of a token *)
  bk_piece : llama_token -> bytes;
  bk_decode : llama_batch -> bool;
  (* text, add_special: the token sequence, or a failure of the tokenizer *)
  bk_tokenize : bytes -> bool -> option (list llama_token);
  llama_vocab_n_tokens : Z
}.

(** [llama_token_to_piece(vocab, id, buf, length, 0, false)]: the number
    of bytes written, or minus the size needed when [buf] is too small. *)
Definition llama_token_to_piece (bk : Backend) (id : llama_token)
    (length : nat) : Z * bytes :=
  let piece := bk_piece bk id in
  if (List.length piece <=? length)%nat
  then (Z.of_nat (List.length piece), piece)
  else (- Z.of_nat (List.length piece), []).

(** [llama_tokenize(vocab, text, len, tokens, n_max, add_special, false)]:
    the token count and the tokens stored, a negative count on failure
    (including a result that does not fit in [n_max] slots). *)
Definition llama_tokenize (bk : Backend) (text : bytes) (n_max : nat)
    (add_special : bool) : Z * list llama_token :=
  match bk_tokenize bk text add_special with
  | Some toks =>
      if (List.length toks <=? n_max)%nat
      then (Z.of_nat (List.length toks), toks)
      else (- Z.of_nat (List.length toks), [])
  | None => (-1, [])
  end.

Definition fill_batch (batch : llama_batch) (id : llama_token) (pos : Z)
    (logits : bool) : llama_batch :=
  batch ++ [{| be_token := id; be_pos := pos; be_logits := logits |}].

(** ** Sampler configuration: [apply_options] *)

Section ApplyOptions.

Variable options_obj : option Tcl_Options.

(** The macros [GET_D_FLOAT(name, target)] and [GET_D_INT(name, target)]:
    the new value of [target]. *)
Definition GET_D_FLOAT (name : string) (target : spec_float) : spec_float :=
  match options_obj with
  | Some o =>
      match Tcl_DictObjGet o name with
      | Some val =>
          match Tcl_GetDoubleFromObj val with
          | Some d => F32.of_double d
          | None => target
          end
      | None => target
      end
  | None => target
  end.

Definition GET_D_INT (name : string) (target : Z) : Z :=
  match options_obj with
  | Some o =>
      match Tcl_DictObjGet o name with
      | Some val =>
          match Tcl_GetIntFromObj val with
          | Some i => int32 i
          | None => target
          end
      | None => target
      end
  | None => target
  end.

End ApplyOptions.

(** The range validation block ("Validación de rangos con clamping"),
    one definition per group of lines of the source. *)
Definition clamp_temp (state : LlamaState) : LlamaState :=
  let state := if SFltb (temp state) f32_0 then set_temp f32_0 state else state in
  if SFltb f32_2 (temp state) then set_temp f32_2 state else state.

Definition clamp_top_k (state : LlamaState) : LlamaState :=
  if top_k state <? 1 then set_top_k 1 state else state.

Definition clamp_top_p (state : LlamaState) : LlamaState :=
  let state := if SFltb (top_p state) f32_0 then set_top_p f32_0 state else state in
  if SFltb f32_1 (top_p state) then set_top_p f32_1 state else state.

Definition clamp_min_p (state : LlamaState) : LlamaState :=
  let state := if SFltb (min_p state) f32_0 then set_min_p f32_0 state else state in
  if SFltb f32_1 (min_p state) then set_min_p f32_1 state else state.

Definition clamp_repeat_penalty (state : LlamaState) : LlamaState :=
  if SFltb (repeat_penalty state) f32_0
  then set_repeat_penalty f32_1 state else state.

Definition clamp_n_predict (state : LlamaState) : LlamaState :=
  if n_predict state <? -1 then set_n_predict (-1) state else state.

Definition clamp_options (state : LlamaState) : LlamaState :=
  let state := clamp_temp state in
  let state := clamp_top_k state in
  let state := clamp_top_p state in
  let state := clamp_min_p state in
  let state := clamp_repeat_penalty state in
  clamp_n_predict state.

Definition read_options (options_obj : option Tcl_Options)
    (state : LlamaState) : LlamaState :=
  let get_f := GET_D_FLOAT options_obj in
  let get_i := GET_D_INT options_obj in
  let state := set_temp (get_f "temperature" (temp state)) state in
  let state := set_top_k (get_i "top_k" (top_k state)) state in
  let state := set_top_p (get_f "top_p" (top_p state)) state in
  let state := set_min_p (get_f "min_p" (min_p state)) state in
  let state := set_repeat_penalty
                 (get_f "repeat_penalty" (repeat_penalty state)) state in
  let state := set_repeat_last_n
                 (get_i "repeat_last_n" (repeat_last_n state)) state in
  let state := set_n_predict (get_i "num_predict" (n_predict state)) state in
  let state := set_mirostat (get_i "mirostat" (mirostat state)) state in
  let state := set_mirostat_tau
                 (get_f "mirostat_tau" (mirostat_tau state)) state in
  let state := set_mirostat_eta
                 (get_f "mirostat_eta" (mirostat_eta state)) state in
  set_seed (get_i "seed" (seed state)) state.

(** The chain built by the calls to [llama_sampler_chain_add], first
    added stage first. *)
Definition build_chain (bk : Backend) (state : LlamaState)
  : list llama_sampler :=
  [ llama_sampler_init_temp (temp state);
    llama_sampler_init_top_k (top_k state);
    llama_sampler_init_top_p (top_p state) 1;
    llama_sampler_init_min_p (min_p state) 1;
    llama_sampler_init_penalties (repeat_last_n state) (repeat_penalty state)
      (presence_penalty state) (frequency_penalty state) ]
  ++ (if mirostat state =? 1
      then [ llama_sampler_init_mirostat (llama_vocab_n_tokens bk)
               (seed state) (mirostat_tau state) (mirostat_eta state) 100 ]
      else if mirostat state =? 2
      then [ llama_sampler_init_mirostat_v2 (seed state)
               (mirostat_tau state) (mirostat_eta state) ]
      else [])
  ++ [ llama_sampler_init_dist (seed state) ].

(** [apply_options]: the previous chain is freed and replaced. *)
Definition apply_options (bk : Backend) (options_obj : option Tcl_Options)
    (state : LlamaState) : LlamaState :=
  let state :=
    match options_obj with
    | Some _ => clamp_options (read_options options_obj state)
    | None => state
    end in
  set_sampler (Some (build_chain bk state)) state.

(** ** The generation loop: [run_inference] *)

Definition BUFFER_SIZE : nat := 50.

(** [const char* tags[]] and [const char* partial_tags[]]. *)
Definition tags : list bytes :=
  [ lit "<end_of_turn>"; lit "<start_of_turn>";
    lit "<|im_end|>"; lit "<|eot_id|>"; lit "<|endoftext|>" ].

Definition partial_tags : list bytes :=
  [ lit "<end"; lit "<start"; lit "<|im"; lit "<|eot" ].

(** [s.find(t) != std::string::npos] *)
Definition contains (s t : bytes) : bool :=
  match find s t with Some _ => true | None => false end.

(** The five-fold disjunction that sets [found_tag]. *)
Definition found_tag (text_buffer : bytes) : bool :=
  contains text_buffer (lit "<end_of_turn>")
  || contains text_buffer (lit "<start_of_turn>")
  || contains text_buffer (lit "<|im_end|>")
  || contains text_buffer (lit "<|eot_id|>")
  || contains text_buffer (lit "<|endoftext|>").

(** [for (i = 0; tags[i] != NULL; i++)] with its [break] at the first tag
    of the array that occurs: the value left in [tag_pos]. *)
Fixpoint first_tag_pos (text_buffer : bytes) (tags : list bytes)
  : option nat :=
  match tags with
  | [] => None
  | t :: tags' =>
      match find text_buffer t with
      | Some pos => Some pos
      | None => first_tag_pos text_buffer tags'
      end
  end.

(** The loop that sets [has_partial_tag]. *)
Definition has_partial_tag (text_buffer : bytes) : bool :=
  existsb (contains text_buffer) partial_tags.

(** What a generation does to the outside, in order of occurrence. *)
Inductive flush_point := MarkerEmit | MarginFlush | FinalFlush.

Inductive event :=
| EvTokenize (text : bytes) (add_special : bool)
| EvSample (id : llama_token)
| EvBuffer (piece : bytes)
    (* text_buffer.append(piece, n) *)
| EvAppend (pt : flush_point) (frag : bytes)
    (* Tcl_DStringAppend(&resp, frag) *)
| EvCallback (pt : flush_point) (frag : bytes) (ok : bool)
    (* evaluation of the script {cb_name frag}; ok = (result == TCL_OK) *)
| EvDecode (batch : llama_batch) (ok : bool).

(** The callback script: the outcome of its [k]-th evaluation within the
    call ([k] counted from 0) on a fragment; [true] stands for [TCL_OK]. *)
Definition callback := nat -> bytes -> bool.

(** The locals of [run_inference] together with [state->n_past]. *)
Record gen_state := {
  text_buffer : bytes;
  resp : bytes;
  p_cnt : Z;
  g_n_past : Z;
  cb_calls : nat;
  trace : list event
}.

Definition log (e : event) (g : gen_state) : gen_state :=
  {| text_buffer := text_buffer g; resp := resp g; p_cnt := p_cnt g;
     g_n_past := g_n_past g; cb_calls := cb_calls g;
     trace := trace g ++ [e] |}.

Definition set_text_buffer (tb : bytes) (g : gen_state) : gen_state :=
  {| text_buffer := tb; resp := resp g; p_cnt := p_cnt g;
     g_n_past := g_n_past g; cb_calls := cb_calls g; trace := trace g |}.

(** [Tcl_DStringAppend(&resp, frag)] *)
Definition dstring_append (pt : flush_point) (frag : bytes) (g : gen_state)
  : gen_state :=
  log (EvAppend pt frag)
    {| text_buffer := text_buffer g; resp := resp g ++ frag;
       p_cnt := p_cnt g; g_n_past := g_n_past g; cb_calls := cb_calls g;
       trace := trace g |}.

(** [if (cb_name) { ... Tcl_EvalObjEx(interp, cmd, TCL_EVAL_DIRECT) }]:
    whether the evaluation returned [TCL_OK] ([true] without callback). *)
Definition eval_callback (cb_name : option callback) (pt : flush_point)
    (frag : bytes) (g : gen_state) : bool * gen_state :=
  match cb_name with
  | Some cb =>
      let ok := cb (cb_calls g) frag in
      (ok, log (EvCallback pt frag ok)
             {| text_buffer := text_buffer g; resp := resp g;
                p_cnt := p_cnt g; g_n_past := g_n_past g;
                cb_calls := S (cb_calls g); trace := trace g |})
  | None => (true, g)
  end.

Inductive loop_exit :=
| ExitBudget          (* p_cnt reached max_tokens *)
| ExitContextFull     (* n_past >= n_ctx *)
| ExitEog             (* shield 1a *)
| ExitControl         (* shield 1b *)
| ExitStopId          (* shield 2 *)
| ExitMarker          (* shield 3 *)
| ExitCallbackError   (* return TCL_ERROR after a failed callback *)
| ExitDecodeError.    (* return TCL_ERROR after a failed decode *)

Inductive step_result :=
| Continue (g : gen_state)
| Leave (why : loop_exit) (g : gen_state).

Section Generation.

Variable bk : Backend.
Variable n_ctx_ : Z.                     (* state->n_ctx *)
Variable cb_name : option callback.
Variable stop_ids : list llama_token.

(** Lines 239-326: the token's text enters the streaming buffer. *)
Definition text_step (piece : bytes) (g : gen_state) : step_result :=
  let tb := text_buffer g ++ piece in
  let g := log (EvBuffer piece) g in
  let tb := if (BUFFER_SIZE <? length tb)%nat
            then substr_from tb (length tb - BUFFER_SIZE) else tb in
  let g := set_text_buffer tb g in
  if found_tag tb then
    Leave ExitMarker
      match first_tag_pos tb tags with
      | Some tag_pos =>
          let before_tag := substr_to tb tag_pos in
          match before_tag with
          | [] => g
          | _ :: _ =>
              let safe_len :=
                find_last_utf8_boundary before_tag (length before_tag) in
              if (0 <? safe_len)%nat then
                let g := dstring_append MarkerEmit
                           (take safe_len before_tag) g in
                (* the result of the evaluation is not inspected *)
                snd (eval_callback cb_name MarkerEmit
                       (take safe_len before_tag) g)
              else g
          end
      | None => g
      end
  else if (20 <? length tb)%nat then
    let safe_len := find_last_utf8_boundary tb (length tb - 20) in
    if (0 <? safe_len)%nat then
      let safe_part := substr_to tb safe_len in
      let g := dstring_append MarginFlush safe_part g in
      let '(ok, g) := eval_callback cb_name MarginFlush (c_str safe_part) g in
      if ok then Continue (set_text_buffer (substr_from tb safe_len) g)
      else Leave ExitCallbackError g
    else Continue g
  else Continue g.

(** Lines 329-340: the token is decoded back into the context. *)
Definition decode_step (id : llama_token) (g : gen_state) : step_result :=
  let b := fill_batch [] id (g_n_past g) true in
  let ok := bk_decode bk b in
  let g := log (EvDecode b ok)
             {| text_buffer := text_buffer g; resp := resp g;
                p_cnt := p_cnt g; g_n_past := g_n_past g + 1;
                cb_calls := cb_calls g; trace := trace g |} in
  if ok then
    Continue {| text_buffer := text_buffer g; resp := resp g;
                p_cnt := p_cnt g + 1; g_n_past := g_n_past g;
                cb_calls := cb_calls g; trace := trace g |}
  else Leave ExitDecodeError g.

(** One pass through the body of [while (p_cnt < max_tokens)].  The
    token sampled is the [p_cnt]-th of the call: every earlier pass
    sampled once and incremented [p_cnt]. *)
Definition gen_step (g : gen_state) : step_result :=
  if n_ctx_ <=? g_n_past g then Leave ExitContextFull g
  else
    let id := bk_sample bk (Z.to_nat (p_cnt g)) in
    let g := log (EvSample id) g in
    if llama_vocab_is_eog bk id then Leave ExitEog g
    else if bk_attr_control bk id then Leave ExitControl g
    else if existsb (Z.eqb id) stop_ids then Leave ExitStopId g
    else
      let '(n, piece) := llama_token_to_piece bk id 511 in
      let r := if (0 <? n) && (n <? 512) then text_step piece g
               else Continue g in
      match r with
      | Continue g => decode_step id g
      | Leave why g => Leave why g
      end.

(** The loop.  [fuel] bounds the number of passes; [None] is returned
    only when it runs out. *)
Fixpoint gen_loop (fuel : nat) (max_tokens : Z) (g : gen_state)
  : option (loop_exit * gen_state) :=
  match fuel with
  | O => None
  | S fuel' =>
      if p_cnt g <? max_tokens then
        match gen_step g with
        | Continue g' => gen_loop fuel' max_tokens g'
        | Leave why g' => Some (why, g')
        end
      else Some (ExitBudget, g)
  end.

(** Lines 343-366: what is left in the buffer when the loop was left
    through a [break] or its condition. *)
Definition final_flush (g : gen_state) : gen_state :=
  match text_buffer g with
  | [] => g
  | _ :: _ =>
      if has_partial_tag (text_buffer g) then g
      else
        let g := dstring_append FinalFlush (text_buffer g) g in
        (* the result of the evaluation is not inspected *)
        snd (eval_callback cb_name FinalFlush (c_str (text_buffer g)) g)
  end.

End Generation.

(** Results of a Tcl command. *)
Inductive tcl_error :=
| ErrMessage (msg : string)
| ErrContextOverflow (n_past n_tok n_ctx : Z)
| ErrCallback.     (* whatever the failed callback left in the interpreter *)

Inductive tcl_result :=
| TCL_OK (result : bytes)
| TCL_ERROR (err : tcl_error).

Record cmd_result := {
  r_state : LlamaState;
  r_code : tcl_result;
  r_trace : list event;
  r_exit : option loop_exit    (* how the generation loop was left, if run *)
}.

Definition max_tokens_of (state : LlamaState) : Z :=
  if 0 <? n_predict state then n_predict state else 4096.

Definition run_inference (bk : Backend) (state : LlamaState)
    (cb_name : option callback) (stop_ids : list llama_token)
  : option cmd_result :=
  let max_tokens := max_tokens_of state in
  let g0 := {| text_buffer := []; resp := []; p_cnt := 0;
               g_n_past := n_past state; cb_calls := 0; trace := [] |} in
  match gen_loop bk (n_ctx state) cb_name stop_ids
          (S (Z.to_nat max_tokens)) max_tokens g0 with
  | None => None
  | Some (ExitCallbackError, g) =>
      Some {| r_state := set_n_past (g_n_past g) state;
              r_code := TCL_ERROR ErrCallback;
              r_trace := trace g; r_exit := Some ExitCallbackError |}
  | Some (ExitDecodeError, g) =>
      Some {| r_state := set_n_past (g_n_past g) state;
              r_code := TCL_ERROR (ErrMessage "Decode failed during generation");
              r_trace := trace g; r_exit := Some ExitDecodeError |}
  | Some (why, g) =>
      let g := final_flush cb_name g in
      Some {| r_state := set_n_gen (p_cnt g) (set_n_past (g_n_past g) state);
              r_code := TCL_OK (c_str (resp g));
              r_trace := trace g; r_exit := Some why |}
  end.

(** ** [Llama_Generate_Cmd] *)

(** One [-name value] pair of the command line, as the option loop reads
    it.  A value that the Tcl accessor rejects is [None]. *)
Inductive gen_option :=
| opt_callback (cb : callback)
| opt_options (o : Tcl_Options)
| opt_reset (v : option bool)              (* Tcl_GetBooleanFromObj *)
| opt_system (s : bytes)
| opt_max_tokens (v : option Z)            (* Tcl_GetIntFromObj *)
| opt_stop_ids (l : option (list (option Z)))
| opt_unknown.

(** The locals the option loop assigns. *)
Record gen_locals := {
  l_cb_name : option callback;
  l_system_msg : option bytes;
  l_reset : bool;
  l_stop_ids : list llama_token
}.

Definition no_locals : gen_locals :=
  {| l_cb_name := None; l_system_msg := None; l_reset := false;
     l_stop_ids := [] |}.

(** The ids of a [-stop_ids] list that read as integers, in order. *)
Definition push_stop_ids (sel : list (option Z)) (stop_ids : list llama_token)
  : list llama_token :=
  stop_ids ++ omap id sel.

Definition read_option (bk : Backend) (o : gen_option)
    (acc : gen_locals * LlamaState) : gen_locals * LlamaState :=
  let '(l, state) := acc in
  match o with
  | opt_callback cb =>
      ({| l_cb_name := Some cb; l_system_msg := l_system_msg l;
          l_reset := l_reset l; l_stop_ids := l_stop_ids l |}, state)
  | opt_options obj => (l, apply_options bk (Some obj) state)
  | opt_reset (Some b) =>
      ({| l_cb_name := l_cb_name l; l_system_msg := l_system_msg l;
          l_reset := b; l_stop_ids := l_stop_ids l |}, state)
  | opt_reset None => (l, state)
  | opt_system s =>
      ({| l_cb_name := l_cb_name l; l_system_msg := Some s;
          l_reset := l_reset l; l_stop_ids := l_stop_ids l |}, state)
  | opt_max_tokens (Some max_tokens) => (l, set_n_predict max_tokens state)
  | opt_max_tokens None => (l, state)
  | opt_stop_ids (Some sel) =>
      ({| l_cb_name := l_cb_name l; l_system_msg := l_system_msg l;
          l_reset := l_reset l;
          l_stop_ids := push_stop_ids sel (l_stop_ids l) |}, state)
  | opt_stop_ids None => (l, state)
  | opt_unknown => (l, state)
  end.

(** [for (int i = 3; i < objc; i += 2)] *)
Definition read_options_loop (bk : Backend) (opts : list gen_option)
    (state : LlamaState) : gen_locals * LlamaState :=
  fold_left (fun acc o => read_option bk o acc) opts (no_locals, state).

(** "Construir prompt con system message si existe".  The arguments are
    the texts of the C strings [system_msg] and [prompt]. *)
Definition build_full_prompt (system_msg : option bytes) (prompt : bytes)
    (n_past : Z) : bytes :=
  match system_msg with
  | Some s =>
      if (0 <? length s)%nat && (n_past =? 0)
      then s ++ [x0a; x0a] ++ prompt
      else prompt
  | None => prompt
  end.

(** [for (i = 0; i < n_tok; i++) { fill_batch(batch, tokens[i],
    state->n_past, i == n_tok - 1); state->n_past++; }] from index [i]
    on: the batch and [state->n_past] after the loop. *)
Fixpoint fill_prompt_batch (tokens : list llama_token) (i n_tok : Z)
    (batch : llama_batch) (n_past : Z) : llama_batch * Z :=
  match tokens with
  | [] => (batch, n_past)
  | t :: tokens' =>
      fill_prompt_batch tokens' (i + 1) n_tok
        (fill_batch batch t n_past (i =? n_tok - 1)) (n_past + 1)
  end.

Definition prepend_trace (tr : list event) (r : cmd_result) : cmd_result :=
  {| r_state := r_state r; r_code := r_code r; r_trace := tr ++ r_trace r;
     r_exit := r_exit r |}.

Definition Llama_Generate_Cmd (bk : Backend) (state : LlamaState)
    (prompt : bytes) (opts : list gen_option) : option cmd_result :=
  let '(l, state) := read_options_loop bk opts state in
  let state := if l_reset l then set_n_past 0 state else state in
  let full_prompt := build_full_prompt (l_system_msg l) prompt (n_past state) in
  let add_special := n_past state =? 0 in
  let '(n_tok, tokens) :=
    llama_tokenize bk full_prompt (length full_prompt + 256) add_special in
  let tr := [EvTokenize full_prompt add_special] in
  if n_tok <? 0 then
    Some {| r_state := state;
            r_code := TCL_ERROR (ErrMessage "Tokenization failed");
            r_trace := tr; r_exit := None |}
  else if n_ctx state <=? n_past state + n_tok then
    Some {| r_state := state;
            r_code := TCL_ERROR
                        (ErrContextOverflow (n_past state) n_tok (n_ctx state));
            r_trace := tr; r_exit := None |}
  else
    let '(batch, n_past') :=
      fill_prompt_batch tokens 0 n_tok [] (n_past state) in
    let state := set_n_past n_past' state in
    let ok := bk_decode bk batch in
    let tr := tr ++ [EvDecode batch ok] in
    if ok then
      let state := set_n_eval n_tok state in
      option_map (prepend_trace tr)
        (run_inference bk state (l_cb_name l) (l_stop_ids l))
    else
      Some {| r_state := state;
              r_code := TCL_ERROR (ErrMessage "Decode failed");
              r_trace := tr; r_exit := None |}.

(** ** The other commands on a session *)

Definition set_n_ctx (v : Z) (st : LlamaState) : LlamaState :=
  {| temp := temp st; top_k := top_k st; top_p := top_p st; min_p := min_p st;
     repeat_penalty := repeat_penalty st; repeat_last_n := repeat_last_n st;
     presence_penalty := presence_penalty st;
     frequency_penalty := frequency_penalty st; mirostat := mirostat st;
     mirostat_tau := mirostat_tau st; mirostat_eta := mirostat_eta st;
     seed := seed st; n_predict := n_predict st; n_ctx := v;
     n_past := n_past st; verbose := verbose st; n_eval := n_eval st;
     n_gen := n_gen st; sampler := sampler st |}.

(** [Llama_Init_Cmd].  [n_ctx_arg] is the optional third word of the
    command: [None] when it is absent, [Some None] when
    [Tcl_GetIntFromObj] rejects it.  Whether the model file loads and
    whether the context can be created is up to the backend. *)
Inductive init_result :=
| InitOk (state : LlamaState)
| InitError (msg : option string).   (* [None]: the message Tcl left *)

Definition Llama_Init_Cmd (bk : Backend) (n_ctx_arg : option (option Z))
    (model_loads context_created : bool) : init_result :=
  let checked :=
    match n_ctx_arg with
    | None => inr 4096
    | Some None => inl (InitError None)
    | Some (Some n_ctx) =>
        if (n_ctx <? 512) || (32768 <? n_ctx)
        then inl (InitError (Some "n_ctx must be between 512 and 32768"%string))
        else inr n_ctx
    end in
  match checked with
  | inl e => e
  | inr n_ctx =>
      let state := zeroed_state in
      let state := set_defaults state in
      let state := set_n_ctx n_ctx state in
      if negb model_loads then InitError (Some "Failed to load model"%string)
      else if negb context_created
      then InitError (Some "Failed to create context"%string)
      else InitOk (apply_options bk None state)
  end.

(** [Llama_ClearCache_Cmd] and [Llama_GetContext_Cmd]. *)
Definition Llama_ClearCache_Cmd (state : LlamaState) : LlamaState :=
  let state := set_n_past 0 state in
  let state := set_n_eval 0 state in
  set_n_gen 0 state.

Definition Llama_GetContext_Cmd (state : LlamaState) : Z := n_past state.

(** [Llama_Detokenize_Cmd].  [token_list] is [None] when the value is not
    a list; an element is [None] when [Tcl_GetIntFromObj] rejects it.  The
    loop appends the piece of each token to [result]. *)
Fixpoint detokenize_loop (bk : Backend) (token_elems : list (option Z))
    (result : bytes) : option bytes :=
  match token_elems with
  | [] => Some result
  | None :: _ => None
  | Some token_id :: token_elems' =>
      let '(n, piece) := llama_token_to_piece bk token_id 255 in
      detokenize_loop bk token_elems'
        (if 0 <? n then result ++ piece else result)
  end.

Definition Llama_Detokenize_Cmd (bk : Backend)
    (token_list : option (list (option Z))) : tcl_result :=
  match token_list with
  | None => TCL_ERROR (ErrMessage "Invalid token list")
  | Some token_elems =>
      match detokenize_loop bk token_elems [] with
      | None => TCL_ERROR (ErrMessage "Invalid token ID")
      | Some result => TCL_OK (c_str result)
      end
  end.

(** ** [Llama_Chat] *)

(** What the chat command asks of the model besides the backend of the
    generation: the value stored under the metadata key
    ["tokenizer.chat_template"], if any, and the template engine
    ([llama_chat_apply_template] with [add_ass] true), which yields the
    formatted conversation or fails. *)
Record ChatBackend := {
  bk_chat_template : option bytes;
  bk_apply_template : bytes -> list (bytes * bytes) -> option bytes
}.

(** An element of the message list, as the two calls of [Tcl_DictObjGet]
    see it: the values stored under ["role"] and ["content"].  Elements
    that are not dictionaries are not represented (the source reads the
    two pointers without looking at the result of the calls). *)
Record chat_elem := {
  m_role : option bytes;
  m_content : option bytes
}.

(** The loop over the messages: [cmsgs]. *)
Definition collect_messages (msgs_elems : list chat_elem)
  : list (bytes * bytes) :=
  omap (fun e =>
          match m_role e, m_content e with
          | Some role, Some content => Some (role, content)
          | _, _ => None
          end) msgs_elems.

(** [llama_model_meta_val_str(model, "tokenizer.chat_template", buf,
    buf_size)]: the length of the value and what fits in [buf], or -1. *)
Definition llama_model_meta_val_str (cbk : ChatBackend) (buf_size : nat)
  : Z * bytes :=
  match bk_chat_template cbk with
  | Some v => (Z.of_nat (length v), take (buf_size - 1) v)
  | None => (-1, [])
  end.

Definition fallback_template : bytes :=
  lit "{% for message in messages %}{{ message.role }}: {{ message.content }}"
  ++ [x0a] ++ lit "{% endfor %}".

(** "Obtener template del modelo con buffer dinámico" *)
Definition chat_template (cbk : ChatBackend) : bytes :=
  let '(tmpl_ret, tmpl_buffer) := llama_model_meta_val_str cbk 256 in
  if (0 <? tmpl_ret) && (tmpl_ret <? 256) then tmpl_buffer
  else if 256 <? tmpl_ret
  then snd (llama_model_meta_val_str cbk (Z.to_nat tmpl_ret + 1))
  else fallback_template.

(** The option loop of the chat command: it knows [-callback],
    [-options], [-max_tokens] and [-stop_ids]. *)
Definition read_chat_option (bk : Backend) (o : gen_option)
    (acc : gen_locals * LlamaState) : gen_locals * LlamaState :=
  match o with
  | opt_reset _ | opt_system _ => acc
  | _ => read_option bk o acc
  end.

Definition read_chat_options_loop (bk : Backend) (opts : list gen_option)
    (state : LlamaState) : gen_locals * LlamaState :=
  fold_left (fun acc o => read_chat_option bk o acc) opts (no_locals, state).

Definition Llama_Chat (bk : Backend) (cbk : ChatBackend) (state : LlamaState)
    (messages : option (list chat_elem)) (opts : list gen_option)
  : option cmd_result :=
  (* "CHAT ES STATELESS: RESET SIEMPRE" *)
  let state := set_n_past 0 state in
  match messages with
  | None =>
      Some {| r_state := state;
              r_code := TCL_ERROR (ErrMessage "Invalid messages list");
              r_trace := []; r_exit := None |}
  | Some msgs_elems =>
      let cmsgs := collect_messages msgs_elems in
      let '(l, state) := read_chat_options_loop bk opts state in
      let tmpl := chat_template cbk in
      match bk_apply_template cbk tmpl cmsgs with
      | None =>
          Some {| r_state := state;
                  r_code := TCL_ERROR (ErrMessage "Template application failed");
                  r_trace := []; r_exit := None |}
      | Some formatted =>
          let '(n_tok, tokens) :=
            llama_tokenize bk formatted (length formatted + 1024) true in
          let tr := [EvTokenize formatted true] in
          if n_tok <? 0 then
            Some {| r_state := state;
                    r_code := TCL_ERROR (ErrMessage "Tokenization failed");
                    r_trace := tr; r_exit := None |}
          else
            let '(batch, n_past') :=
              fill_prompt_batch tokens 0 n_tok [] (n_past state) in
            let state := set_n_past n_past' state in
            let ok := bk_decode bk batch in
            let tr := tr ++ [EvDecode batch ok] in
            if ok then
              let state := set_n_eval n_tok state in
              option_map (prepend_trace tr)
                (run_inference bk state (l_cb_name l) (l_stop_ids l))
            else
              Some {| r_state := state;
                      r_code := TCL_ERROR (ErrMessage "Decode failed");
                      r_trace := tr; r_exit := None |}
      end
  end.

(** * Vocabulary of the properties *)

(** ** Sampler chains *)

Inductive stage_kind :=
| K_temp | K_top_k | K_top_p | K_min_p | K_penalties
| K_mirostat | K_mirostat_v2 | K_dist.

Definition kind_of (s : llama_sampler) : stage_kind :=
  match s with
  | llama_sampler_init_temp _ => K_temp
  | llama_sampler_init_top_k _ => K_top_k
  | llama_sampler_init_top_p _ _ => K_top_p
  | llama_sampler_init_min_p _ _ => K_min_p
  | llama_sampler_init_penalties _ _ _ _ => K_penalties
  | llama_sampler_init_mirostat _ _ _ _ _ => K_mirostat
  | llama_sampler_init_mirostat_v2 _ _ _ => K_mirostat_v2
  | llama_sampler_init_dist _ => K_dist
  end.

(** The optional mirostat stage selected by the [mirostat] field. *)
Definition mirostat_kinds (m : Z) : list stage_kind :=
  if m =? 1 then [K_mirostat] else if m =? 2 then [K_mirostat_v2] else [].

(** ** Configuration ranges *)

(** None of the float fields that the validation block compares is NaN. *)
Definition no_nan_config (st : LlamaState) : Prop :=
  is_nan (temp st) = false /\ is_nan (top_p st) = false /\
  is_nan (min_p st) = false /\ is_nan (repeat_penalty st) = false.

(** [lo <= f && f <= hi], with the comparisons of C. *)
Definition f32_between (lo hi f : spec_float) : Prop :=
  SFleb lo f = true /\ SFleb f hi = true.

(** The two-sided clamp [if (f < lo) f = lo; if (f > hi) f = hi;]. *)
Definition fclamp (lo hi f : spec_float) : spec_float :=
  let f := if SFltb f lo then lo else f in
  if SFltb hi f then hi else f.

(** The fields the validation block reads and writes. *)
Definition clamped_fields (st : LlamaState) :=
  (temp st, top_k st, top_p st, min_p st, repeat_penalty st, n_predict st).

(** The ranges the validation block establishes, in terms of the six
    fields before ([rd]) and after ([st']) it. *)
Definition ranges_hold (rd st' : LlamaState) : Prop :=
  f32_between f32_0 f32_2 (temp st') /\
  1 <= top_k st' /\
  f32_between f32_0 f32_1 (top_p st') /\
  f32_between f32_0 f32_1 (min_p st') /\
  SFltb (repeat_penalty st') f32_0 = false /\
  -1 <= n_predict st' /\
  (SFltb f32_2 (temp rd) = true -> temp st' = f32_2) /\
  (top_k rd < 1 -> top_k st' = 1) /\
  (SFltb (repeat_penalty rd) f32_0 = true -> repeat_penalty st' = f32_1) /\
  (n_predict rd < -1 -> n_predict st' = -1).

(** ** Example sessions and backends *)

(** A backend that replays a script of text pieces: the [k]-th sampled
    token is [k], its piece is the [k]-th piece of the script; tokens past
    the script are end-of-generation tokens.  Decoding succeeds as long as
    the position of the last token of the batch is below [fail_at]. *)
Definition script_backend (script : list bytes) (fail_at : Z) : Backend :=
  {| bk_sample := fun k => Z.of_nat k;
     llama_vocab_is_eog := fun id => Z.of_nat (length script) <=? id;
     bk_attr_control := fun _ => false;
     bk_piece := fun id => nth (Z.to_nat id) script [];
     bk_decode := fun b =>
       match last b with
       | Some e => be_pos e <? fail_at
       | None => true
       end;
     bk_tokenize := fun text _ =>
       Some (map (fun b => Z.of_N (Byte.to_N b)) text);
     llama_vocab_n_tokens := 256 |}.

(** The session [Llama_Init_Cmd] creates for the default [n_ctx]. *)
Definition fresh_session (bk : Backend) : LlamaState :=
  apply_options bk None (set_defaults zeroed_state).

Definition tcl_double (d : spec_float) : Tcl_Obj :=
  {| obj_double := Some d; obj_int := None |}.

Definition tcl_int (i : Z) : Tcl_Obj :=
  {| obj_double := Some (F64.of_Z i); obj_int := Some i |}.

(** ** Traces *)

(** The tokens sampled, in order. *)
Definition samples (tr : list event) : list llama_token :=
  omap (fun e => match e with EvSample id => Some id | _ => None end) tr.

(** The batches submitted to [llama_decode], with their outcome. *)
Definition decodes (tr : list event) : list (llama_batch * bool) :=
  omap (fun e => match e with EvDecode b ok => Some (b, ok) | _ => None end) tr.

(** The batches [llama_decode] accepted. *)
Definition accepted (tr : list event) : list llama_batch :=
  omap (fun e => match e with EvDecode b true => Some b | _ => None end) tr.

(** The fragments appended to the result string. *)
Definition appended (tr : list event) : list bytes :=
  omap (fun e => match e with EvAppend _ f => Some f | _ => None end) tr.

(** The fragments handed to the callback, with the outcome of each call. *)
Definition delivered (tr : list event) : list (bytes * bool) :=
  omap (fun e => match e with EvCallback _ f ok => Some (f, ok) | _ => None end) tr.

(** Every fragment that reached a sink (result string or callback). *)
Definition fragments (tr : list event) : list bytes :=
  omap (fun e => match e with
                 | EvAppend _ f => Some f
                 | EvCallback _ f _ => Some f
                 | _ => None
                 end) tr.

(** All the text that entered the streaming buffer. *)
Definition buffered (tr : list event) : bytes :=
  concat (omap (fun e => match e with EvBuffer p => Some p | _ => None end) tr).

(** The state in which [run_inference] enters its loop. *)
Definition gen_init (state : LlamaState) : gen_state :=
  {| text_buffer := []; resp := []; p_cnt := 0; g_n_past := n_past state;
     cb_calls := 0; trace := [] |}.

(** The state a pass through the loop body leaves behind. *)
Definition state_of (r : step_result) : gen_state :=
  match r with Continue g | Leave _ g => g end.

(** The events of the text path: buffer intake and sink deliveries. *)
Definition text_event (e : event) : Prop :=
  match e with
  | EvBuffer _ | EvAppend _ _ | EvCallback _ _ _ => True
  | _ => False
  end.

(** [g'] arises from [g] by text events only: the counters are the same
    and the trace is extended by buffer and sink events. *)
Definition text_only (g g' : gen_state) : Prop :=
  p_cnt g' = p_cnt g /\ g_n_past g' = g_n_past g /\
  exists evs, trace g' = trace g ++ evs /\ Forall text_event evs.

(** What [run_inference] makes of the way its loop was left. *)
Definition run_result (state : LlamaState) (cb_name : option callback)
    (why : loop_exit) (g : gen_state) : cmd_result :=
  match why with
  | ExitCallbackError =>
      {| r_state := set_n_past (g_n_past g) state;
         r_code := TCL_ERROR ErrCallback;
         r_trace := trace g; r_exit := Some ExitCallbackError |}
  | ExitDecodeError =>
      {| r_state := set_n_past (g_n_past g) state;
         r_code := TCL_ERROR (ErrMessage "Decode failed during generation");
         r_trace := trace g; r_exit := Some ExitDecodeError |}
  | _ =>
      let g := final_flush cb_name g in
      {| r_state := set_n_gen (p_cnt g) (set_n_past (g_n_past g) state);
         r_code := TCL_OK (c_str (resp g));
         r_trace := trace g; r_exit := Some why |}
  end.

(** The bounds of a generation on its counters: [s] tokens sampled, [a]
    of them accepted by the decoder, the position advanced by [d], under a
    token budget and a number of free context slots. *)
Definition within_budget (budget free s a d : Z) : Prop :=
  0 <= a /\ a <= s /\ s <= a + 1 /\ a <= d /\ d <= s /\
  s <= Z.min budget (Z.max 0 free).

(** A dictionary with out-of-range values. *)
Definition out_of_range_options : Tcl_Options :=
  OptDict (list_to_map
             [ ("temperature"%string, tcl_double (F64.of_Z 5));
               ("top_k"%string, tcl_int 0);
               ("repeat_penalty"%string, tcl_double (F64.of_Z (-3)));
               ("num_predict"%string, tcl_int (-7)) ]).

(** Callbacks: one that always succeeds, one that fails from its second
    evaluation on, one that always fails. *)
Definition cb_ok : callback := fun _ _ => true.
Definition cb_fails_on_second : callback := fun k _ => (k <? 1)%nat.
Definition cb_fails : callback := fun _ _ => false.

(** A backend whose decoder rejects every batch, and one whose decoder
    accepts positions 0 and 1 only; both produce the piece "a". *)
Definition bk_reject_all : Backend := script_backend [lit "a"] 0.
Definition bk_reject_from_2 : Backend := script_backend [lit "a"] 2.

(** A token of 21 letters followed by the end of generation. *)
Definition bk_21_letters : Backend :=
  script_backend [lit "aaaaaaaaaaaaaaaaaaaaa"] 4096.

(** Two markers in one piece, the one later in [tags] first in the text. *)
Definition bk_two_markers : Backend :=
  script_backend [lit "a<|im_end|>b<end_of_turn>"] 4096.

(** Text followed by the marker that has no entry in [partial_tags]. *)
Definition bk_endoftext : Backend :=
  script_backend [lit "Hi"; lit "<|endoftext|>"] 4096.

(** Text before a complete marker, in one piece. *)
Definition bk_hello_marker : Backend :=
  script_backend [lit "Hello<end_of_turn>"] 4096.

(** A loop state that holds [tb] in the streaming buffer and nothing else. *)
Definition buffer_state (tb : bytes) : gen_state :=
  {| text_buffer := tb; resp := []; p_cnt := 0; g_n_past := 0;
     cb_calls := 0; trace := [] |}.

(** The events of a final flush that delivers [tb]. *)
Definition final_flush_events (cb_name : option callback) (g : gen_state)
  : list event :=
  EvAppend FinalFlush (text_buffer g)
  :: match cb_name with
     | Some cb =>
         [EvCallback FinalFlush (c_str (text_buffer g))
            (cb (cb_calls g) (c_str (text_buffer g)))]
     | None => []
     end.

(** ** A marker spelled by successive tokens *)

Definition end_of_turn : bytes := lit "<end_of_turn>".

(** The first tokens the backend samples are ordinary tokens (none is an
    end-of-generation, control or manual stop token) and their pieces are
    [pieces], in order. *)
Definition spells (bk : Backend) (stop_ids : list llama_token)
    (pieces : list bytes) : Prop :=
  forall k piece,
    pieces !! k = Some piece ->
    bk_piece bk (bk_sample bk k) = piece /\
    llama_vocab_is_eog bk (bk_sample bk k) = false /\
    bk_attr_control bk (bk_sample bk k) = false /\
    existsb (Z.eqb (bk_sample bk k)) stop_ids = false.

(** The decoder accepts the first [n] sampled tokens, each submitted alone
    at the position it gets when the generation starts at [n0]. *)
Definition decodes_first (bk : Backend) (n0 : Z) (n : nat) : Prop :=
  forall k, (k < n)%nat ->
    bk_decode bk (fill_batch [] (bk_sample bk k) (n0 + Z.of_nat k) true) = true.

(** The events of a generation that starts at position [n0], has sampled
    [i] tokens and goes on sampling tokens with the pieces [rest], all
    decoded except the last. *)
Fixpoint marker_run_events (bk : Backend) (n0 : Z) (i : nat)
    (rest : list bytes) : list event :=
  match rest with
  | [] => []
  | [p] => [EvSample (bk_sample bk i); EvBuffer p]
  | p :: rest' =>
      [EvSample (bk_sample bk i); EvBuffer p;
       EvDecode (fill_batch [] (bk_sample bk i) (n0 + Z.of_nat i) true) true]
      ++ marker_run_events bk n0 (S i) rest'
  end.

(** ** UTF-8 text *)

(** A continuation byte [10xxxxxx]. *)
Definition is_cont (b : byte) : bool := (band b 0xC0 =? 0x80)%N.

(** A leading byte of one of the four forms [0xxxxxxx], [110xxxxx],
    [1110xxxx], [11110xxx]. *)
Definition is_lead (b : byte) : bool :=
  (band b 0x80 =? 0x00)%N || (band b 0xE0 =? 0xC0)%N
  || (band b 0xF0 =? 0xE0)%N || (band b 0xF8 =? 0xF0)%N.

(** Well-formed UTF-8: a sequence of characters, each a leading byte
    followed by as many continuation bytes as its high bits announce. *)
Inductive utf8_chars : bytes -> Prop :=
| utf8_nil : utf8_chars []
| utf8_char b tail rest :
    is_lead b = true ->
    S (length tail) = utf8_char_length b ->
    Forall (fun c => is_cont c = true) tail ->
    utf8_chars rest ->
    utf8_chars (b :: tail ++ rest).

(** The beginning of a character that is not complete: a leading byte
    with fewer continuation bytes than it announces, or nothing. *)
Inductive utf8_partial : bytes -> Prop :=
| partial_nil : utf8_partial []
| partial_char b tail :
    is_lead b = true ->
    (S (length tail) < utf8_char_length b)%nat ->
    Forall (fun c => is_cont c = true) tail ->
    utf8_partial (b :: tail).

(** A text that splits into whole characters when the length of each is
    read off its first byte with [utf8_char_length] (so that a byte that
    cannot start a character counts as a character of length 1). *)
Inductive whole_chars : bytes -> Prop :=
| whole_nil : whole_chars []
| whole_char b tail rest :
    S (length tail) = utf8_char_length b ->
    whole_chars rest ->
    whole_chars (b :: tail ++ rest).

(** Well-formed characters, possibly preceded by continuation bytes (what
    is left of a character whose beginning was cut off). *)
Definition utf8_tail_chars (s : bytes) : Prop :=
  exists c v, s = c ++ v /\ Forall (fun b => is_cont b = true) c /\ utf8_chars v.

(** What the engine may deliver: whole characters by the rule of
    [utf8_char_length], which are well-formed characters apart from
    leading continuation bytes. *)
Definition fragment_ok (frag : bytes) : Prop :=
  whole_chars frag /\ utf8_tail_chars frag.

(** The scan of [find_last_utf8_boundary] on the list itself: the number
    of bytes of the whole characters of [s] that fit in [budget]. *)
Fixpoint utf8_walk (fuel : nat) (s : bytes) (budget : nat) : nat :=
  match fuel with
  | O => 0%nat
  | S fuel' =>
      match s with
      | [] => 0%nat
      | b :: _ =>
          let char_len := utf8_char_length b in
          if (char_len <=? budget)%nat
          then (char_len + utf8_walk fuel' (drop char_len s) (budget - char_len))%nat
          else 0%nat
      end
  end.

(** The character U+1F600 in two halves, surrounded by letters. *)
Definition bk_split_char : Backend :=
  script_backend
    [ [xf0; x9f]; [x98; x80] ++ lit "aaaaaaaaaaaaaaaaaaa"; lit "bbbb" ] 4096.

(** [f] is a prefix selected by [find_last_utf8_boundary] in a piece of
    [w], possibly passed through [c_str]. *)
Definition scan_of (w f : bytes) : Prop :=
  exists a s z m,
    w = a ++ s ++ z /\
    (f = take (find_last_utf8_boundary s m) s \/
     f = c_str (take (find_last_utf8_boundary s m) s)).

(** The events of one evaluation of the callback, if there is one. *)
Definition callback_events (cb_name : option callback) (pt : flush_point)
    (frag : bytes) (g : gen_state) : list event :=
  match cb_name with
  | Some cb => [EvCallback pt frag (cb (cb_calls g) frag)]
  | None => []
  end.

(** The invariant of the loop on the streaming buffer and the sinks: the
    buffer is the end of the text buffered so far, and every fragment
    delivered so far is fit for delivery as soon as the text buffered so
    far begins a well-formed text. *)
Definition stream_inv (g : gen_state) : Prop :=
  (exists d, buffered (trace g) = d ++ text_buffer g) /\
  (forall X z, utf8_chars X -> X = buffered (trace g) ++ z ->
               Forall fragment_ok (fragments (trace g))).

(** A checker for [utf8_chars]: [pending] continuation bytes are still
    due for the current character. *)
Fixpoint utf8_valid_from (pending : nat) (s : bytes) : bool :=
  match s with
  | [] => (pending =? 0)%nat
  | b :: s' =>
      match pending with
      | O => is_lead b && utf8_valid_from (utf8_char_length b - 1) s'
      | S k => is_cont b && utf8_valid_from k s'
      end
  end.

Definition utf8_valid (s : bytes) : bool := utf8_valid_from 0 s.

(** The marker spelled by five tokens. *)
Definition five_pieces : list bytes :=
  [lit "<"; lit "end"; lit "_of"; lit "_turn"; lit ">"].

Definition bk_five_pieces : Backend := script_backend five_pieces 4096.

(** One piece of 51 bytes: 25 two-byte characters and a letter. *)
Definition bk_long_piece : Backend :=
  script_backend [concat (repeat [xc3; xa9] 25) ++ lit "a"] 4096.

(** The text pieces that entered the streaming buffer, one by one. *)
Definition pieces (tr : list event) : list bytes :=
  omap (fun e => match e with EvBuffer p => Some p | _ => None end) tr.

(** A piece that, appended to a buffer the margin flush has cut back,
    stays within the window of [BUFFER_SIZE] bytes. *)
Definition short_piece (p : bytes) : Prop := (length p <= 27)%nat.

(** "Mantener buffer limitado": the last [BUFFER_SIZE] bytes of the buffer
    once a piece has been appended. *)
Definition window (w : bytes) : bytes :=
  if (BUFFER_SIZE <? length w)%nat
  then substr_from w (length w - BUFFER_SIZE) else w.

(** The fragments of a pass whose margin flush cut the buffer [tb] at
    [k]. *)
Definition margin_fragment (tb : bytes) (k : nat) (f : bytes) : Prop :=
  f = take k tb \/ f = c_str (take k tb).

(** The fragment of a pass that found a marker at position [n] of [tb]. *)
Definition marker_fragment (tb : bytes) (f : bytes) : Prop :=
  exists n, f = take (find_last_utf8_boundary (take n tb) (length (take n tb)))
                  (take n tb).

(** The ways a pass through the text path can end, with [tb] the buffer
    after the piece was appended and the window applied and [k] the
    boundary found for the margin flush: nothing is delivered; the margin
    flush delivers the first [k] bytes and keeps the rest; the loop is left
    after a delivery with the buffer as it is. *)
Definition pass_quiet (tb : bytes) (k : nat) (g g' : gen_state) : Prop :=
  text_buffer g' = tb /\ fragments (trace g') = fragments (trace g) /\
  ((length tb <= 20)%nat \/ k = 0%nat).

Definition pass_flush (tb : bytes) (k : nat) (g g' : gen_state) : Prop :=
  (20 < length tb)%nat /\ (0 < k)%nat /\ text_buffer g' = drop k tb /\
  exists new, fragments (trace g') = fragments (trace g) ++ new /\
              Forall (margin_fragment tb k) new.

Definition pass_leave (tb : bytes) (k : nat) (g g' : gen_state) : Prop :=
  text_buffer g' = tb /\
  exists new, fragments (trace g') = fragments (trace g) ++ new /\
              Forall (fun f => marker_fragment tb f \/ margin_fragment tb k f) new.

(** The invariant of the loop on a stream of short pieces: the part of
    the buffered text that left the buffer is a whole number of
    well-formed characters, every fragment delivered is well-formed, and
    (while the loop goes on) the buffer holds at most 23 bytes, all as
    soon as the text buffered so far begins a well-formed text and came
    in short pieces. *)
Definition short_inv (going : bool) (g : gen_state) : Prop :=
  forall X z,
    utf8_chars X -> X = buffered (trace g) ++ z ->
    Forall short_piece (pieces (trace g)) ->
    exists d, buffered (trace g) = d ++ text_buffer g /\
              utf8_chars d /\
              Forall utf8_chars (fragments (trace g)) /\
              (going = true -> (length (text_buffer g) <= 23)%nat).

(** ** Sinks and shields of a generation *)

(** The text the callback receives for a fragment [f] appended at a flush
    point: the marker emit passes the length of the fragment, the margin
    flush and the final flush pass it as a C string. *)
Definition cb_arg (pt : flush_point) (f : bytes) : bytes :=
  match pt with MarkerEmit => f | _ => c_str f end.

(** A fragment goes to both sinks: appended to the result, then handed to
    the callback. *)
Definition emit (cb_name : option callback) (pt : flush_point) (f : bytes)
    (g : gen_state) : bool * gen_state :=
  eval_callback cb_name pt (cb_arg pt f) (dstring_append pt f g).

(** The events of [emit] when [calls] evaluations of the callback came
    before. *)
Definition emit_events (cb_name : option callback) (pt : flush_point)
    (f : bytes) (calls : nat) : list event :=
  EvAppend pt f
  :: match cb_name with
     | Some cb => [EvCallback pt (cb_arg pt f) (cb calls (cb_arg pt f))]
     | None => []
     end.

(** The fragment the marker shield emits for the buffer [tb], if any. *)
Definition marker_prefix (tb : bytes) : option bytes :=
  match first_tag_pos tb tags with
  | Some tag_pos =>
      let before_tag := take tag_pos tb in
      let safe_len := find_last_utf8_boundary before_tag (length before_tag) in
      if (0 <? safe_len)%nat then Some (take safe_len before_tag) else None
  | None => None
  end.

(** The fragment the margin flush takes off the buffer [tb], if any. *)
Definition margin_prefix (tb : bytes) : option bytes :=
  if (20 <? length tb)%nat then
    let safe_len := find_last_utf8_boundary tb (length tb - 20) in
    if (0 <? safe_len)%nat then Some (take safe_len tb) else None
  else None.

(** A token none of the first two shields stops. *)
Definition ordinary (bk : Backend) (stop_ids : list llama_token)
    (id : llama_token) : Prop :=
  llama_vocab_is_eog bk id = false /\ bk_attr_control bk id = false /\
  existsb (Z.eqb id) stop_ids = false.

(** The fragments appended to the result, with the flush point of each. *)
Definition appends (tr : list event) : list (flush_point * bytes) :=
  omap (fun e => match e with EvAppend pt f => Some (pt, f) | _ => None end) tr.

(** The calls of the callback that go with a list of appended fragments,
    when [calls] evaluations came before. *)
Fixpoint deliveries (cb : callback) (calls : nat)
    (l : list (flush_point * bytes)) : list (bytes * bool) :=
  match l with
  | [] => []
  | (pt, f) :: l' =>
      (cb_arg pt f, cb calls (cb_arg pt f)) :: deliveries cb (S calls) l'
  end.

(** The shield that stops a token and the way the loop is left through
    it: 1a, end of generation; 1b, control attribute; 2, manual stop id. *)
Definition shield_hit (bk : Backend) (stop_ids : list llama_token)
    (id : llama_token) (why : loop_exit) : Prop :=
  match why with
  | ExitEog => llama_vocab_is_eog bk id = true
  | ExitControl =>
      llama_vocab_is_eog bk id = false /\ bk_attr_control bk id = true
  | ExitStopId =>
      llama_vocab_is_eog bk id = false /\ bk_attr_control bk id = false /\
      existsb (Z.eqb id) stop_ids = true
  | _ => False
  end.

(** The batches of a generation that starts at position [n0] and decodes
    the tokens [ids]: one token each, at consecutive positions, with
    logits. *)
Definition token_batches (n0 : Z) (ids : list llama_token) : list llama_batch :=
  imap (fun i id => fill_batch [] id (n0 + Z.of_nat i) true) ids.

(** The tokens of a generation when its loop is left: [ids] are the
    tokens decoded back, in order; the token sampled last is among them
    unless the loop was left for it. *)
Definition tokens_at_exit (bk : Backend) (stop_ids : list llama_token)
    (n0 : Z) (why : loop_exit) (tr : list event) (ids : list llama_token)
  : Prop :=
  match why with
  | ExitBudget | ExitContextFull =>
      samples tr = ids /\
      decodes tr = map (fun b => (b, true)) (token_batches n0 ids)
  | ExitEog | ExitControl | ExitStopId =>
      exists id, samples tr = ids ++ [id] /\ shield_hit bk stop_ids id why /\
                 decodes tr = map (fun b => (b, true)) (token_batches n0 ids)
  | ExitMarker | ExitCallbackError =>
      exists id, samples tr = ids ++ [id] /\ ordinary bk stop_ids id /\
                 decodes tr = map (fun b => (b, true)) (token_batches n0 ids)
  | ExitDecodeError =>
      exists id, samples tr = ids ++ [id] /\ ordinary bk stop_ids id /\
                 decodes tr
                 = map (fun b => (b, true)) (token_batches n0 ids)
                   ++ [(fill_batch [] id (n0 + Z.of_nat (length ids)) true,
                        false)]
  end.

(** The tokens submitted to the decoder, in order. *)
Definition decoded_tokens (tr : list event) : list llama_token :=
  map be_token (concat (map fst (decodes tr))).

(** The size of a fragment appended at a flush point: the margin flush
    leaves 20 bytes of the window of [BUFFER_SIZE] behind. *)
Definition fragment_size (a : flush_point * bytes) : Prop :=
  (0 < length (snd a))%nat /\
  (length (snd a) <= match fst a with MarginFlush => 30 | _ => 50 end)%nat.

(** The invariant of the loop on its two sinks: the result string is what
    was appended; the callback was evaluated once for each fragment
    appended, in order, on the same text; fragments and buffer are
    bounded. *)
Definition sink_inv (cb_name : option callback) (g : gen_state) : Prop :=
  resp g = concat (map snd (appends (trace g))) /\
  delivered (trace g)
  = match cb_name with
    | Some cb => deliveries cb 0 (appends (trace g))
    | None => []
    end /\
  cb_calls g
  = match cb_name with
    | Some _ => length (appends (trace g))
    | None => 0%nat
    end /\
  Forall fragment_size (appends (trace g)) /\
  (length (text_buffer g) <= BUFFER_SIZE)%nat.

(** Any event but an evaluation of the callback at a margin flush that
    did not return [TCL_OK]. *)
Definition no_margin_failure (e : event) : Prop :=
  match e with
  | EvCallback MarginFlush _ false => False
  | _ => True
  end.

(** ** Text generated and text returned *)

(** The text of a token that enters the streaming buffer: the piece that
    [llama_token_to_piece] writes into the buffer of 511 bytes, unless it
    is empty or does not fit. *)
Definition text_piece (bk : Backend) (id : llama_token) : option bytes :=
  let piece := bk_piece bk id in
  if (0 <? length piece)%nat && (length piece <=? 511)%nat
  then Some piece else None.

(** The text [Llama_Detokenize_Cmd] appends for a token: the piece, unless
    it does not fit the buffer of 255 bytes. *)
Definition detok_piece (bk : Backend) (id : llama_token) : bytes :=
  let piece := bk_piece bk id in
  if (length piece <=? 255)%nat then piece else [].

(** A text without a marker stem and without ["<|endoftext|>"], the
    marker that has no stem. *)
Definition marker_free (text : bytes) : Prop :=
  has_partial_tag text = false /\
  contains text (lit "<|endoftext|>") = false.

(** The invariant of the loop on a stream of short pieces, for any bytes:
    what was buffered is what was appended followed by the buffer, and the
    buffer holds at most 23 bytes. *)
Definition lossless_inv (g : gen_state) : Prop :=
  Forall short_piece (pieces (trace g)) ->
  buffered (trace g) = concat (appended (trace g)) ++ text_buffer g /\
  (length (text_buffer g) <= 23)%nat.

(** A backend that generates three ordinary tokens. *)
Definition bk_hello_world : Backend :=
  script_backend [lit "Hello"; lit ", "; lit "world"] 4096.

(** ** The words of a command line *)

(** The values given with the options of each kind that the accessor of
    the kind could read, in the order of the command line. *)
Definition given_callbacks (opts : list gen_option) : list callback :=
  omap (fun o => match o with opt_callback cb => Some cb | _ => None end) opts.

Definition given_systems (opts : list gen_option) : list bytes :=
  omap (fun o => match o with opt_system s => Some s | _ => None end) opts.

Definition given_resets (opts : list gen_option) : list bool :=
  omap (fun o => match o with opt_reset (Some b) => Some b | _ => None end) opts.

Definition given_stop_ids (opts : list gen_option) : list llama_token :=
  concat (omap (fun o => match o with
                         | opt_stop_ids (Some sel) => Some (omap id sel)
                         | _ => None
                         end) opts).

(** ** Sessions between commands *)

(** What holds of a session whenever a command may be given to it: the
    sampling parameters lie in the ranges of the validation block, the
    repeat penalty is a number, the chain is the one built from the stored
    parameters, and the capacity is one that [Llama_Init_Cmd] accepts. *)
Definition session_ok (bk : Backend) (st : LlamaState) : Prop :=
  f32_between f32_0 f32_2 (temp st) /\
  1 <= top_k st /\
  f32_between f32_0 f32_1 (top_p st) /\
  f32_between f32_0 f32_1 (min_p st) /\
  is_nan (repeat_penalty st) = false /\
  SFltb (repeat_penalty st) f32_0 = false /\
  sampler st = Some (build_chain bk st) /\
  512 <= n_ctx st <= 32768.

(** A session with its counters and its token budget blanked: what is
    left are the sampling parameters, the chain, the capacity and the
    verbosity. *)
Definition settings (st : LlamaState) : LlamaState :=
  set_n_predict 0 (set_n_past 0 (set_n_eval 0 (set_n_gen 0 st))).

(** The keys [apply_options] looks up in the options dictionary. *)
Definition option_keys : list string :=
  [ "temperature"; "top_k"; "top_p"; "min_p"; "repeat_penalty";
    "repeat_last_n"; "num_predict"; "mirostat"; "mirostat_tau";
    "mirostat_eta"; "seed" ]%string.

(** ** Generation with and without a callback *)

(** A trace without the evaluations of the callback. *)
Definition not_callback (e : event) : bool :=
  match e with EvCallback _ _ _ => false | _ => true end.

Definition mute (tr : list event) : list event := List.filter not_callback tr.

(** The locals of a generation as they are when no callback is given. *)
Definition quiet (g : gen_state) : gen_state :=
  {| text_buffer := text_buffer g; resp := resp g; p_cnt := p_cnt g;
     g_n_past := g_n_past g; cb_calls := 0; trace := mute (trace g) |}.

Definition quiet_result (r : step_result) : step_result :=
  match r with
  | Continue g => Continue (quiet g)
  | Leave why g => Leave why (quiet g)
  end.

(** A callback that never fails. *)
Definition always_ok : callback := fun _ _ => true.

(** Two pieces of 30 bytes, each ten times the three-byte character
    U+4E2D; together well-formed UTF-8. *)
Definition bk_wide_pieces : Backend :=
  script_backend
    [ concat (repeat [xe4; xb8; xad] 10); concat (repeat [xe4; xb8; xad] 10) ]
    4096.

(** * Properties *)

(** ** Sampler chain order *)

Lemma kinds_build_chain bk st :
  map kind_of (build_chain bk st)
  = [K_temp; K_top_k; K_top_p; K_min_p; K_penalties]
    ++ mirostat_kinds (mirostat st) ++ [K_dist].
Proof.
  unfold build_chain, mirostat_kinds.
  destruct (mirostat st =? 1); [reflexivity|].
  destruct (mirostat st =? 2); reflexivity.
Qed.

Lemma sampler_apply_options bk o st :
  exists st',
    apply_options bk o st = set_sampler (Some (build_chain bk st')) st'.
Proof. unfold apply_options. eauto. Qed.

(** C5 (as amended).  Every rebuild of the sampler chain by
    [apply_options], for every options object and every session, installs
    the stages in the fixed order temperature, top-k, top-p, min-p,
    penalties, then the mirostat stage selected by the [mirostat] field
    (version 1 when it is 1, version 2 when it is 2, none otherwise), then
    the distribution-sampling stage last. *)
Theorem C5_chain_order bk o st :
  exists chain,
    sampler (apply_options bk o st) = Some chain /\
    map kind_of chain
    = [K_temp; K_top_k; K_top_p; K_min_p; K_penalties]
      ++ mirostat_kinds (mirostat (apply_options bk o st)) ++ [K_dist].
Proof.
  destruct (sampler_apply_options bk o st) as [st' E]. rewrite E.
  exists (build_chain bk st'). split; [reflexivity|].
  exact (kinds_build_chain bk st').
Qed.

(** C5, the claim as stated fails: the chain of a fresh session starts
    with the temperature stage and has the penalty stage fifth, so it is
    not the order penalties, top-k, top-p, min-p, temperature, dist. *)
Lemma C5_counterexample :
  exists chain,
    sampler (fresh_session (script_backend [] 0)) = Some chain /\
    map kind_of chain
    = [K_temp; K_top_k; K_top_p; K_min_p; K_penalties; K_dist] /\
    map kind_of chain
    <> [K_penalties; K_top_k; K_top_p; K_min_p; K_temp; K_dist].
Proof.
  eexists. split; [reflexivity|]. split; [reflexivity|]. discriminate.
Qed.

(** ** Configuration ranges *)

Section FloatOrder.

(** The IEEE comparison is antisymmetric on numbers. *)
Lemma SFcompare_antisym x y :
  SFcompare y x = option_map CompOpp (SFcompare x y).
Proof.
  destruct x as [sx|sx| |sx mx ex], y as [sy|sy| |sy my ey]; simpl;
    try reflexivity;
    try (destruct sx; reflexivity); try (destruct sy; reflexivity);
    try (destruct sx, sy; reflexivity).
  pose proof (Pos.compare_cont_antisym mx my Eq) as A. simpl in A.
  destruct sx, sy; simpl; try reflexivity;
    rewrite (Z.compare_antisym ex ey);
    destruct (ex ?= ey); simpl; try reflexivity;
    rewrite <- A; destruct (Pos.compare_cont Eq mx my); reflexivity.
Qed.

Lemma SFcompare_number x y :
  is_nan x = false -> is_nan y = false -> exists c, SFcompare x y = Some c.
Proof.
  destruct x, y; simpl; intros; try discriminate; eauto.
Qed.

(** [!(x < y)] gives [y <= x] when neither is NaN. *)
Lemma SFltb_false_SFleb x y :
  is_nan x = false -> is_nan y = false ->
  SFltb x y = false -> SFleb y x = true.
Proof.
  intros Hx Hy. unfold SFltb, SFleb. rewrite (SFcompare_antisym x y).
  destruct (SFcompare_number x y Hx Hy) as [c ->]. simpl.
  destruct c; simpl; congruence.
Qed.

End FloatOrder.

Lemma fclamp_between lo hi f :
  is_nan lo = false -> is_nan hi = false -> is_nan f = false ->
  SFleb lo hi = true -> SFleb lo lo = true -> SFleb hi hi = true ->
  f32_between lo hi (fclamp lo hi f).
Proof.
  intros Hlo Hhi Hf Hlh Hll Hhh. unfold fclamp, f32_between.
  destruct (SFltb f lo) eqn:E1.
  - destruct (SFltb hi lo) eqn:E2; auto.
  - destruct (SFltb hi f) eqn:E2; [auto|].
    split; apply SFltb_false_SFleb; assumption.
Qed.

Lemma fclamp_no_nan lo hi f :
  is_nan lo = false -> is_nan hi = false -> is_nan f = false ->
  is_nan (fclamp lo hi f) = false.
Proof.
  intros. unfold fclamp.
  destruct (SFltb f lo); destruct (SFltb hi _); assumption.
Qed.

(** Case analysis on a conditional whose test contains no conditional. *)
Ltac case_innermost_if :=
  match goal with
  | |- context [if ?c then _ else _] =>
      lazymatch c with
      | context [if _ then _ else _] => fail
      | _ => destruct c eqn:?
      end
  end.

Lemma clamp_temp_fields st :
  clamped_fields (clamp_temp st)
  = (fclamp f32_0 f32_2 (temp st), top_k st, top_p st, min_p st,
     repeat_penalty st, n_predict st).
Proof.
  unfold clamp_temp, fclamp, clamped_fields. cbv zeta.
  repeat (case_innermost_if; simpl); reflexivity.
Qed.

Lemma clamp_top_k_fields st :
  clamped_fields (clamp_top_k st)
  = (temp st, (if top_k st <? 1 then 1 else top_k st), top_p st, min_p st,
     repeat_penalty st, n_predict st).
Proof.
  unfold clamp_top_k, clamped_fields. destruct (top_k st <? 1); reflexivity.
Qed.

Lemma clamp_top_p_fields st :
  clamped_fields (clamp_top_p st)
  = (temp st, top_k st, fclamp f32_0 f32_1 (top_p st), min_p st,
     repeat_penalty st, n_predict st).
Proof.
  unfold clamp_top_p, fclamp, clamped_fields. cbv zeta.
  repeat (case_innermost_if; simpl); reflexivity.
Qed.

Lemma clamp_min_p_fields st :
  clamped_fields (clamp_min_p st)
  = (temp st, top_k st, top_p st, fclamp f32_0 f32_1 (min_p st),
     repeat_penalty st, n_predict st).
Proof.
  unfold clamp_min_p, fclamp, clamped_fields. cbv zeta.
  repeat (case_innermost_if; simpl); reflexivity.
Qed.

Lemma clamp_repeat_penalty_fields st :
  clamped_fields (clamp_repeat_penalty st)
  = (temp st, top_k st, top_p st, min_p st,
     (if SFltb (repeat_penalty st) f32_0 then f32_1 else repeat_penalty st),
     n_predict st).
Proof.
  unfold clamp_repeat_penalty, clamped_fields.
  destruct (SFltb (repeat_penalty st) f32_0); reflexivity.
Qed.

Lemma clamp_n_predict_fields st :
  clamped_fields (clamp_n_predict st)
  = (temp st, top_k st, top_p st, min_p st, repeat_penalty st,
     (if n_predict st <? -1 then -1 else n_predict st)).
Proof.
  unfold clamp_n_predict, clamped_fields.
  destruct (n_predict st <? -1); reflexivity.
Qed.

Lemma tuple6_eq {A B C D E F} (a a' : A) (b b' : B) (c c' : C) (d d' : D)
    (e e' : E) (f f' : F) :
  (a, b, c, d, e, f) = (a', b', c', d', e', f') ->
  a = a' /\ b = b' /\ c = c' /\ d = d' /\ e = e' /\ f = f'.
Proof. intros [= -> -> -> -> -> ->]. repeat split. Qed.

(** What the validation block leaves in each field it touches. *)
Lemma clamp_options_fields st :
  clamped_fields (clamp_options st)
  = (fclamp f32_0 f32_2 (temp st),
     (if top_k st <? 1 then 1 else top_k st),
     fclamp f32_0 f32_1 (top_p st),
     fclamp f32_0 f32_1 (min_p st),
     (if SFltb (repeat_penalty st) f32_0 then f32_1 else repeat_penalty st),
     (if n_predict st <? -1 then -1 else n_predict st)).
Proof.
  unfold clamp_options. cbv zeta.
  rewrite clamp_n_predict_fields.
  destruct (tuple6_eq _ _ _ _ _ _ _ _ _ _ _ _
              (clamp_repeat_penalty_fields
                (clamp_min_p (clamp_top_p (clamp_top_k (clamp_temp st))))))
    as (-> & -> & -> & -> & -> & ->).
  destruct (tuple6_eq _ _ _ _ _ _ _ _ _ _ _ _
              (clamp_min_p_fields (clamp_top_p (clamp_top_k (clamp_temp st)))))
    as (-> & -> & -> & -> & -> & ->).
  destruct (tuple6_eq _ _ _ _ _ _ _ _ _ _ _ _
              (clamp_top_p_fields (clamp_top_k (clamp_temp st))))
    as (-> & -> & -> & -> & -> & ->).
  destruct (tuple6_eq _ _ _ _ _ _ _ _ _ _ _ _
              (clamp_top_k_fields (clamp_temp st)))
    as (-> & -> & -> & -> & -> & ->).
  destruct (tuple6_eq _ _ _ _ _ _ _ _ _ _ _ _
              (clamp_temp_fields st))
    as (-> & -> & -> & -> & -> & ->).
  reflexivity.
Qed.

(** Rounding a number to binary32 never produces NaN. *)
Section RoundingNoNaN.

Variables prec emax : Z.

Lemma shr_1_nonneg mrs : 0 <= shr_m mrs -> 0 <= shr_m (shr_1 mrs).
Proof.
  destruct mrs as [m r s]. simpl.
  destruct m as [|p|p]; [| destruct p | destruct p]; simpl; lia.
Qed.

Lemma iter_pos_preserves {A} (P : A -> Prop) (f : A -> A) :
  (forall x, P x -> P (f x)) -> forall p x, P x -> P (SpecFloat.iter_pos f p x).
Proof.
  intros Hf. induction p as [p IH|p IH|]; simpl; intros x Hx; auto.
Qed.

Lemma shr_nonneg mrs e n :
  0 <= shr_m mrs -> 0 <= shr_m (fst (shr mrs e n)).
Proof.
  intros H. unfold shr. destruct n; simpl; try assumption.
  apply (iter_pos_preserves (fun r => 0 <= shr_m r)); auto using shr_1_nonneg.
Qed.

Lemma shr_fexp_nonneg m e l :
  0 <= m -> 0 <= shr_m (fst (shr_fexp prec emax m e l)).
Proof.
  intros H. unfold shr_fexp. apply shr_nonneg.
  destruct l as [|[ | | ]]; simpl; assumption.
Qed.

Lemma round_nearest_even_nonneg mx lx :
  0 <= mx -> 0 <= round_nearest_even mx lx.
Proof.
  intros H. unfold round_nearest_even.
  destruct lx as [|[ | | ]]; try destruct (Z.even mx); lia.
Qed.

Lemma binary_round_aux_no_nan sx mx ex lx :
  0 <= mx -> is_nan (binary_round_aux prec emax sx mx ex lx) = false.
Proof.
  intros H. unfold binary_round_aux.
  pose proof (shr_fexp_nonneg mx ex lx H) as H1.
  destruct (shr_fexp prec emax mx ex lx) as [mrs' e']. simpl in H1.
  pose proof (shr_fexp_nonneg _ e' loc_Exact
                (round_nearest_even_nonneg _ (loc_of_shr_record mrs') H1)) as H2.
  destruct (shr_fexp prec emax _ e' loc_Exact) as [mrs'' e'']. simpl in H2.
  destruct (shr_m mrs'') as [|m|m]; [reflexivity| |lia].
  destruct (e'' <=? emax - prec); reflexivity.
Qed.

Lemma binary_round_no_nan sx mx ex :
  is_nan (binary_round prec emax sx mx ex) = false.
Proof.
  unfold binary_round. destruct (shl_align _ _ _) as [mz ez].
  apply binary_round_aux_no_nan. lia.
Qed.

End RoundingNoNaN.

Lemma of_double_no_nan d : is_nan d = false -> is_nan (F32.of_double d) = false.
Proof.
  destruct d; simpl; try congruence. intros _. apply binary_round_no_nan.
Qed.

Lemma Tcl_GetDoubleFromObj_no_nan val d :
  Tcl_GetDoubleFromObj val = Some d -> is_nan d = false.
Proof.
  unfold Tcl_GetDoubleFromObj. destruct (obj_double val) as [d'|]; [|discriminate].
  destruct (is_nan d') eqn:E; [discriminate|]. intros [= <-]. exact E.
Qed.

Lemma GET_D_FLOAT_no_nan o name target :
  is_nan target = false -> is_nan (GET_D_FLOAT o name target) = false.
Proof.
  intros H. unfold GET_D_FLOAT. destruct o as [o|]; [|assumption].
  destruct (Tcl_DictObjGet o name) as [val|]; [|assumption].
  destruct (Tcl_GetDoubleFromObj val) as [d|] eqn:E; [|assumption].
  apply of_double_no_nan. eapply Tcl_GetDoubleFromObj_no_nan, E.
Qed.

(** What the option reads leave in the fields that are validated. *)
Lemma read_options_fields o st :
  clamped_fields (read_options o st)
  = (GET_D_FLOAT o "temperature" (temp st),
     GET_D_INT o "top_k" (top_k st),
     GET_D_FLOAT o "top_p" (top_p st),
     GET_D_FLOAT o "min_p" (min_p st),
     GET_D_FLOAT o "repeat_penalty" (repeat_penalty st),
     GET_D_INT o "num_predict" (n_predict st)).
Proof. reflexivity. Qed.

Lemma read_options_no_nan o st :
  no_nan_config st -> no_nan_config (read_options o st).
Proof.
  intros (Ht & Hp & Hm & Hr). repeat split.
  - exact (GET_D_FLOAT_no_nan o "temperature" _ Ht).
  - exact (GET_D_FLOAT_no_nan o "top_p" _ Hp).
  - exact (GET_D_FLOAT_no_nan o "min_p" _ Hm).
  - exact (GET_D_FLOAT_no_nan o "repeat_penalty" _ Hr).
Qed.

Lemma clamp_options_no_nan st :
  no_nan_config st -> no_nan_config (clamp_options st).
Proof.
  intros (Ht & Hp & Hm & Hr).
  destruct (tuple6_eq _ _ _ _ _ _ _ _ _ _ _ _ (clamp_options_fields st))
    as (E1 & _ & E3 & E4 & E5 & _).
  unfold no_nan_config. rewrite E1, E3, E4, E5.
  repeat split; try (apply fclamp_no_nan; auto).
  destruct (SFltb (repeat_penalty st) f32_0); auto.
Qed.

Lemma set_defaults_no_nan st : no_nan_config (set_defaults st).
Proof. repeat split. Qed.

(** No sequence of [apply_options] calls introduces a NaN. *)
Lemma apply_options_no_nan bk o st :
  no_nan_config st -> no_nan_config (apply_options bk o st).
Proof.
  intros H.
  assert (Hs : forall c s, no_nan_config s -> no_nan_config (set_sampler c s))
    by (intros c s Hc; exact Hc).
  unfold apply_options. apply Hs. destruct o as [o|]; [|exact H].
  exact (clamp_options_no_nan _ (read_options_no_nan (Some o) st H)).
Qed.

Lemma apply_options_fields bk o st :
  clamped_fields (apply_options bk (Some o) st)
  = clamped_fields (clamp_options (read_options (Some o) st)).
Proof.
  unfold apply_options. generalize (clamp_options (read_options (Some o) st)).
  intros l. cbv beta iota zeta. unfold clamped_fields, set_sampler. cbn.
  reflexivity.
Qed.

Lemma ranges_hold_fields rd st' :
  no_nan_config rd ->
  clamped_fields st'
  = (fclamp f32_0 f32_2 (temp rd),
     (if top_k rd <? 1 then 1 else top_k rd),
     fclamp f32_0 f32_1 (top_p rd),
     fclamp f32_0 f32_1 (min_p rd),
     (if SFltb (repeat_penalty rd) f32_0 then f32_1 else repeat_penalty rd),
     (if n_predict rd <? -1 then -1 else n_predict rd)) ->
  ranges_hold rd st'.
Proof.
  intros (Ht & Hp & Hm & Hr) E.
  destruct (tuple6_eq _ _ _ _ _ _ _ _ _ _ _ _ E)
    as (T1 & T2 & T3 & T4 & T5 & T6).
  unfold ranges_hold. rewrite T1, T2, T3, T4, T5, T6.
  clear T1 T2 T3 T4 T5 T6 E.
  split; [apply fclamp_between; auto|].
  split; [destruct (top_k rd <? 1) eqn:E; lia|].
  split; [apply fclamp_between; auto|].
  split; [apply fclamp_between; auto|].
  split; [destruct (SFltb (repeat_penalty rd) f32_0) eqn:E; auto|].
  split; [destruct (n_predict rd <? -1) eqn:E; lia|].
  split; [|split; [|split]].
  - intros H. unfold fclamp.
    destruct (SFltb (temp rd) f32_0) eqn:E.
    + exfalso. clear - H E. unfold SFltb in *.
      destruct (temp rd) as [s|s| |s m e]; try destruct s; cbn in *;
        discriminate.
    + rewrite H. reflexivity.
  - intros H. destruct (top_k rd <? 1) eqn:E; lia.
  - intros H. rewrite H. reflexivity.
  - intros H. destruct (n_predict rd <? -1) eqn:E; lia.
Qed.


(** ** The generation loop: termination and invariants *)

Section LoopRules.

Variable bk : Backend.
Variable n_ctx_ : Z.
Variable cb_name : option callback.
Variable stop_ids : list llama_token.

Let step := gen_step bk n_ctx_ cb_name stop_ids.
Let loop := gen_loop bk n_ctx_ cb_name stop_ids.

Lemma eval_callback_p_cnt pt frag g :
  p_cnt (snd (eval_callback cb_name pt frag g)) = p_cnt g.
Proof. unfold eval_callback. destruct cb_name; reflexivity. Qed.

Lemma text_step_p_cnt piece g g' :
  text_step cb_name piece g = Continue g' -> p_cnt g' = p_cnt g.
Proof.
  unfold text_step. cbv zeta.
  destruct (found_tag _); [discriminate|].
  destruct (20 <? _)%nat; [|intros [= <-]; reflexivity].
  destruct (0 <? _)%nat; [|intros [= <-]; reflexivity].
  match goal with
  | |- context [eval_callback ?c ?pt ?f ?g0] =>
      pose proof (eval_callback_p_cnt pt f g0) as E;
      destruct (eval_callback c pt f g0) as [ok g1]
  end.
  destruct ok; [|discriminate]. intros [= <-]. exact E.
Qed.

(** A pass that stays in the loop has incremented [p_cnt]. *)
Lemma gen_step_p_cnt g g' :
  step g = Continue g' -> p_cnt g' = p_cnt g + 1.
Proof.
  unfold step, gen_step.
  destruct (n_ctx_ <=? g_n_past g); [discriminate|]. cbv zeta.
  destruct (llama_vocab_is_eog bk _); [discriminate|].
  destruct (bk_attr_control bk _); [discriminate|].
  destruct (existsb _ stop_ids); [discriminate|].
  destruct (llama_token_to_piece bk _ 511) as [n piece].
  match goal with
  | |- context [if ?c then text_step _ _ ?g0 else _] =>
      destruct c;
      [ destruct (text_step cb_name piece g0) as [g1|why g1] eqn:Et;
        [apply text_step_p_cnt in Et|discriminate] | ]
  end;
    unfold decode_step; cbv zeta;
    destruct (bk_decode bk _); try discriminate;
    intros [= <-]; simpl in *; lia.
Qed.

(** The loop returns: [max_tokens - p_cnt] passes (and one more test of
    the loop condition) always suffice. *)
Lemma gen_loop_returns max_tokens fuel g :
  (Z.to_nat (max_tokens - p_cnt g) < fuel)%nat ->
  exists r, loop fuel max_tokens g = Some r.
Proof.
  revert g. induction fuel as [|fuel IH]; intros g Hf; [lia|].
  simpl. destruct (p_cnt g <? max_tokens) eqn:Hc; [|eauto].
  fold step. destruct (step g) as [g'|why g'] eqn:Hs; [|eauto].
  apply gen_step_p_cnt in Hs. apply IH. lia.
Qed.

(** The rule for establishing a property of the state in which the loop
    is left from an invariant of its passes. *)
Lemma gen_loop_rule (max_tokens : Z) (P : gen_state -> Prop)
    (Q : loop_exit -> gen_state -> Prop) :
  (forall g g', P g -> p_cnt g < max_tokens -> step g = Continue g' -> P g') ->
  (forall g why g',
      P g -> p_cnt g < max_tokens -> step g = Leave why g' -> Q why g') ->
  (forall g, P g -> max_tokens <= p_cnt g -> Q ExitBudget g) ->
  forall fuel g why g',
    P g -> loop fuel max_tokens g = Some (why, g') -> Q why g'.
Proof.
  intros Hcont Hleave Hend. induction fuel as [|fuel IH]; intros g why g' HP.
  - discriminate.
  - simpl. destruct (p_cnt g <? max_tokens) eqn:Hc.
    + fold step. destruct (step g) as [g1|why1 g1] eqn:Hs.
      * apply IH. eapply Hcont; eauto. lia.
      * intros [= <- <-]. eapply Hleave; eauto. lia.
    + intros [= <- <-]. apply Hend; [assumption|lia].
Qed.

End LoopRules.

(** *** Frame properties of the text path *)

Lemma text_only_refl g : text_only g g.
Proof.
  repeat split. exists []. rewrite app_nil_r. split; [reflexivity|constructor].
Qed.

Lemma text_only_trans g1 g2 g3 :
  text_only g1 g2 -> text_only g2 g3 -> text_only g1 g3.
Proof.
  intros (P1 & N1 & e1 & T1 & F1) (P2 & N2 & e2 & T2 & F2).
  repeat split; try congruence.
  exists (e1 ++ e2). rewrite T2, T1, app_assoc. split; [reflexivity|].
  apply Forall_app; auto.
Qed.

Lemma text_only_log e g : text_event e -> text_only g (log e g).
Proof.
  intros He. repeat split. exists [e]. split; [reflexivity|]. repeat constructor.
  exact He.
Qed.

Lemma text_only_set_text_buffer tb g : text_only g (set_text_buffer tb g).
Proof.
  repeat split. exists []. simpl. rewrite app_nil_r. split; [reflexivity|constructor].
Qed.

Lemma text_only_dstring_append pt frag g :
  text_only g (dstring_append pt frag g).
Proof.
  repeat split. exists [EvAppend pt frag]. split; [reflexivity|].
  repeat constructor.
Qed.

Lemma text_only_eval_callback cb pt frag g :
  text_only g (snd (eval_callback cb pt frag g)).
Proof.
  destruct cb as [cb|]; simpl; [|apply text_only_refl].
  repeat split. eexists [_]. split; [reflexivity|]. repeat constructor.
Qed.

Create HintDb text_only.
#[local] Hint Resolve text_only_refl text_only_log text_only_set_text_buffer
  text_only_dstring_append text_only_eval_callback : text_only.

Lemma text_only_final_flush cb g : text_only g (final_flush cb g).
Proof.
  unfold final_flush. destruct (text_buffer g); [apply text_only_refl|].
  destruct (has_partial_tag _); [apply text_only_refl|].
  eapply text_only_trans; [|apply text_only_eval_callback].
  apply text_only_dstring_append.
Qed.

Lemma text_only_text_step cb piece g :
  text_only g (state_of (text_step cb piece g)).
Proof.
  unfold text_step. cbv zeta.
  match goal with
  | |- context [set_text_buffer ?w (log ?e g)] => generalize w
  end.
  intros tb.
  assert (H0 : text_only g (set_text_buffer tb (log (EvBuffer piece) g))).
  { eapply text_only_trans; [apply (text_only_log (EvBuffer piece) g I)|].
    apply text_only_set_text_buffer. }
  revert H0. generalize (set_text_buffer tb (log (EvBuffer piece) g)).
  intros g0 H0.
  destruct (found_tag tb).
  - cbn [state_of].
    destruct (first_tag_pos tb tags) as [tag_pos|]; [|exact H0].
    destruct (substr_to tb tag_pos) as [|b before]; [exact H0|].
    destruct (0 <? _)%nat; [|exact H0].
    eapply text_only_trans; [exact H0|].
    eapply text_only_trans; [|apply text_only_eval_callback].
    apply text_only_dstring_append.
  - destruct (20 <? length tb)%nat; [|exact H0].
    destruct (0 <? _)%nat; [|exact H0].
    match goal with
    | |- context [eval_callback ?c ?pt ?f ?g1] =>
        pose proof (text_only_eval_callback c pt f g1) as H1;
        destruct (eval_callback c pt f g1) as [ok g2]
    end.
    cbn [snd] in H1.
    assert (H2 : text_only g g2).
    { eapply text_only_trans; [exact H0|].
      eapply text_only_trans; [|exact H1]. eauto with text_only. }
    destruct ok; cbn [state_of]; [|exact H2].
    eapply text_only_trans; [exact H2|]. apply text_only_set_text_buffer.
Qed.

(** The text path leaves the loop only through the marker shield or a
    failed callback. *)
Lemma text_step_leave cb piece g why g' :
  text_step cb piece g = Leave why g' ->
  why = ExitMarker \/ why = ExitCallbackError.
Proof.
  unfold text_step. cbv zeta.
  destruct (found_tag _); [intros [= <- _]; auto|].
  destruct (20 <? _)%nat; [|discriminate].
  destruct (0 <? _)%nat; [|discriminate].
  destruct (eval_callback _ _ _ _) as [ok g2].
  destruct ok; [discriminate|]. intros [= <- _]. auto.
Qed.

Lemma text_only_projections g g' :
  text_only g g' ->
  samples (trace g') = samples (trace g) /\
  decodes (trace g') = decodes (trace g) /\
  accepted (trace g') = accepted (trace g).
Proof.
  intros (_ & _ & evs & -> & F). unfold samples, decodes, accepted.
  rewrite !omap_app.
  assert (E : forall (B : Type) (f : event -> option B),
             (forall e, text_event e -> f e = None) -> omap f evs = []).
  { intros B f Hf. induction F as [|e evs He _ IH]; [reflexivity|].
    simpl. rewrite (Hf e He). exact IH. }
  rewrite !E, !app_nil_r; [auto| | |]; intros [] He; try reflexivity;
    destruct He.
Qed.

(** *** Counters along the loop *)

Section Counters.

Variable bk : Backend.
Variable n_ctx_ : Z.
Variable cb_name : option callback.
Variable stop_ids : list llama_token.

Let step := gen_step bk n_ctx_ cb_name stop_ids.

(** The number of tokens sampled, resp. accepted by the decoder. *)
Let n_sampled (g : gen_state) : Z := Z.of_nat (length (samples (trace g))).
Let n_accepted (g : gen_state) : Z := Z.of_nat (length (accepted (trace g))).

Lemma counts_log_sample id g :
  n_sampled (log (EvSample id) g) = n_sampled g + 1 /\
  n_accepted (log (EvSample id) g) = n_accepted g.
Proof.
  unfold n_sampled, n_accepted, samples, accepted, log. cbn [trace].
  rewrite !omap_app, !length_app. cbn. lia.
Qed.

Lemma counts_text_only g g' :
  text_only g g' -> n_sampled g' = n_sampled g /\ n_accepted g' = n_accepted g.
Proof.
  intros H. destruct (text_only_projections g g' H) as (E1 & _ & E3).
  unfold n_sampled, n_accepted. rewrite E1, E3. auto.
Qed.

(** What one pass does to the counters, by the way the pass ends. *)
Lemma gen_step_counts g :
  match step g with
  | Continue g' =>
      g_n_past g < n_ctx_ /\ p_cnt g' = p_cnt g + 1 /\
      g_n_past g' = g_n_past g + 1 /\
      n_sampled g' = n_sampled g + 1 /\ n_accepted g' = n_accepted g + 1
  | Leave ExitContextFull g' => g' = g /\ n_ctx_ <= g_n_past g
  | Leave why g' =>
      g_n_past g < n_ctx_ /\ p_cnt g' = p_cnt g /\
      n_sampled g' = n_sampled g + 1 /\ n_accepted g' = n_accepted g /\
      g_n_past g' = g_n_past g
                    + match why with ExitDecodeError => 1 | _ => 0 end /\
      why <> ExitBudget
  end.
Proof.
  unfold step, gen_step.
  destruct (n_ctx_ <=? g_n_past g) eqn:Hctx; [split; [reflexivity|lia]|].
  apply Z.leb_gt in Hctx. cbv zeta.
  set (id := bk_sample bk (Z.to_nat (p_cnt g))).
  destruct (counts_log_sample id g) as [S0 A0].
  assert (P0 : p_cnt (log (EvSample id) g) = p_cnt g) by reflexivity.
  assert (N0 : g_n_past (log (EvSample id) g) = g_n_past g) by reflexivity.
  revert S0 A0 P0 N0. generalize (log (EvSample id) g). intros g0 S0 A0 P0 N0.
  destruct (llama_vocab_is_eog bk id);
    [repeat split; try lia; discriminate|].
  destruct (bk_attr_control bk id);
    [repeat split; try lia; discriminate|].
  destruct (existsb (Z.eqb id) stop_ids);
    [repeat split; try lia; discriminate|].
  destruct (llama_token_to_piece bk id 511) as [n piece].
  assert (Hdec : forall g1,
             text_only g0 g1 ->
             match decode_step bk id g1 with
             | Continue g' =>
                 g_n_past g < n_ctx_ /\ p_cnt g' = p_cnt g + 1 /\
                 g_n_past g' = g_n_past g + 1 /\
                 n_sampled g' = n_sampled g + 1 /\
                 n_accepted g' = n_accepted g + 1
             | Leave ExitContextFull g' => g' = g /\ n_ctx_ <= g_n_past g
             | Leave why g' =>
                 g_n_past g < n_ctx_ /\ p_cnt g' = p_cnt g /\
                 n_sampled g' = n_sampled g + 1 /\
                 n_accepted g' = n_accepted g /\
                 g_n_past g' = g_n_past g
                               + match why with ExitDecodeError => 1 | _ => 0 end /\
                 why <> ExitBudget
             end).
  { intros g1 H1. destruct (counts_text_only g0 g1 H1) as [S1 A1].
    destruct H1 as (P1 & N1 & _).
    unfold decode_step. cbv zeta.
    destruct (bk_decode bk _); cbn [p_cnt g_n_past];
      unfold n_sampled, n_accepted, samples, accepted, log in *;
      cbn [trace] in *; rewrite !omap_app, !length_app; cbn;
      repeat split; try lia; discriminate. }
  destruct ((0 <? n) && (n <? 512)).
  - pose proof (text_only_text_step cb_name piece g0) as Ht.
    destruct (text_step cb_name piece g0) as [g1|why g1] eqn:Ets;
      cbn [state_of] in Ht.
    + apply Hdec, Ht.
    + destruct (counts_text_only g0 g1 Ht) as [S1 A1].
      destruct Ht as (P1 & N1 & _).
      assert (Hw : why = ExitMarker \/ why = ExitCallbackError)
        by (eapply text_step_leave; eassumption).
      destruct Hw as [-> | ->]; repeat split; try lia; discriminate.
  - apply Hdec, text_only_refl.
Qed.

End Counters.

(** *** [run_inference] returns *)

Lemma max_tokens_of_pos st : 0 < max_tokens_of st.
Proof. unfold max_tokens_of. destruct (0 <? n_predict st) eqn:E; lia. Qed.

Lemma run_inference_unfold bk st cb stop_ids :
  exists why g,
    gen_loop bk (n_ctx st) cb stop_ids (S (Z.to_nat (max_tokens_of st)))
      (max_tokens_of st) (gen_init st) = Some (why, g) /\
    run_inference bk st cb stop_ids = Some (run_result st cb why g).
Proof.
  destruct (gen_loop_returns bk (n_ctx st) cb stop_ids (max_tokens_of st)
              (S (Z.to_nat (max_tokens_of st))) (gen_init st))
    as [[why g] E].
  { cbn [gen_init p_cnt]. rewrite Z.sub_0_r. lia. }
  exists why, g. split; [exact E|].
  unfold run_inference. fold (gen_init st). rewrite E.
  destruct why; reflexivity.
Qed.

(** The counters when the loop is left, for a loop entered at position
    [n0] with nothing sampled yet. *)
Lemma gen_loop_counts bk n_ctx_ cb stop_ids max_tokens n0 fuel g0 why g :
  0 < max_tokens ->
  p_cnt g0 = 0 -> g_n_past g0 = n0 -> trace g0 = [] ->
  gen_loop bk n_ctx_ cb stop_ids fuel max_tokens g0 = Some (why, g) ->
  let s := Z.of_nat (length (samples (trace g))) in
  let a := Z.of_nat (length (accepted (trace g))) in
  p_cnt g = a /\
  g_n_past g = n0 + a + match why with ExitDecodeError => 1 | _ => 0 end /\
  within_budget max_tokens (n_ctx_ - n0) s a (g_n_past g - n0) /\
  (why = ExitDecodeError -> s = a + 1).
Proof.
  intros Hmax Hp Hn Ht Hloop.
  set (P := fun g : gen_state =>
              p_cnt g = Z.of_nat (length (accepted (trace g))) /\
              p_cnt g = Z.of_nat (length (samples (trace g))) /\
              g_n_past g = n0 + p_cnt g /\ p_cnt g <= max_tokens /\
              p_cnt g <= Z.max 0 (n_ctx_ - n0)).
  revert Hloop.
  apply (gen_loop_rule bk n_ctx_ cb stop_ids max_tokens P
           (fun why g =>
              let s := Z.of_nat (length (samples (trace g))) in
              let a := Z.of_nat (length (accepted (trace g))) in
              p_cnt g = a /\
              g_n_past g = n0 + a + match why with ExitDecodeError => 1 | _ => 0 end /\
              within_budget max_tokens (n_ctx_ - n0) s a (g_n_past g - n0) /\
              (why = ExitDecodeError -> s = a + 1))).
  - intros g1 g2 (A & S & N & B & C) Hlt Hs.
    pose proof (gen_step_counts bk n_ctx_ cb stop_ids g1) as H.
    rewrite Hs in H. destruct H as (H1 & H2 & H3 & H4 & H5).
    unfold P. repeat split; lia.
  - intros g1 why1 g2 (A & S & N & B & C) Hlt Hs.
    pose proof (gen_step_counts bk n_ctx_ cb stop_ids g1) as H.
    rewrite Hs in H. cbv zeta. unfold within_budget.
    destruct why1; try (destruct H as (H1 & H2 & H3 & H4 & H5 & H6));
      try (destruct H as [-> H1]);
      repeat split; try lia; try discriminate; try congruence.
  - intros g1 (A & S & N & B & C) Hge. cbv zeta. unfold within_budget.
    repeat split; try lia; discriminate.
  - unfold P. rewrite Hp, Hn, Ht. cbn. repeat split; lia.
Qed.

(** C10.  Every call of [run_inference] returns, and in the generation it
    performed at most [budget] tokens were sampled, where [budget] is
    [n_predict] when that is positive and 4096 otherwise (0, -1 or any
    other non-positive value); the number of tokens sampled is also at
    most the number of free context slots, all accepted tokens were
    sampled, and the position advanced by no more than the number of
    tokens sampled. *)
Theorem C10_token_budget bk st cb stop_ids :
  exists r,
    run_inference bk st cb stop_ids = Some r /\
    within_budget
      (if 0 <? n_predict st then n_predict st else 4096)
      (n_ctx st - n_past st)
      (Z.of_nat (length (samples (r_trace r))))
      (Z.of_nat (length (accepted (r_trace r))))
      (n_past (r_state r) - n_past st).
Proof.
  destruct (run_inference_unfold bk st cb stop_ids) as (why & g & Hloop & ->).
  eexists. split; [reflexivity|].
  apply (gen_loop_counts _ _ _ _ _ (n_past st)) in Hloop;
    [|apply max_tokens_of_pos|reflexivity..].
  destruct Hloop as (_ & _ & H & _). fold (max_tokens_of st).
  assert (E : forall g',
             text_only g g' ->
             within_budget (max_tokens_of st) (n_ctx st - n_past st)
               (Z.of_nat (length (samples (trace g'))))
               (Z.of_nat (length (accepted (trace g'))))
               (g_n_past g' - n_past st)).
  { intros g' Hg'. destruct (text_only_projections g g' Hg') as (-> & _ & ->).
    destruct Hg' as (_ & -> & _). exact H. }
  destruct why; cbn [run_result r_trace r_state]; try exact H;
    apply (E _ (text_only_final_flush cb g)).
Qed.

(** ** Position after a failed decode *)

Lemma clamp_options_position st :
  n_past (clamp_options st) = n_past st /\ n_ctx (clamp_options st) = n_ctx st.
Proof.
  assert (H1 : forall s, n_past (clamp_temp s) = n_past s
                         /\ n_ctx (clamp_temp s) = n_ctx s)
    by (intros s; unfold clamp_temp; cbv zeta;
        repeat (case_innermost_if; cbn); auto).
  assert (H2 : forall s, n_past (clamp_top_k s) = n_past s
                         /\ n_ctx (clamp_top_k s) = n_ctx s)
    by (intros s; unfold clamp_top_k; case_innermost_if; auto).
  assert (H3 : forall s, n_past (clamp_top_p s) = n_past s
                         /\ n_ctx (clamp_top_p s) = n_ctx s)
    by (intros s; unfold clamp_top_p; cbv zeta;
        repeat (case_innermost_if; cbn); auto).
  assert (H4 : forall s, n_past (clamp_min_p s) = n_past s
                         /\ n_ctx (clamp_min_p s) = n_ctx s)
    by (intros s; unfold clamp_min_p; cbv zeta;
        repeat (case_innermost_if; cbn); auto).
  assert (H5 : forall s, n_past (clamp_repeat_penalty s) = n_past s
                         /\ n_ctx (clamp_repeat_penalty s) = n_ctx s)
    by (intros s; unfold clamp_repeat_penalty; case_innermost_if; auto).
  assert (H6 : forall s, n_past (clamp_n_predict s) = n_past s
                         /\ n_ctx (clamp_n_predict s) = n_ctx s)
    by (intros s; unfold clamp_n_predict; case_innermost_if; auto).
  unfold clamp_options. cbv zeta.
  destruct (H6 (clamp_repeat_penalty
                  (clamp_min_p (clamp_top_p (clamp_top_k (clamp_temp st))))))
    as [-> ->].
  destruct (H5 (clamp_min_p (clamp_top_p (clamp_top_k (clamp_temp st)))))
    as [-> ->].
  destruct (H4 (clamp_top_p (clamp_top_k (clamp_temp st)))) as [-> ->].
  destruct (H3 (clamp_top_k (clamp_temp st))) as [-> ->].
  destruct (H2 (clamp_temp st)) as [-> ->].
  apply H1.
Qed.

(** [apply_options] touches neither the position nor the capacity. *)
Lemma apply_options_position bk o st :
  n_past (apply_options bk o st) = n_past st /\
  n_ctx (apply_options bk o st) = n_ctx st.
Proof.
  unfold apply_options. destruct o as [o|]; [|split; reflexivity].
  destruct (clamp_options_position (read_options (Some o) st)) as [E1 E2].
  revert E1 E2. generalize (clamp_options (read_options (Some o) st)).
  intros s E1 E2. cbv zeta. cbn [set_sampler n_past n_ctx].
  rewrite E1, E2. split; reflexivity.
Qed.

Lemma read_option_position bk o l st :
  n_past (snd (read_option bk o (l, st))) = n_past st /\
  n_ctx (snd (read_option bk o (l, st))) = n_ctx st.
Proof.
  destruct o as [cb|obj|[b|]|s|[m|]|[sel|]|]; cbn [read_option snd];
    try (split; reflexivity).
  apply apply_options_position.
Qed.

Lemma read_options_loop_position bk opts st :
  n_past (snd (read_options_loop bk opts st)) = n_past st /\
  n_ctx (snd (read_options_loop bk opts st)) = n_ctx st.
Proof.
  unfold read_options_loop. generalize no_locals. revert st.
  induction opts as [|o opts IH]; intros st l; [split; reflexivity|].
  cbn [fold_left].
  destruct (read_option_position bk o l st) as [E1 E2].
  destruct (read_option bk o (l, st)) as [l' st']. cbn [snd] in E1, E2.
  destruct (IH st' l') as [-> ->]. auto.
Qed.

Lemma fill_prompt_batch_spec tokens i n_tok batch n_past0 :
  length (fst (fill_prompt_batch tokens i n_tok batch n_past0))
  = (length batch + length tokens)%nat /\
  snd (fill_prompt_batch tokens i n_tok batch n_past0)
  = n_past0 + Z.of_nat (length tokens).
Proof.
  revert i batch n_past0.
  induction tokens as [|t tokens IH]; intros i batch n_past0; cbn.
  - split; lia.
  - destruct (IH (i + 1) (fill_batch batch t n_past0 (i =? n_tok - 1))
                (n_past0 + 1)) as [-> ->].
    unfold fill_batch. rewrite length_app. cbn. split; lia.
Qed.

Lemma run_result_exit st cb why g : r_exit (run_result st cb why g) = Some why.
Proof. destruct why; reflexivity. Qed.

(** C4 (as amended).  When the backend rejects the prompt batch, the call
    reports "Decode failed" and the position has been advanced by the
    number of tokens of the rejected batch; when it rejects the batch of a
    generated token, the call reports "Decode failed during generation"
    and the position has been advanced by the tokens accepted before and
    by the rejected token.  The position is not set back. *)
Theorem C4_position_counts_rejected_batch :
  (forall bk st prompt opts r tr batch,
      Llama_Generate_Cmd bk st prompt opts = Some r ->
      r_exit r = None -> r_trace r = tr ++ [EvDecode batch false] ->
      r_code r = TCL_ERROR (ErrMessage "Decode failed") /\
      n_past (r_state r)
      = (if l_reset (fst (read_options_loop bk opts st)) then 0 else n_past st)
        + Z.of_nat (length batch))
  /\
  (forall bk st cb stop_ids r,
      run_inference bk st cb stop_ids = Some r ->
      r_exit r = Some ExitDecodeError ->
      r_code r = TCL_ERROR (ErrMessage "Decode failed during generation") /\
      n_past (r_state r)
      = n_past st + Z.of_nat (length (accepted (r_trace r))) + 1).
Proof.
  split.
  - intros bk st prompt opts r tr batch. unfold Llama_Generate_Cmd.
    destruct (read_options_loop_position bk opts st) as [Ep _].
    destruct (read_options_loop bk opts st) as [l st1]. cbn [fst snd] in *.
    set (st2 := if l_reset l then set_n_past 0 st1 else st1).
    assert (E2 : n_past st2 = if l_reset l then 0 else n_past st)
      by (unfold st2; destruct (l_reset l); [reflexivity|exact Ep]).
    destruct (llama_tokenize bk _ _ _) as [n_tok tokens].
    destruct (n_tok <? 0).
    { intros [= <-] _. cbn [r_trace]. intros H.
      apply (f_equal (@last event)) in H. rewrite last_snoc in H. discriminate. }
    destruct (n_ctx st2 <=? n_past st2 + n_tok).
    { intros [= <-] _. cbn [r_trace]. intros H.
      apply (f_equal (@last event)) in H. rewrite last_snoc in H. discriminate. }
    destruct (fill_prompt_batch_spec tokens 0 n_tok [] (n_past st2)) as [Eb En].
    destruct (fill_prompt_batch tokens 0 n_tok [] (n_past st2)) as [b n'].
    cbn [fst snd] in Eb, En.
    destruct (bk_decode bk b).
    + destruct (run_inference_unfold bk (set_n_eval n_tok (set_n_past n' st2))
                  (l_cb_name l) (l_stop_ids l)) as (why & g & _ & ->).
      cbn [option_map]. intros [= <-]. cbn [prepend_trace r_exit].
      rewrite run_result_exit. discriminate.
    + intros [= <-] _. cbn [r_trace r_code r_state]. intros H.
      apply (f_equal (@last event)) in H.
      rewrite !last_snoc in H. injection H as <-.
      split; [reflexivity|]. cbn [set_n_past n_past].
      rewrite En, Eb, <- E2. cbn. reflexivity.
  - intros bk st cb stop_ids r Hr He.
    destruct (run_inference_unfold bk st cb stop_ids) as (why & g & Hloop & E).
    rewrite E in Hr. injection Hr as <-.
    rewrite run_result_exit in He. injection He as ->.
    apply (gen_loop_counts _ _ _ _ _ (n_past st)) in Hloop;
      [|apply max_tokens_of_pos|reflexivity..].
    destruct Hloop as (_ & Hn & _). cbn [run_result r_code r_state r_trace].
    split; [reflexivity|]. exact Hn.
Qed.

(** C4, the claim as stated fails: a fresh session is at position 0; when
    the decoder rejects the two-token prompt batch the call fails with
    "Decode failed" and the position is 2, and when it rejects the first
    generated token (submitted at position 2) the call fails with "Decode
    failed during generation" and the position is 3. *)
Lemma C4_counterexample :
  (exists r,
      Llama_Generate_Cmd bk_reject_all (fresh_session bk_reject_all)
        (lit "hi") [] = Some r /\
      r_code r = TCL_ERROR (ErrMessage "Decode failed") /\
      n_past (fresh_session bk_reject_all) = 0 /\
      n_past (r_state r) = 2) /\
  (exists r,
      run_inference bk_reject_from_2
        (set_n_past 2 (fresh_session bk_reject_from_2)) None [] = Some r /\
      r_code r = TCL_ERROR (ErrMessage "Decode failed during generation") /\
      accepted (r_trace r) = [] /\
      n_past (r_state r) = 3).
Proof.
  split; eexists; (split; [vm_compute; reflexivity|]);
    repeat split; reflexivity.
Qed.

(** The amended statement at the inputs of the counterexample. *)
Lemma C4_witness :
  (exists r,
      Llama_Generate_Cmd bk_reject_all (fresh_session bk_reject_all)
        (lit "hi") [] = Some r /\
      r_code r = TCL_ERROR (ErrMessage "Decode failed") /\
      n_past (r_state r) = 0 + 2) /\
  (exists r,
      run_inference bk_reject_from_2
        (set_n_past 2 (fresh_session bk_reject_from_2)) None [] = Some r /\
      r_code r = TCL_ERROR (ErrMessage "Decode failed during generation") /\
      n_past (r_state r) = 2 + 0 + 1).
Proof.
  destruct C4_position_counts_rejected_batch as [Hingest Hgen]. split.
  - eexists. split; [vm_compute; reflexivity|].
    eapply (Hingest bk_reject_all (fresh_session bk_reject_all) (lit "hi") []
              _ [_] [_; _]); vm_compute; reflexivity.
  - eexists. split; [vm_compute; reflexivity|].
    eapply (Hgen bk_reject_from_2
              (set_n_past 2 (fresh_session bk_reject_from_2)) None []);
      vm_compute; reflexivity.
Defined.


Example out_of_range_stored :
  clamped_fields
    (apply_options bk_reject_all (Some out_of_range_options)
       (fresh_session bk_reject_all))
  = (f32_2, 1, f32_0_95, f32_0_05, f32_1, -1).
Proof. vm_compute. reflexivity. Qed.

(** ** Callback failures *)

(** C6, evaluation at the failing inputs.  (1) The backend produces one
    token of 21 letters and then an end-of-generation token; the callback
    fails on its second evaluation.  The first fragment is delivered by the
    margin flush, the second by the final flush, whose failure is not
    inspected: the call returns [TCL_OK] with the whole text.  (2) The
    callback fails on the fragment delivered by the marker emit: the call
    returns [TCL_OK] as well.  (3) Only a failure at the margin flush
    aborts the call. *)
Lemma C6_callback_failure_not_surfaced :
  (exists r,
      run_inference bk_21_letters (fresh_session bk_21_letters)
        (Some cb_fails_on_second) [] = Some r /\
      delivered (r_trace r)
      = [(lit "a", true); (lit "aaaaaaaaaaaaaaaaaaaa", false)] /\
      r_code r = TCL_OK (lit "aaaaaaaaaaaaaaaaaaaaa")) /\
  (exists r,
      run_inference bk_hello_marker (fresh_session bk_hello_marker)
        (Some cb_fails) [] = Some r /\
      delivered (r_trace r) = [(lit "Hello", false)] /\
      r_code r = TCL_OK (lit "Hello")) /\
  (exists r,
      run_inference
        (script_backend [lit "aaaaaaaaaaaaaaaaaaaaa"; lit "b"; lit "c"] 4096)
        (fresh_session bk_21_letters) (Some cb_fails_on_second) [] = Some r /\
      delivered (r_trace r) = [(lit "a", true); (lit "a", false)] /\
      samples (r_trace r) = [0; 1] /\
      r_code r = TCL_ERROR ErrCallback).
Proof.
  repeat split; eexists; (split; [vm_compute; reflexivity|]);
    repeat split; reflexivity.
Qed.

(** ** The marker scan *)

(** C2, evaluation at the failing inputs.  (1) The buffer holds
    ["a<|im_end|>b<end_of_turn>"]: the marker ["<|im_end|>"] occurs at
    position 1, but the scan stops at the first entry of [tags] that
    occurs, ["<end_of_turn>"] at position 12, and the fragment emitted
    contains the earlier marker.  (2) The buffer ends with
    ["<|endoftext|>"]: the marker emit delivers ["Hi"], and the final
    flush, whose partial-tag list has no entry for this marker, delivers
    the whole buffer again, marker included. *)
Lemma C2_marker_bytes_emitted :
  (find (lit "a<|im_end|>b<end_of_turn>") (lit "<|im_end|>") = Some 1%nat /\
   first_tag_pos (lit "a<|im_end|>b<end_of_turn>") tags = Some 12%nat /\
   exists r,
     run_inference bk_two_markers (fresh_session bk_two_markers)
       (Some cb_ok) [] = Some r /\
     r_exit r = Some ExitMarker /\
     delivered (r_trace r) = [(lit "a<|im_end|>b", true)] /\
     r_code r = TCL_OK (lit "a<|im_end|>b")) /\
  (exists r,
      run_inference bk_endoftext (fresh_session bk_endoftext)
        (Some cb_ok) [] = Some r /\
      r_exit r = Some ExitMarker /\
      delivered (r_trace r)
      = [(lit "Hi", true); (lit "Hi<|endoftext|>", true)] /\
      r_code r = TCL_OK (lit "HiHi<|endoftext|>")).
Proof.
  split; [split; [reflexivity|split; [reflexivity|]]|];
    eexists; (split; [vm_compute; reflexivity|]); repeat split; reflexivity.
Qed.

(** ** Substring search *)

Lemma starts_with_spec needle hay :
  starts_with needle hay = true <-> exists rest, hay = needle ++ rest.
Proof.
  revert hay. induction needle as [|a needle IH]; intros hay; simpl.
  - split; eauto.
  - destruct hay as [|b hay].
    + split; [discriminate|]. intros [rest H]. discriminate.
    + rewrite andb_true_iff, IH. split.
      * intros [Hab [rest ->]]. apply Byte.byte_dec_bl in Hab. subst. eauto.
      * intros [rest [= -> ->]]. split; [apply Byte.byte_dec_lb; reflexivity|eauto].
Qed.

Lemma find_Some hay needle pos :
  find hay needle = Some pos ->
  exists a b, hay = a ++ needle ++ b /\ length a = pos.
Proof.
  revert pos. induction hay as [|c hay IH]; intros pos; simpl.
  - destruct (starts_with needle []) eqn:E; [|discriminate].
    intros [= <-]. apply starts_with_spec in E. destruct E as [rest E].
    exists [], rest. auto.
  - destruct (starts_with needle (c :: hay)) eqn:E.
    + intros [= <-]. apply starts_with_spec in E. destruct E as [rest E].
      exists [], rest. auto.
    + destruct (find hay needle) as [p|]; [|discriminate]. intros [= <-].
      destruct (IH p eq_refl) as (a & b & -> & <-). exists (c :: a), b. auto.
Qed.

Lemma find_None hay needle a b :
  find hay needle = None -> hay <> a ++ needle ++ b.
Proof.
  revert a. induction hay as [|c hay IH]; intros a; simpl.
  - destruct (starts_with needle []) eqn:E; [discriminate|]. intros _ H.
    destruct a; [|discriminate]. simpl in H.
    assert (starts_with needle [] = true) by (apply starts_with_spec; eauto).
    congruence.
  - destruct (starts_with needle (c :: hay)) eqn:E; [discriminate|].
    destruct (find hay needle) eqn:F; [discriminate|]. intros _ H.
    destruct a as [|a0 a].
    + simpl in H.
      assert (starts_with needle (c :: hay) = true)
        by (apply starts_with_spec; eauto).
      congruence.
    + injection H as -> H. exact (IH a eq_refl H).
Qed.

(** [contains] decides the occurrence of a substring. *)
Lemma contains_spec hay needle :
  contains hay needle = true <-> exists a b, hay = a ++ needle ++ b.
Proof.
  unfold contains. destruct (find hay needle) as [pos|] eqn:F.
  - split; [|reflexivity]. intros _.
    destruct (find_Some _ _ _ F) as (a & b & H & _). eauto.
  - split; [discriminate|]. intros (a & b & H).
    exfalso. exact (find_None _ _ a b F H).
Qed.

(** A text that contains an extension of [stem] contains [stem]. *)
Lemma contains_stem hay stem t :
  starts_with stem t = true -> contains hay t = true ->
  contains hay stem = true.
Proof.
  intros Hs Ht. apply starts_with_spec in Hs. destruct Hs as [rest ->].
  apply contains_spec in Ht. destruct Ht as (a & b & ->).
  apply contains_spec. exists a, (rest ++ b). rewrite <- !app_assoc. reflexivity.
Qed.

(** ** The final flush *)

Lemma has_partial_tag_spec tb :
  has_partial_tag tb = true <->
  exists stem, In stem partial_tags /\ contains tb stem = true.
Proof. unfold has_partial_tag. apply existsb_exists. Qed.

(** C7 (as amended).  When the loop was left with a non-empty streaming
    buffer: if the buffer contains a text that starts with one of the
    stems ["<end"], ["<start"], ["<|im"], ["<|eot"] (in particular one of
    these stems itself, or a marker ["<end_of_turn>"], ["<start_of_turn>"],
    ["<|im_end|>"], ["<|eot_id|>"] truncated after its stem), the final
    flush drops the buffer and does nothing; if the buffer contains none
    of the four stems and not ["<|en"] either, the whole buffer is appended
    to the result and handed to the callback. *)
Theorem C7_final_flush cb (g : gen_state) :
  text_buffer g <> [] ->
  (forall stem t,
      In stem partial_tags -> starts_with stem t = true ->
      contains (text_buffer g) t = true ->
      final_flush cb g = g) /\
  (contains (text_buffer g) (lit "<end") = false ->
   contains (text_buffer g) (lit "<start") = false ->
   contains (text_buffer g) (lit "<|im") = false ->
   contains (text_buffer g) (lit "<|eot") = false ->
   contains (text_buffer g) (lit "<|en") = false ->
   resp (final_flush cb g) = resp g ++ text_buffer g /\
   trace (final_flush cb g) = trace g ++ final_flush_events cb g).
Proof.
  intros Hne. unfold final_flush.
  destruct (text_buffer g) as [|b tb] eqn:Etb; [congruence|]. split.
  - intros stem t Hin Hs Ht.
    assert (H : has_partial_tag (b :: tb) = true).
    { apply has_partial_tag_spec. exists stem. split; [exact Hin|].
      eapply contains_stem; eassumption. }
    rewrite H. reflexivity.
  - intros H1 H2 H3 H4 _.
    assert (H : has_partial_tag (b :: tb) = false).
    { unfold has_partial_tag, partial_tags. cbn [existsb].
      rewrite H1, H2, H3, H4. reflexivity. }
    rewrite H. unfold final_flush_events. rewrite ?Etb.
    destruct cb as [cb|]; cbn -[c_str]; rewrite <- ?app_assoc, ?Etb;
      split; reflexivity.
Qed.

(** C7, the claim as stated fails: the buffer ["a<en"] contains ["<en"], a
    proper prefix of the marker ["<end_of_turn>"], and the loop was left
    at an end-of-generation token, yet the buffer is delivered. *)
Lemma C7_counterexample :
  starts_with (lit "<en") (lit "<end_of_turn>") = true /\
  contains (lit "a<en") (lit "<en") = true /\
  exists r,
    run_inference (script_backend [lit "a<en"] 4096)
      (fresh_session (script_backend [lit "a<en"] 4096)) (Some cb_ok) []
    = Some r /\
    r_exit r = Some ExitEog /\
    delivered (r_trace r) = [(lit "a<en", true)] /\
    r_code r = TCL_OK (lit "a<en").
Proof.
  split; [reflexivity|]. split; [reflexivity|].
  eexists. split; [vm_compute; reflexivity|]. repeat split; reflexivity.
Qed.

(** C7 at a buffer holding a truncated ["<end_of_turn>"] (dropped) and at
    a buffer holding plain text (delivered). *)
Lemma C7_witness :
  final_flush (Some cb_ok) (buffer_state (lit "ab<end_of_tu"))
  = buffer_state (lit "ab<end_of_tu") /\
  resp (final_flush (Some cb_ok) (buffer_state (lit "1 < 2"))) = lit "1 < 2" /\
  trace (final_flush (Some cb_ok) (buffer_state (lit "1 < 2")))
  = [EvAppend FinalFlush (lit "1 < 2");
     EvCallback FinalFlush (lit "1 < 2") true].
Proof.
  split.
  - refine (proj1 (C7_final_flush (Some cb_ok)
                     (buffer_state (lit "ab<end_of_tu")) _)
              (lit "<end") (lit "<end_of_tu") _ _ _);
      [discriminate|left; reflexivity|reflexivity|reflexivity].
  - refine (proj2 (C7_final_flush (Some cb_ok)
                     (buffer_state (lit "1 < 2")) _) _ _ _ _ _);
      [discriminate|reflexivity..].
Defined.

(** ** Raw-prompt ingestion *)

Lemma fill_prompt_batch_entries tokens i n_tok batch n_past0 :
  map be_token (fst (fill_prompt_batch tokens i n_tok batch n_past0))
  = map be_token batch ++ tokens /\
  map be_pos (fst (fill_prompt_batch tokens i n_tok batch n_past0))
  = map be_pos batch
    ++ map (fun k => n_past0 + Z.of_nat k) (seq 0 (length tokens)).
Proof.
  revert i batch n_past0.
  induction tokens as [|t tokens IH]; intros i batch n_past0; cbn.
  - rewrite !app_nil_r. auto.
  - destruct (IH (i + 1) (fill_batch batch t n_past0 (i =? n_tok - 1))
                (n_past0 + 1)) as [-> ->].
    unfold fill_batch. rewrite !map_app, <- !app_assoc. cbn.
    split; [reflexivity|]. f_equal.
    change (Z.of_nat 0) with 0. rewrite Z.add_0_r. f_equal.
    rewrite <- seq_shift, map_map. apply map_ext. intros k. lia.
Qed.

Lemma llama_tokenize_ok bk text n_max add_special n_tok tokens :
  llama_tokenize bk text n_max add_special = (n_tok, tokens) ->
  0 <= n_tok -> bk_tokenize bk text add_special = Some tokens.
Proof.
  unfold llama_tokenize. destruct (bk_tokenize bk text add_special) as [toks|].
  - destruct (length toks <=? n_max)%nat; intros [= <- <-]; [reflexivity|].
    destruct toks; [reflexivity|]. cbn [length]. lia.
  - intros [= <- <-]. lia.
Qed.

(** C9.  Every raw-prompt generation call returns, and the first thing it
    does is to tokenize a text.  With [pos] the session's position when
    the prompt is built (0 after a [-reset], the session's position
    otherwise): when [pos] is 0 and a non-empty system message was
    supplied, that text is the system message, two newlines and the
    prompt; when [pos] is not 0 (in particular greater than 0), it is the
    prompt alone, whatever system message was supplied.  Whenever a batch
    is then submitted to the decoder, its tokens are exactly those of that
    text, at the positions from [pos] on. *)
Theorem C9_raw_prompt_text bk st prompt opts :
  exists r text add_special rest,
    Llama_Generate_Cmd bk st prompt opts = Some r /\
    r_trace r = EvTokenize text add_special :: rest /\
    let l := fst (read_options_loop bk opts st) in
    let pos := if l_reset l then 0 else n_past st in
    (forall s, pos = 0 -> l_system_msg l = Some s -> s <> [] ->
               text = s ++ [x0a; x0a] ++ prompt) /\
    (pos <> 0 -> text = prompt) /\
    (forall batch ok rest',
        rest = EvDecode batch ok :: rest' ->
        bk_tokenize bk text add_special = Some (map be_token batch) /\
        map be_pos batch
        = map (fun k => pos + Z.of_nat k) (seq 0 (length batch))).
Proof.
  unfold Llama_Generate_Cmd.
  destruct (read_options_loop_position bk opts st) as [Ep _].
  destruct (read_options_loop bk opts st) as [l st1]. cbn [fst snd] in *.
  set (st2 := if l_reset l then set_n_past 0 st1 else st1).
  assert (E2 : n_past st2 = if l_reset l then 0 else n_past st)
    by (unfold st2; destruct (l_reset l); [reflexivity|exact Ep]).
  rewrite <- E2. generalize (n_past st2) as pos. intros pos.
  assert (Htext :
    (forall s, pos = 0 -> l_system_msg l = Some s -> s <> [] ->
               build_full_prompt (l_system_msg l) prompt pos
               = s ++ [x0a; x0a] ++ prompt) /\
    (pos <> 0 -> build_full_prompt (l_system_msg l) prompt pos = prompt)).
  { unfold build_full_prompt. split.
    - intros s -> -> Hs. destruct s; [congruence|]. reflexivity.
    - intros Hpos. destruct (l_system_msg l) as [s|]; [|reflexivity].
      destruct (Z.eqb_neq pos 0) as [_ H]. rewrite (H Hpos), andb_false_r.
      reflexivity. }
  destruct Htext as [Ht1 Ht2]. revert Ht1 Ht2.
  generalize (build_full_prompt (l_system_msg l) prompt pos) as text.
  intros text Ht1 Ht2.
  destruct (llama_tokenize bk text (length text + 256) (pos =? 0))
    as [n_tok tokens] eqn:Etok.
  destruct (n_tok <? 0) eqn:Hneg.
  { do 4 eexists. split; [reflexivity|]. split; [reflexivity|]. cbv zeta.
    split; [exact Ht1|]. split; [exact Ht2|]. discriminate. }
  apply Z.ltb_ge in Hneg.
  destruct (n_ctx st2 <=? pos + n_tok).
  { do 4 eexists. split; [reflexivity|]. split; [reflexivity|]. cbv zeta.
    split; [exact Ht1|]. split; [exact Ht2|]. discriminate. }
  pose proof (llama_tokenize_ok _ _ _ _ _ _ Etok Hneg) as Hbt.
  destruct (fill_prompt_batch_entries tokens 0 n_tok [] pos) as [Eb1 Eb2].
  destruct (fill_prompt_batch_spec tokens 0 n_tok [] pos) as [Eb3 _].
  destruct (fill_prompt_batch tokens 0 n_tok [] pos) as [b n'].
  cbn [fst snd app map length Nat.add] in Eb1, Eb2, Eb3.
  destruct (bk_decode bk b).
  - destruct (run_inference_unfold bk (set_n_eval n_tok (set_n_past n' st2))
                (l_cb_name l) (l_stop_ids l)) as (why & g & _ & ->).
    cbn [option_map]. do 4 eexists. split; [reflexivity|].
    split; [reflexivity|]. cbv zeta.
    split; [exact Ht1|]. split; [exact Ht2|].
    intros batch ok rest' [= <- <- <-]. rewrite Eb1, Eb2, Eb3. auto.
  - do 4 eexists. split; [reflexivity|]. split; [reflexivity|]. cbv zeta.
    split; [exact Ht1|]. split; [exact Ht2|].
    intros batch ok rest' [= <- <- <-]. rewrite Eb1, Eb2, Eb3. auto.
Qed.

(** C9 on a fresh session (position 0) and on a session at position 7,
    both called with the system message ["sys"] and the prompt ["hi"]. *)
Lemma C9_witness :
  (exists r a rest,
      Llama_Generate_Cmd bk_reject_all (fresh_session bk_reject_all)
        (lit "hi") [opt_system (lit "sys")] = Some r /\
      r_trace r = EvTokenize (lit "sys" ++ [x0a; x0a] ++ lit "hi") a :: rest) /\
  (exists r a rest,
      Llama_Generate_Cmd bk_reject_all
        (set_n_past 7 (fresh_session bk_reject_all))
        (lit "hi") [opt_system (lit "sys")] = Some r /\
      r_trace r = EvTokenize (lit "hi") a :: rest).
Proof.
  split.
  - destruct (C9_raw_prompt_text bk_reject_all (fresh_session bk_reject_all)
                (lit "hi") [opt_system (lit "sys")])
      as (r & text & a & rest & E & Et & H1 & _ & _).
    exists r, a, rest. split; [exact E|].
    rewrite Et, (H1 (lit "sys")); [reflexivity|reflexivity|reflexivity|discriminate].
  - destruct (C9_raw_prompt_text bk_reject_all
                (set_n_past 7 (fresh_session bk_reject_all))
                (lit "hi") [opt_system (lit "sys")])
      as (r & text & a & rest & E & Et & _ & H2 & _).
    exists r, a, rest. split; [exact E|].
    rewrite Et, H2; [reflexivity|discriminate].
Defined.

(** ** A marker fragmented across tokens *)

Section MarkerRun.

Variable bk : Backend.
Variable n_ctx_ : Z.
Variable cb_name : option callback.
Variable stop_ids : list llama_token.

(** The text path on a short buffer without marker: the piece is
    buffered and nothing else happens. *)
Lemma text_step_short piece g :
  (length (text_buffer g ++ piece) <= 20)%nat ->
  found_tag (text_buffer g ++ piece) = false ->
  text_step cb_name piece g
  = Continue (set_text_buffer (text_buffer g ++ piece)
                (log (EvBuffer piece) g)).
Proof.
  intros Hlen Htag. unfold text_step. cbv zeta.
  assert (E1 : (BUFFER_SIZE <? length (text_buffer g ++ piece))%nat = false)
    by (apply Nat.ltb_ge; unfold BUFFER_SIZE; lia).
  rewrite E1, Htag.
  assert (E2 : (20 <? length (text_buffer g ++ piece))%nat = false)
    by (apply Nat.ltb_ge; lia).
  rewrite E2. reflexivity.
Qed.

(** The text path when the piece completes a marker at the very start
    of the buffer: the loop is left and nothing is emitted. *)
Lemma text_step_marker_at_start piece g :
  (length (text_buffer g ++ piece) <= BUFFER_SIZE)%nat ->
  found_tag (text_buffer g ++ piece) = true ->
  first_tag_pos (text_buffer g ++ piece) tags = Some 0%nat ->
  text_step cb_name piece g
  = Leave ExitMarker (set_text_buffer (text_buffer g ++ piece)
                        (log (EvBuffer piece) g)).
Proof.
  intros Hlen Htag Hpos. unfold text_step. cbv zeta.
  assert (E1 : (BUFFER_SIZE <? length (text_buffer g ++ piece))%nat = false)
    by (apply Nat.ltb_ge; lia).
  rewrite E1, Htag, Hpos. reflexivity.
Qed.

(** A pass that samples an ordinary token with a piece of 1 to 511
    bytes runs the text path and then the decode. *)
Lemma gen_step_ordinary g piece :
  g_n_past g < n_ctx_ ->
  let id := bk_sample bk (Z.to_nat (p_cnt g)) in
  bk_piece bk id = piece ->
  llama_vocab_is_eog bk id = false ->
  bk_attr_control bk id = false ->
  existsb (Z.eqb id) stop_ids = false ->
  (0 < length piece < 512)%nat ->
  gen_step bk n_ctx_ cb_name stop_ids g
  = match text_step cb_name piece (log (EvSample id) g) with
    | Continue g1 => decode_step bk id g1
    | Leave why g1 => Leave why g1
    end.
Proof.
  intros Hctx id Hp He Hc Hs Hlen. unfold gen_step.
  assert (E : (n_ctx_ <=? g_n_past g) = false) by (apply Z.leb_gt; lia).
  rewrite E. cbv zeta. fold id. rewrite He, Hc, Hs.
  unfold llama_token_to_piece. rewrite Hp.
  assert (E1 : (length piece <=? 511)%nat = true) by (apply Nat.leb_le; lia).
  rewrite E1.
  assert (E2 : (0 <? Z.of_nat (length piece))
               && (Z.of_nat (length piece) <? 512) = true).
  { apply andb_true_iff. split; apply Z.ltb_lt; lia. }
  rewrite E2. reflexivity.
Qed.

End MarkerRun.

(** No marker occurs in a proper prefix of ["<end_of_turn>"]. *)
Lemma proper_prefix_no_tag tb x :
  tb ++ x = end_of_turn -> x <> [] ->
  found_tag tb = false /\ (length tb <= 12)%nat.
Proof.
  intros H Hx.
  assert (L : (length tb + length x = 13)%nat)
    by (rewrite <- length_app, H; reflexivity).
  assert (Lx : (0 < length x)%nat) by (destruct x; [congruence|cbn; lia]).
  split; [|lia].
  assert (Etb : tb = take (length tb) end_of_turn)
    by (rewrite <- H, take_app_length; reflexivity).
  assert (All : forallb (fun n => negb (found_tag (take n end_of_turn)))
                  (seq 0 13) = true) by (vm_compute; reflexivity).
  rewrite forallb_forall in All.
  specialize (All (length tb)). rewrite <- Etb in All.
  apply negb_true_iff, All, in_seq. lia.
Qed.

Lemma nonempty_length (p : bytes) : p <> [] -> (0 < length p)%nat.
Proof. destruct p; [congruence|cbn; lia]. Qed.

(** The loop on tokens that spell the rest of the marker. *)
Lemma marker_loop bk n_ctx_ cb stop_ids max_tokens n0 :
  forall rest i fuel g,
    rest <> [] -> Forall (fun p => p <> []) rest ->
    text_buffer g ++ concat rest = end_of_turn ->
    p_cnt g = Z.of_nat i -> g_n_past g = n0 + Z.of_nat i ->
    (forall k piece,
        rest !! k = Some piece ->
        bk_piece bk (bk_sample bk (i + k)) = piece /\
        llama_vocab_is_eog bk (bk_sample bk (i + k)) = false /\
        bk_attr_control bk (bk_sample bk (i + k)) = false /\
        existsb (Z.eqb (bk_sample bk (i + k))) stop_ids = false) ->
    (forall k, (k + 1 < length rest)%nat ->
        bk_decode bk (fill_batch [] (bk_sample bk (i + k))
                        (n0 + Z.of_nat (i + k)) true) = true) ->
    (length rest <= fuel)%nat ->
    Z.of_nat (i + length rest) <= max_tokens ->
    n0 + Z.of_nat (i + length rest) <= n_ctx_ ->
    exists g',
      gen_loop bk n_ctx_ cb stop_ids fuel max_tokens g = Some (ExitMarker, g') /\
      text_buffer g' = end_of_turn /\ resp g' = resp g /\
      p_cnt g' = Z.of_nat (i + length rest) - 1 /\
      g_n_past g' = n0 + Z.of_nat (i + length rest) - 1 /\
      trace g' = trace g ++ marker_run_events bk n0 i rest.
Proof.
  induction rest as [|p rest IH]; intros i fuel g Hne Hall Htext Hp Hn Hsp Hdec
    Hfuel Hmax Hctx; [congruence|].
  apply Forall_cons in Hall. destruct Hall as [Hpne Hall].
  cbn [length] in Hfuel, Hmax, Hctx.
  destruct fuel as [|fuel]; [lia|]. cbn [gen_loop].
  assert (Hlt : (p_cnt g <? max_tokens) = true) by (apply Z.ltb_lt; lia).
  rewrite Hlt.
  destruct (Hsp 0%nat p eq_refl) as (Ep & Ee & Ec & Es).
  rewrite Nat.add_0_r in Ep, Ee, Ec, Es.
  assert (Hid : Z.to_nat (p_cnt g) = i) by (rewrite Hp; apply Nat2Z.id).
  assert (Hplen : (0 < length p < 512)%nat).
  { split; [apply nonempty_length, Hpne|].
    apply (f_equal (@length byte)) in Htext. cbn [concat] in Htext.
    rewrite !length_app in Htext. change (length end_of_turn) with 13%nat in Htext.
    lia. }
  rewrite (gen_step_ordinary bk n_ctx_ cb stop_ids g p);
    rewrite ?Hid; try assumption; [|lia].
  cbn [concat] in Htext. rewrite app_assoc in Htext.
  destruct rest as [|q rest].
  - (* the piece completes the marker *)
    cbn [concat] in Htext. rewrite app_nil_r in Htext.
    rewrite text_step_marker_at_start; cbn [log text_buffer]; rewrite ?Htext;
      [|unfold BUFFER_SIZE; cbn; lia|reflexivity|reflexivity].
    eexists. split; [reflexivity|].
    cbn [set_text_buffer log text_buffer resp p_cnt g_n_past trace length
           marker_run_events].
    rewrite <- app_assoc. repeat split; try reflexivity; lia.
  - (* more pieces follow *)
    assert (Hq : concat (q :: rest) <> []).
    { apply Forall_cons in Hall. destruct Hall as [Hq _]. cbn [concat].
      destruct q; [congruence|discriminate]. }
    destruct (proper_prefix_no_tag _ _ Htext Hq) as [Hnt Hlen].
    rewrite text_step_short; cbn [log text_buffer]; [|lia|exact Hnt].
    unfold decode_step. cbv zeta.
    cbn [set_text_buffer log text_buffer resp p_cnt g_n_past trace cb_calls].
    pose proof (Hdec 0%nat ltac:(cbn; lia)) as Hd.
    rewrite Nat.add_0_r in Hd. rewrite Hn, Hd.
    match goal with
    | |- exists g', gen_loop _ _ _ _ _ _ ?g2 = _ /\ _ => set (G2 := g2)
    end.
    destruct (IH (S i) fuel G2) as (g' & Hl & Ht & Hr & Hpc & Hnp & Htr).
    + discriminate.
    + exact Hall.
    + exact Htext.
    + cbn [G2 p_cnt]. lia.
    + cbn [G2 g_n_past]. lia.
    + intros k piece Hk. rewrite Nat.add_succ_l, <- Nat.add_succ_r.
      apply Hsp. exact Hk.
    + intros k Hk. rewrite Nat.add_succ_l, <- Nat.add_succ_r.
      apply Hdec. cbn [length] in *. lia.
    + cbn [length] in *. lia.
    + cbn [length] in *. lia.
    + cbn [length] in *. lia.
    + exists g'. split; [exact Hl|]. split; [exact Ht|].
      cbn [G2 resp trace] in Hr, Htr. split; [exact Hr|].
      cbn [length] in *. split; [lia|]. split; [lia|].
      rewrite Htr. cbn [marker_run_events]. rewrite <- !app_assoc. reflexivity.
Qed.

Lemma marker_run_no_fragments bk n0 rest i :
  fragments (marker_run_events bk n0 i rest) = [] /\
  samples (marker_run_events bk n0 i rest)
  = map (bk_sample bk) (seq i (length rest)) /\
  length (accepted (marker_run_events bk n0 i rest)) = (length rest - 1)%nat.
Proof.
  revert i. induction rest as [|p rest IH]; intros i; [repeat split|].
  destruct rest as [|q rest]; [repeat split|].
  destruct (IH (S i)) as (HF & HS & HA).
  change (marker_run_events bk n0 i (p :: q :: rest))
    with ([EvSample (bk_sample bk i); EvBuffer p;
           EvDecode (fill_batch [] (bk_sample bk i) (n0 + Z.of_nat i) true) true]
          ++ marker_run_events bk n0 (S i) (q :: rest)).
  unfold fragments, samples, accepted in *. rewrite !omap_app.
  rewrite HF, HS, length_app, HA. cbn. repeat split. lia.
Qed.

(** C1.  Let the pieces of the tokens sampled by a generation spell the
    marker ["<end_of_turn>"], fragmented in any way over any number of
    ordinary tokens (for instance over five), with the decoder accepting
    the tokens before the last, a token budget of at least that many
    tokens and as many free context slots.  Then the generation returns,
    its loop is left through the textual marker shield when the last
    piece arrives, nothing at all is appended to the result or handed to
    the callback (neither in the loop nor by the final flush), every
    token but the one that completed the marker is decoded, and the
    position has advanced by the number of tokens minus one. *)
Theorem C1_fragmented_marker bk st cb stop_ids (pieces : list bytes) :
  concat pieces = end_of_turn ->
  Forall (fun p => p <> []) pieces ->
  spells bk stop_ids pieces ->
  decodes_first bk (n_past st) (length pieces - 1) ->
  Z.of_nat (length pieces) <= max_tokens_of st ->
  n_past st + Z.of_nat (length pieces) <= n_ctx st ->
  exists r,
    run_inference bk st cb stop_ids = Some r /\
    r_exit r = Some ExitMarker /\
    r_code r = TCL_OK [] /\
    r_trace r = marker_run_events bk (n_past st) 0 pieces /\
    fragments (r_trace r) = [] /\
    samples (r_trace r) = map (bk_sample bk) (seq 0 (length pieces)) /\
    length (accepted (r_trace r)) = (length pieces - 1)%nat /\
    n_past (r_state r) = n_past st + Z.of_nat (length pieces) - 1.
Proof.
  intros Hcat Hall Hsp Hdec Hmax Hctx.
  assert (Hne : pieces <> []) by (intros ->; discriminate).
  destruct (marker_loop bk (n_ctx st) cb stop_ids (max_tokens_of st) (n_past st)
              pieces 0%nat (S (Z.to_nat (max_tokens_of st))) (gen_init st))
    as (g & Hl & Ht & Hr & Hp & Hn & Htr); try assumption; try reflexivity.
  - cbn [gen_init g_n_past]. lia.
  - intros k Hk. apply Hdec. lia.
  - lia.
  - unfold run_inference. fold (gen_init st). rewrite Hl.
    assert (Hf : final_flush cb g = g).
    { unfold final_flush. rewrite Ht. reflexivity. }
    rewrite Hf. eexists. split; [reflexivity|].
    cbn [r_exit r_code r_trace r_state set_n_gen set_n_past n_past].
    cbn [gen_init resp trace] in Hr, Htr. rewrite Hr, Htr. cbn [app].
    destruct (marker_run_no_fragments bk (n_past st) pieces 0) as (HF & HS & HA).
    repeat split; assumption.
Qed.

(** C1 for the marker fragmented across five tokens, on a fresh session. *)
Lemma C1_witness :
  exists r,
    run_inference bk_five_pieces (fresh_session bk_five_pieces)
      (Some cb_ok) [] = Some r /\
    r_exit r = Some ExitMarker /\
    r_code r = TCL_OK [] /\
    r_trace r = marker_run_events bk_five_pieces 0 0 five_pieces /\
    fragments (r_trace r) = [] /\
    samples (r_trace r) = [0; 1; 2; 3; 4] /\
    length (accepted (r_trace r)) = 4%nat /\
    n_past (r_state r) = 4.
Proof.
  apply (C1_fragmented_marker bk_five_pieces (fresh_session bk_five_pieces)
           (Some cb_ok) [] five_pieces).
  - reflexivity.
  - repeat constructor; discriminate.
  - intros k piece Hk.
    do 5 (destruct k as [|k]; [injection Hk as <-; repeat split|]).
    discriminate.
  - intros k Hk. cbn in Hk.
    do 4 (destruct k as [|k]; [reflexivity|]). lia.
  - vm_compute. discriminate.
  - vm_compute. discriminate.
Defined.

(** ** UTF-8 boundaries *)

Lemma utf8_char_length_bounds b : (1 <= utf8_char_length b <= 4)%nat.
Proof.
  unfold utf8_char_length. repeat case_innermost_if; lia.
Qed.

Lemma cont_char_length b : is_cont b = true -> utf8_char_length b = 1%nat.
Proof. destruct b; vm_compute; congruence. Qed.

Lemma cont_not_nul b : is_cont b = true -> Byte.eqb b x00 = false.
Proof. destruct b; vm_compute; congruence. Qed.

(** The fuel given to the scan by [find_last_utf8_boundary] is enough:
    with [max_pos - pos] passes or more the loop has reached its end, and
    more fuel does not change the result. *)
Lemma utf8_scan_fuel str max_pos :
  forall fuel1 fuel2 pos last_valid,
    (max_pos - pos <= fuel1)%nat -> (max_pos - pos <= fuel2)%nat ->
    utf8_scan fuel1 str max_pos pos last_valid
    = utf8_scan fuel2 str max_pos pos last_valid.
Proof.
  induction fuel1 as [|fuel1 IH]; intros fuel2 pos last_valid H1 H2.
  - destruct fuel2 as [|fuel2]; [reflexivity|]. cbn [utf8_scan].
    assert (E : (pos <? max_pos)%nat = false) by (apply Nat.ltb_ge; lia).
    rewrite E. reflexivity.
  - cbn [utf8_scan]. destruct (pos <? max_pos)%nat eqn:Hlt.
    + apply Nat.ltb_lt in Hlt. destruct fuel2 as [|fuel2]; [lia|].
      cbn [utf8_scan]. rewrite (proj2 (Nat.ltb_lt _ _) Hlt). cbv zeta.
      pose proof (utf8_char_length_bounds (nth pos str x00)) as HL.
      destruct (pos + utf8_char_length (nth pos str x00) <=? max_pos)%nat;
        [|reflexivity].
      apply IH; lia.
    + destruct fuel2 as [|fuel2]; [reflexivity|]. cbn [utf8_scan].
      rewrite Hlt. reflexivity.
Qed.

(** The index-based scan of the source agrees with the scan on the list. *)
Lemma utf8_scan_walk fuel str max_pos :
  forall pos, (pos <= max_pos <= length str)%nat ->
    utf8_scan fuel str max_pos pos pos
    = (pos + utf8_walk fuel (drop pos str) (max_pos - pos))%nat.
Proof.
  induction fuel as [|fuel IH]; intros pos Hpos; cbn [utf8_scan utf8_walk];
    [lia|].
  destruct (pos <? max_pos)%nat eqn:Hlt.
  - apply Nat.ltb_lt in Hlt.
    assert (Hd : drop pos str = nth pos str x00 :: drop (S pos) str).
    { apply drop_S.
      destruct (nth_lookup_or_length str pos x00) as [H|H]; [exact H|lia]. }
    rewrite Hd. cbv zeta.
    pose proof (utf8_char_length_bounds (nth pos str x00)) as HL.
    set (L := utf8_char_length (nth pos str x00)) in *.
    destruct (pos + L <=? max_pos)%nat eqn:Hfit.
    + apply Nat.leb_le in Hfit.
      assert (E : (L <=? max_pos - pos)%nat = true) by (apply Nat.leb_le; lia).
      rewrite E, IH by lia. rewrite <- Hd, drop_drop.
      replace (max_pos - (pos + L))%nat with (max_pos - pos - L)%nat by lia.
      lia.
    + apply Nat.leb_gt in Hfit.
      assert (E : (L <=? max_pos - pos)%nat = false) by (apply Nat.leb_gt; lia).
      rewrite E. lia.
  - apply Nat.ltb_ge in Hlt.
    replace (max_pos - pos)%nat with 0%nat by lia.
    destruct (drop pos str) as [|b s']; [lia|]. cbv zeta.
    pose proof (utf8_char_length_bounds b) as HL.
    assert (E : (utf8_char_length b <=? 0)%nat = false) by (apply Nat.leb_gt; lia).
    rewrite E. lia.
Qed.

Lemma find_last_utf8_boundary_walk str max_pos :
  exists m, (m <= length str)%nat /\
            find_last_utf8_boundary str max_pos = utf8_walk m str m.
Proof.
  unfold find_last_utf8_boundary. cbv zeta.
  destruct (length str <=? max_pos)%nat eqn:E.
  - exists (length str). split; [lia|].
    rewrite utf8_scan_walk by lia. rewrite drop_0, Nat.sub_0_r. reflexivity.
  - apply Nat.leb_gt in E. exists max_pos. split; [lia|].
    rewrite utf8_scan_walk by lia. rewrite drop_0, Nat.sub_0_r. reflexivity.
Qed.

(** The scan never returns more than its limit. *)
Lemma utf8_walk_le fuel : forall s budget, (utf8_walk fuel s budget <= budget)%nat.
Proof.
  induction fuel as [|fuel IH]; intros s budget; cbn [utf8_walk]; [lia|].
  destruct s as [|b s]; [lia|]. cbv zeta.
  destruct (utf8_char_length b <=? budget)%nat eqn:E; [|lia].
  apply Nat.leb_le in E.
  specialize (IH (drop (utf8_char_length b) (b :: s)) (budget - utf8_char_length b)%nat).
  lia.
Qed.

Lemma find_last_utf8_boundary_le str max_pos :
  (find_last_utf8_boundary str max_pos <= length str)%nat /\
  (find_last_utf8_boundary str max_pos <= max_pos)%nat.
Proof.
  unfold find_last_utf8_boundary. cbv zeta.
  destruct (length str <=? max_pos)%nat eqn:E;
    [apply Nat.leb_le in E|apply Nat.leb_gt in E];
    rewrite utf8_scan_walk by lia; rewrite drop_0, Nat.sub_0_r; cbn [Nat.add];
    match goal with
    | |- context [utf8_walk ?f ?s ?b] => pose proof (utf8_walk_le f s b)
    end; lia.
Qed.

(** On well-formed characters followed by an incomplete one, the scan
    stops after a whole number of characters. *)
Lemma utf8_walk_chars v p :
  utf8_chars v -> utf8_partial p ->
  forall fuel budget, (budget <= length (v ++ p))%nat ->
    utf8_chars (take (utf8_walk fuel (v ++ p) budget) (v ++ p)).
Proof.
  intros Hv Hp. induction Hv as [|b tail rest Hl Hlen Hc Hrest IH];
    intros fuel budget Hb.
  - cbn [app] in *. destruct fuel as [|fuel]; cbn [utf8_walk];
      [rewrite take_0; constructor|].
    destruct Hp as [|b tail Hl Hlen Hc]; [constructor|]. cbv zeta.
    cbn [length] in Hb.
    assert (E : (utf8_char_length b <=? budget)%nat = false)
      by (apply Nat.leb_gt; lia).
    rewrite E, take_0. constructor.
  - assert (Es : (b :: tail ++ rest) ++ p = (b :: tail) ++ (rest ++ p))
      by (cbn [app]; rewrite <- app_assoc; reflexivity).
    rewrite Es in *. clear Es.
    destruct fuel as [|fuel]; cbn [utf8_walk app];
      [rewrite take_0; constructor|]. cbv zeta.
    destruct (utf8_char_length b <=? budget)%nat eqn:E;
      [|rewrite take_0; constructor].
    apply Nat.leb_le in E. rewrite <- Hlen in E |- *.
    change (S (length tail)) with (length (b :: tail)).
    change (b :: tail ++ rest ++ p) with ((b :: tail) ++ rest ++ p).
    rewrite drop_app_length, take_app_add.
    cbn [app]. constructor; try assumption.
    apply IH. rewrite !length_app in *. cbn [length] in *. lia.
Qed.

Lemma utf8_walk_tail_chars c v p :
  Forall (fun b => is_cont b = true) c -> utf8_chars v -> utf8_partial p ->
  forall fuel budget, (budget <= length (c ++ v ++ p))%nat ->
    utf8_tail_chars (take (utf8_walk fuel (c ++ v ++ p) budget) (c ++ v ++ p)).
Proof.
  intros Hc Hv Hp. induction Hc as [|c0 c Hc0 Hc IH]; intros fuel budget Hb.
  - cbn [app] in *. exists [], (take (utf8_walk fuel (v ++ p) budget) (v ++ p)).
    split; [reflexivity|]. split; [constructor|].
    apply utf8_walk_chars; assumption.
  - destruct fuel as [|fuel]; cbn [utf8_walk app];
      [rewrite take_0; exists [], []; repeat constructor|]. cbv zeta.
    rewrite (cont_char_length c0 Hc0).
    destruct (1 <=? budget)%nat eqn:E;
      [|rewrite take_0; exists [], []; repeat constructor].
    apply Nat.leb_le in E. cbn [drop Nat.add take].
    destruct (IH fuel (budget - 1)%nat) as (c' & v' & E' & Hc' & Hv').
    { cbn [length app] in Hb. lia. }
    rewrite drop_0, E'. exists (c0 :: c'), v'. split; [reflexivity|].
    split; [constructor; assumption|assumption].
Qed.

(** *** Pieces of well-formed text *)

Lemma utf8_prefix_shape X :
  utf8_chars X ->
  forall s z, X = s ++ z ->
    exists v p, s = v ++ p /\ utf8_chars v /\ utf8_partial p.
Proof.
  induction 1 as [|b tail rest Hl Hlen Hc Hrest IH]; intros s z E.
  - symmetry in E. apply app_eq_nil in E. destruct E as [-> _].
    exists [], []. repeat constructor.
  - change (b :: tail ++ rest) with ((b :: tail) ++ rest) in E.
    apply app_eq_inv in E. destruct E as [(k & E1 & E2) | (k & E1 & E2)].
    + (* [s] ends inside the first character *)
      destruct s as [|b' s'].
      { exists [], []. repeat constructor. }
      cbn [app] in E1. injection E1 as <- ->.
      destruct k as [|k0 k].
      * rewrite app_nil_r in *. exists (b :: s' ++ []), [].
        split; [rewrite !app_nil_r; reflexivity|].
        split; constructor; try assumption. constructor.
      * exists [], (b :: s'). split; [reflexivity|]. split; [constructor|].
        apply Forall_app in Hc. destruct Hc as [Hc _].
        constructor; try assumption.
        rewrite length_app in Hlen. cbn [length] in Hlen. lia.
    + (* [s] covers the first character *)
      destruct (IH k z E2) as (v & p & -> & Hv & Hp). subst s.
      exists (b :: tail ++ v), p. split.
      * cbn [app]. rewrite <- app_assoc. reflexivity.
      * split; [constructor; assumption|assumption].
Qed.

Lemma utf8_suffix_shape X :
  utf8_chars X -> forall a s, X = a ++ s -> utf8_tail_chars s.
Proof.
  induction 1 as [|b tail rest Hl Hlen Hc Hrest IH]; intros a s E.
  - symmetry in E. apply app_eq_nil in E. destruct E as [_ ->].
    exists [], []. repeat constructor.
  - change (b :: tail ++ rest) with ((b :: tail) ++ rest) in E.
    apply app_eq_inv in E. destruct E as [(k & E1 & E2) | (k & E1 & E2)].
    + (* [s] starts inside the first character *)
      destruct a as [|a0 a].
      * cbn [app] in E1. subst k s. exists [], (b :: tail ++ rest).
        split; [reflexivity|]. split; [constructor|].
        constructor; assumption.
      * cbn [app] in E1. injection E1 as <- ->. subst s.
        apply Forall_app in Hc. destruct Hc as [_ Hc].
        exists k, rest. auto.
    + (* [s] starts after the first character *)
      exact (IH k s E2).
Qed.

Lemma utf8_substring_shape X :
  utf8_chars X ->
  forall a s z, X = a ++ s ++ z ->
    exists c v p, s = c ++ v ++ p /\ Forall (fun b => is_cont b = true) c /\
                  utf8_chars v /\ utf8_partial p.
Proof.
  intros HX a s z E.
  destruct (utf8_suffix_shape X HX a (s ++ z) E) as (c & v & E' & Hc & Hv).
  apply app_eq_inv in E'. destruct E' as [(k & E1 & E2) | (k & E1 & E2)].
  - destruct (utf8_prefix_shape v Hv k z E2) as (v' & p & -> & Hv' & Hp).
    exists c, v', p. auto.
  - subst c. apply Forall_app in Hc. destruct Hc as [Hc _].
    exists s, [], []. rewrite !app_nil_r. repeat split; auto; constructor.
Qed.

(** *** What [c_str] keeps of well-formed text *)

Lemma c_str_conts c v :
  Forall (fun b => is_cont b = true) c -> c_str (c ++ v) = c ++ c_str v.
Proof.
  induction 1 as [|c0 c Hc0 Hc IH]; [reflexivity|].
  cbn [app c_str]. rewrite (cont_not_nul c0 Hc0), IH. reflexivity.
Qed.

Lemma c_str_chars v : utf8_chars v -> utf8_chars (c_str v).
Proof.
  induction 1 as [|b tail rest Hl Hlen Hc Hrest IH]; [constructor|].
  cbn [c_str]. destruct (Byte.eqb b x00); [constructor|].
  rewrite c_str_conts by assumption. constructor; assumption.
Qed.

Lemma c_str_tail_chars s : utf8_tail_chars s -> utf8_tail_chars (c_str s).
Proof.
  intros (c & v & -> & Hc & Hv). exists c, (c_str v).
  split; [apply c_str_conts, Hc|]. split; [exact Hc|apply c_str_chars, Hv].
Qed.

(** *** Whole characters *)

Lemma whole_chars_of_chars v : utf8_chars v -> whole_chars v.
Proof. induction 1; constructor; assumption. Qed.

Lemma tail_chars_whole s : utf8_tail_chars s -> whole_chars s.
Proof.
  intros (c & v & -> & Hc & Hv).
  induction Hc as [|c0 c Hc0 Hc IH]; [apply whole_chars_of_chars, Hv|].
  apply (whole_char c0 [] (c ++ v)); [|exact IH].
  rewrite (cont_char_length c0 Hc0). reflexivity.
Qed.

Lemma tail_chars_fragment_ok s : utf8_tail_chars s -> fragment_ok s.
Proof. intros H. split; [apply tail_chars_whole, H|exact H]. Qed.

(** The prefix that [find_last_utf8_boundary] selects in a piece of
    well-formed text may be delivered, also through [c_str]. *)
Lemma boundary_prefix_ok X a s z max_pos :
  utf8_chars X -> X = a ++ s ++ z ->
  fragment_ok (take (find_last_utf8_boundary s max_pos) s) /\
  fragment_ok (c_str (take (find_last_utf8_boundary s max_pos) s)).
Proof.
  intros HX E.
  destruct (utf8_substring_shape X HX a s z E) as (c & v & p & -> & Hc & Hv & Hp).
  destruct (find_last_utf8_boundary_walk (c ++ v ++ p) max_pos) as (m & Hm & ->).
  pose proof (utf8_walk_tail_chars c v p Hc Hv Hp m m Hm) as H.
  split; apply tail_chars_fragment_ok; [exact H|apply c_str_tail_chars, H].
Qed.

(** The end of a well-formed text may be delivered, also through [c_str]. *)
Lemma suffix_ok X a s :
  utf8_chars X -> X = a ++ s -> fragment_ok s /\ fragment_ok (c_str s).
Proof.
  intros HX E. pose proof (utf8_suffix_shape X HX a s E) as H.
  split; apply tail_chars_fragment_ok; [exact H|apply c_str_tail_chars, H].
Qed.

(** ** Fragments delivered by the generation loop *)

Lemma trace_eval_callback cb pt frag g :
  trace (snd (eval_callback cb pt frag g))
  = trace g ++ callback_events cb pt frag g /\
  text_buffer (snd (eval_callback cb pt frag g)) = text_buffer g.
Proof.
  unfold eval_callback, callback_events. destruct cb as [cb|]; cbn.
  - auto.
  - rewrite app_nil_r. auto.
Qed.

Lemma fragments_app tr1 tr2 :
  fragments (tr1 ++ tr2) = fragments tr1 ++ fragments tr2.
Proof. apply omap_app. Qed.

Lemma buffered_app tr1 tr2 : buffered (tr1 ++ tr2) = buffered tr1 ++ buffered tr2.
Proof. unfold buffered. rewrite omap_app. apply concat_app. Qed.

Lemma callback_events_frags cb pt frag g :
  buffered (callback_events cb pt frag g) = [] /\
  (fragments (callback_events cb pt frag g) = []
   \/ fragments (callback_events cb pt frag g) = [frag]).
Proof. unfold callback_events. destruct cb; cbn; auto. Qed.

(** What the text path does to the buffer and to the sinks: the piece is
    buffered, the buffer stays a suffix of the text it was extended to,
    and every fragment delivered was selected by the boundary scan in a
    piece of that text. *)
Lemma text_step_spec cb piece g :
  let g' := state_of (text_step cb piece g) in
  let w := text_buffer g ++ piece in
  buffered (trace g') = buffered (trace g) ++ piece /\
  (exists a, w = a ++ text_buffer g') /\
  exists new, fragments (trace g') = fragments (trace g) ++ new /\
              Forall (scan_of w) new.
Proof.
  cbv zeta. unfold text_step. cbv zeta.
  set (w := text_buffer g ++ piece).
  set (tb := if (BUFFER_SIZE <? length w)%nat
             then substr_from w (length w - BUFFER_SIZE) else w).
  assert (Hw : exists a0, w = a0 ++ tb).
  { unfold tb, substr_from. destruct (BUFFER_SIZE <? length w)%nat.
    - exists (take (length w - BUFFER_SIZE) w). symmetry. apply take_drop.
    - exists []. reflexivity. }
  destruct Hw as [a0 Hw].
  set (g0 := set_text_buffer tb (log (EvBuffer piece) g)).
  assert (B0 : buffered (trace g0) = buffered (trace g) ++ piece).
  { unfold g0. cbn [set_text_buffer log trace]. rewrite buffered_app.
    cbn. rewrite app_nil_r. reflexivity. }
  assert (F0 : fragments (trace g0) = fragments (trace g)).
  { unfold g0. cbn [set_text_buffer log trace]. rewrite fragments_app.
    cbn. rewrite app_nil_r. reflexivity. }
  assert (T0 : text_buffer g0 = tb) by reflexivity.
  clearbody g0.
  assert (Hnone : buffered (trace g0) = buffered (trace g) ++ piece /\
                  (exists a, w = a ++ text_buffer g0) /\
                  exists new, fragments (trace g0) = fragments (trace g) ++ new /\
                              Forall (scan_of w) new).
  { split; [exact B0|]. split; [exists a0; rewrite T0; exact Hw|].
    exists []. rewrite app_nil_r. split; [exact F0|constructor]. }
  destruct (found_tag tb).
  - cbn [state_of].
    destruct (first_tag_pos tb tags) as [tag_pos|]; [|exact Hnone].
    unfold substr_to.
    destruct (take tag_pos tb) as [|b0 before] eqn:Eb; [exact Hnone|].
    rewrite <- Eb. clear Eb b0 before.
    set (s := take tag_pos tb).
    destruct (0 <? find_last_utf8_boundary s (length s))%nat; [|exact Hnone].
    set (f := take (find_last_utf8_boundary s (length s)) s).
    destruct (trace_eval_callback cb MarkerEmit f (dstring_append MarkerEmit f g0))
      as [-> ->].
    cbn [dstring_append log trace text_buffer].
    rewrite !buffered_app, !fragments_app, B0, F0, T0.
    destruct (callback_events_frags cb MarkerEmit f
                (dstring_append MarkerEmit f g0)) as [-> Hf].
    cbn [dstring_append log] in Hf.
    assert (Hs : scan_of w f).
    { exists a0, s, (drop tag_pos tb), (length s). split; [|left; reflexivity].
      rewrite Hw. unfold s. rewrite take_drop. reflexivity. }
    split; [cbn; rewrite !app_nil_r; reflexivity|].
    split; [exists a0; exact Hw|].
    eexists. split; [rewrite <- app_assoc; reflexivity|].
    apply Forall_app. split; [repeat constructor; exact Hs|].
    destruct Hf as [-> | ->]; repeat constructor. exact Hs.
  - destruct (20 <? length tb)%nat; [|exact Hnone].
    destruct (0 <? find_last_utf8_boundary tb (length tb - 20))%nat;
      [|exact Hnone].
    unfold substr_to, substr_from.
    set (f := take (find_last_utf8_boundary tb (length tb - 20)) tb).
    pose proof (trace_eval_callback cb MarginFlush (c_str f)
                  (dstring_append MarginFlush f g0)) as [Et Eb].
    destruct (callback_events_frags cb MarginFlush (c_str f)
                (dstring_append MarginFlush f g0)) as [Hb Hf].
    destruct (eval_callback cb MarginFlush (c_str f)
                (dstring_append MarginFlush f g0)) as [ok g1].
    cbn [snd] in Et, Eb. cbn [dstring_append log trace text_buffer] in Et, Eb.
    assert (Hs : scan_of w f /\ scan_of w (c_str f)).
    { split; exists a0, tb, [], (length tb - 20)%nat; rewrite app_nil_r;
        (split; [exact Hw|]); [left|right]; reflexivity. }
    destruct Hs as [Hs1 Hs2].
    assert (HB : buffered (trace g1) = buffered (trace g) ++ piece).
    { rewrite Et, !buffered_app, B0, Hb. cbn. rewrite !app_nil_r. reflexivity. }
    assert (HF : exists new, fragments (trace g1) = fragments (trace g) ++ new /\
                             Forall (scan_of w) new).
    { rewrite Et, !fragments_app, F0. eexists.
      split; [rewrite <- app_assoc; reflexivity|].
      apply Forall_app. split; [repeat constructor; exact Hs1|].
      destruct Hf as [-> | ->]; repeat constructor. exact Hs2. }
    destruct ok; cbn [state_of set_text_buffer trace text_buffer].
    + split; [exact HB|]. split; [|exact HF].
      exists (a0 ++ f). rewrite <- app_assoc. unfold f. rewrite take_drop.
      exact Hw.
    + split; [exact HB|]. split; [|exact HF].
      exists a0. rewrite Eb, T0. exact Hw.
Qed.

Lemma decode_step_neutral bk id g :
  let g' := state_of (decode_step bk id g) in
  buffered (trace g') = buffered (trace g) /\
  fragments (trace g') = fragments (trace g) /\
  text_buffer g' = text_buffer g.
Proof.
  cbv zeta. unfold decode_step. cbv zeta.
  destruct (bk_decode bk _); cbn [state_of log trace text_buffer];
    rewrite buffered_app, fragments_app; cbn; rewrite !app_nil_r; auto.
Qed.

(** One pass of the loop, seen from the buffer and the sinks. *)
Lemma gen_step_stream bk n_ctx_ cb stop_ids g :
  let g' := state_of (gen_step bk n_ctx_ cb stop_ids g) in
  exists piece,
    buffered (trace g') = buffered (trace g) ++ piece /\
    (exists a, text_buffer g ++ piece = a ++ text_buffer g') /\
    exists new, fragments (trace g') = fragments (trace g) ++ new /\
                Forall (scan_of (text_buffer g ++ piece)) new.
Proof.
  cbv zeta.
  assert (Hnone : forall g0,
             buffered (trace g0) = buffered (trace g) ->
             fragments (trace g0) = fragments (trace g) ->
             text_buffer g0 = text_buffer g ->
             exists piece,
               buffered (trace g0) = buffered (trace g) ++ piece /\
               (exists a, text_buffer g ++ piece = a ++ text_buffer g0) /\
               exists new, fragments (trace g0) = fragments (trace g) ++ new /\
                           Forall (scan_of (text_buffer g ++ piece)) new).
  { intros g0 -> -> ->. exists []. rewrite !app_nil_r.
    split; [reflexivity|]. split; [exists []; reflexivity|].
    exists []. rewrite app_nil_r. split; [reflexivity|constructor]. }
  unfold gen_step.
  destruct (n_ctx_ <=? g_n_past g); [apply Hnone; reflexivity|]. cbv zeta.
  set (id := bk_sample bk (Z.to_nat (p_cnt g))).
  set (g0 := log (EvSample id) g).
  assert (B0 : buffered (trace g0) = buffered (trace g))
    by (unfold g0; cbn [log trace]; rewrite buffered_app; cbn;
        apply app_nil_r).
  assert (F0 : fragments (trace g0) = fragments (trace g))
    by (unfold g0; cbn [log trace]; rewrite fragments_app; cbn;
        apply app_nil_r).
  assert (T0 : text_buffer g0 = text_buffer g) by reflexivity.
  clearbody g0.
  destruct (llama_vocab_is_eog bk id); [apply Hnone; assumption|].
  destruct (bk_attr_control bk id); [apply Hnone; assumption|].
  destruct (existsb (Z.eqb id) stop_ids); [apply Hnone; assumption|].
  destruct (llama_token_to_piece bk id 511) as [n piece].
  destruct ((0 <? n) && (n <? 512)).
  - pose proof (text_step_spec cb piece g0) as Hs. cbv zeta in Hs.
    rewrite B0, F0, T0 in Hs.
    destruct (text_step cb piece g0) as [g1|why g1]; cbn [state_of] in Hs |- *.
    + destruct (decode_step_neutral bk id g1) as (-> & -> & ->).
      exists piece. exact Hs.
    + exists piece. exact Hs.
  - destruct (decode_step_neutral bk id g0) as (-> & -> & ->).
    apply Hnone; assumption.
Qed.

Lemma stream_inv_step bk n_ctx_ cb stop_ids g :
  stream_inv g -> stream_inv (state_of (gen_step bk n_ctx_ cb stop_ids g)).
Proof.
  intros [[d Hd] Hok].
  destruct (gen_step_stream bk n_ctx_ cb stop_ids g)
    as (piece & HB & [a Ha] & new & HF & Hnew).
  revert HB Ha HF. generalize (state_of (gen_step bk n_ctx_ cb stop_ids g)).
  intros g' HB Ha HF. split.
  - exists (d ++ a). rewrite HB, Hd, <- !app_assoc, Ha. reflexivity.
  - intros X z HX E. rewrite HF. apply Forall_app. split.
    + apply (Hok X (piece ++ z) HX). rewrite E, HB, <- app_assoc. reflexivity.
    + eapply Forall_impl; [exact Hnew|].
      intros f (a1 & s & z1 & m & Ew & Hf).
      assert (EX : X = (d ++ a1) ++ s ++ (z1 ++ z)).
      { rewrite E, HB, Hd, <- !app_assoc. rewrite (app_assoc (text_buffer g)), Ew.
        rewrite <- !app_assoc. reflexivity. }
      destruct (boundary_prefix_ok X _ s _ m HX EX) as [H1 H2].
      destruct Hf as [-> | ->]; assumption.
Qed.

Lemma stream_inv_loop bk n_ctx_ cb stop_ids max_tokens fuel g why g' :
  stream_inv g ->
  gen_loop bk n_ctx_ cb stop_ids fuel max_tokens g = Some (why, g') ->
  stream_inv g'.
Proof.
  intros Hg.
  apply (gen_loop_rule bk n_ctx_ cb stop_ids max_tokens stream_inv
           (fun _ g => stream_inv g)); try assumption.
  - intros g1 g2 H1 _ Hs.
    pose proof (stream_inv_step bk n_ctx_ cb stop_ids g1 H1) as H.
    rewrite Hs in H. exact H.
  - intros g1 why1 g2 H1 _ Hs.
    pose proof (stream_inv_step bk n_ctx_ cb stop_ids g1 H1) as H.
    rewrite Hs in H. exact H.
  - auto.
Qed.

Lemma stream_inv_init st : stream_inv (gen_init st).
Proof.
  split; [exists []; reflexivity|]. intros X z _ _. constructor.
Qed.

(** The final flush delivers the buffer as it is; it is fit for delivery
    when all the text buffered is well formed. *)
Lemma final_flush_stream cb g :
  stream_inv g ->
  buffered (trace (final_flush cb g)) = buffered (trace g) /\
  (utf8_chars (buffered (trace g)) ->
   Forall fragment_ok (fragments (trace (final_flush cb g)))).
Proof.
  intros [[d Hd] Hok].
  assert (Hold : utf8_chars (buffered (trace g)) ->
                 Forall fragment_ok (fragments (trace g))).
  { intros HX. apply (Hok _ [] HX). rewrite app_nil_r. reflexivity. }
  unfold final_flush. cbv zeta.
  change (text_buffer (dstring_append FinalFlush (text_buffer g) g))
    with (text_buffer g).
  destruct (text_buffer g) as [|b tb] eqn:Etb; [auto|].
  destruct (has_partial_tag (b :: tb)); [auto|].
  destruct (trace_eval_callback cb FinalFlush (c_str (b :: tb))
              (dstring_append FinalFlush (b :: tb) g)) as [-> _].
  destruct (callback_events_frags cb FinalFlush (c_str (b :: tb))
              (dstring_append FinalFlush (b :: tb) g)) as [Hb Hf].
  cbn [dstring_append log trace].
  rewrite !buffered_app, !fragments_app, Hb. cbn [buffered omap concat].
  rewrite !app_nil_r. split; [reflexivity|]. intros HX.
  destruct (suffix_ok _ d (b :: tb) HX Hd) as [H1 H2].
  apply Forall_app. split; [apply Forall_app; split; [auto|]|].
  - cbn. constructor; [exact H1|constructor].
  - destruct Hf as [-> | ->]; [constructor|].
    constructor; [exact H2|constructor].
Qed.

(** ** Short pieces: every fragment is well-formed UTF-8 *)

Lemma utf8_chars_app v1 v2 : utf8_chars v1 -> utf8_chars v2 -> utf8_chars (v1 ++ v2).
Proof.
  induction 1 as [|b tail rest Hl Hlen Hc Hrest IH]; intros H2; [exact H2|].
  cbn [app]. rewrite <- app_assoc. constructor; auto.
Qed.

(** What follows a whole number of characters in a well-formed text is
    well-formed. *)
Lemma utf8_chars_app_inv v1 : utf8_chars v1 ->
  forall v2, utf8_chars (v1 ++ v2) -> utf8_chars v2.
Proof.
  induction 1 as [|b tail rest Hl Hlen Hc Hrest IH]; intros v2 H; [exact H|].
  apply IH. cbn [app] in H. rewrite <- app_assoc in H.
  inversion H as [|b' tail' rest' Hl' Hlen' Hc' Hrest' Eb]. subst b'.
  match goal with E : tail' ++ rest' = tail ++ _ |- _ =>
    apply app_inj_1 in E; [|lia]; destruct E as [_ <-] end.
  exact Hrest'.
Qed.

Lemma utf8_partial_length p : utf8_partial p -> (length p <= 3)%nat.
Proof.
  destruct 1 as [|b tail Hl Hlen Hc]; cbn [length]; [lia|].
  pose proof (utf8_char_length_bounds b). lia.
Qed.

(** On well-formed characters followed by an incomplete one the scan
    stops less than a character short of its limit. *)
Lemma utf8_walk_reach v p :
  utf8_chars v -> utf8_partial p ->
  forall fuel budget,
    (budget <= length (v ++ p))%nat -> (budget <= fuel)%nat ->
    (budget <= utf8_walk fuel (v ++ p) budget + 3)%nat.
Proof.
  intros Hv Hp. induction Hv as [|b tail rest Hl Hlen Hc Hrest IH];
    intros fuel budget Hb Hf.
  - cbn [app] in Hb. pose proof (utf8_partial_length p Hp). lia.
  - assert (Es : (b :: tail ++ rest) ++ p = (b :: tail) ++ (rest ++ p))
      by (cbn [app]; rewrite <- app_assoc; reflexivity).
    rewrite Es in *. clear Es.
    destruct fuel as [|fuel]; [lia|]. cbn [utf8_walk app]. cbv zeta.
    pose proof (utf8_char_length_bounds b) as HL.
    destruct (utf8_char_length b <=? budget)%nat eqn:E;
      [apply Nat.leb_le in E|apply Nat.leb_gt in E; lia].
    rewrite <- Hlen in E |- *.
    change (S (length tail)) with (length (b :: tail)).
    change (b :: tail ++ rest ++ p) with ((b :: tail) ++ rest ++ p).
    rewrite drop_app_length.
    specialize (IH fuel (budget - length (b :: tail))%nat).
    rewrite !length_app in *. cbn [length] in *. lia.
Qed.

Lemma find_last_utf8_boundary_min str max_pos :
  find_last_utf8_boundary str max_pos
  = utf8_walk (Nat.min max_pos (length str)) str (Nat.min max_pos (length str)).
Proof.
  unfold find_last_utf8_boundary. cbv zeta.
  destruct (length str <=? max_pos)%nat eqn:E;
    [apply Nat.leb_le in E|apply Nat.leb_gt in E];
    rewrite utf8_scan_walk by lia; rewrite drop_0, Nat.sub_0_r; cbn [Nat.add];
    f_equal; lia.
Qed.

(** The boundary scan on a text that begins a well-formed one. *)
Lemma boundary_of_prefix X s z max_pos :
  utf8_chars X -> X = s ++ z ->
  utf8_chars (take (find_last_utf8_boundary s max_pos) s) /\
  (Nat.min max_pos (length s) <= find_last_utf8_boundary s max_pos + 3)%nat.
Proof.
  intros HX E.
  destruct (utf8_prefix_shape X HX s z E) as (v & p & -> & Hv & Hp).
  rewrite find_last_utf8_boundary_min. split.
  - apply utf8_walk_chars; [assumption..|]. lia.
  - apply utf8_walk_reach; try assumption; lia.
Qed.

Lemma pieces_app tr1 tr2 : pieces (tr1 ++ tr2) = pieces tr1 ++ pieces tr2.
Proof. apply omap_app. Qed.

(** The text path, pass by pass: which buffer is left and which fragments
    were delivered. *)
Lemma text_step_refined cb piece g :
  let tb := window (text_buffer g ++ piece) in
  let k := find_last_utf8_boundary tb (length tb - 20) in
  match text_step cb piece g with
  | Continue g' =>
      buffered (trace g') = buffered (trace g) ++ piece /\
      pieces (trace g') = pieces (trace g) ++ [piece] /\
      (pass_quiet tb k g g' \/ pass_flush tb k g g')
  | Leave _ g' =>
      buffered (trace g') = buffered (trace g) ++ piece /\
      pieces (trace g') = pieces (trace g) ++ [piece] /\
      pass_leave tb k g g'
  end.
Proof.
  cbv zeta. unfold text_step. cbv zeta.
  change (if (BUFFER_SIZE <? length (text_buffer g ++ piece))%nat
          then substr_from (text_buffer g ++ piece)
                 (length (text_buffer g ++ piece) - BUFFER_SIZE)
          else text_buffer g ++ piece)
    with (window (text_buffer g ++ piece)).
  set (tb := window (text_buffer g ++ piece)).
  set (g0 := set_text_buffer tb (log (EvBuffer piece) g)).
  assert (B0 : buffered (trace g0) = buffered (trace g) ++ piece).
  { unfold g0. cbn [set_text_buffer log trace]. rewrite buffered_app.
    cbn. rewrite app_nil_r. reflexivity. }
  assert (P0 : pieces (trace g0) = pieces (trace g) ++ [piece]).
  { unfold g0. cbn [set_text_buffer log trace]. rewrite pieces_app.
    reflexivity. }
  assert (F0 : fragments (trace g0) = fragments (trace g)).
  { unfold g0. cbn [set_text_buffer log trace]. rewrite fragments_app.
    cbn. rewrite app_nil_r. reflexivity. }
  assert (T0 : text_buffer g0 = tb) by reflexivity.
  clearbody g0.
  set (k := find_last_utf8_boundary tb (length tb - 20)).
  assert (Hleave0 : pass_leave tb k g g0).
  { split; [exact T0|]. exists []. rewrite app_nil_r. split; [exact F0|constructor]. }
  unfold pass_leave, pass_quiet, pass_flush in *.
  destruct (found_tag tb).
  - cbv beta iota.
    destruct (first_tag_pos tb tags) as [tag_pos|]; [|auto].
    unfold substr_to.
    destruct (take tag_pos tb) as [|b0 before] eqn:Eb; [auto|].
    rewrite <- Eb. clear Eb b0 before.
    set (s := take tag_pos tb).
    destruct (0 <? find_last_utf8_boundary s (length s))%nat; [|auto].
    set (f := take (find_last_utf8_boundary s (length s)) s).
    destruct (trace_eval_callback cb MarkerEmit f (dstring_append MarkerEmit f g0))
      as [-> ->].
    cbn [dstring_append log trace text_buffer].
    rewrite !buffered_app, !pieces_app, !fragments_app, B0, P0, F0, T0.
    destruct (callback_events_frags cb MarkerEmit f
                (dstring_append MarkerEmit f g0)) as [-> Hf].
    assert (Hp : pieces (callback_events cb MarkerEmit f
                           (dstring_append MarkerEmit f g0)) = [])
      by (unfold callback_events; destruct cb; reflexivity).
    rewrite Hp. cbn [dstring_append log] in Hf.
    assert (Hs : marker_fragment tb f) by (exists tag_pos; reflexivity).
    split; [cbn; rewrite !app_nil_r; reflexivity|].
    split; [cbn; rewrite !app_nil_r; reflexivity|].
    split; [reflexivity|].
    eexists. split; [rewrite <- app_assoc; reflexivity|].
    apply Forall_app. split; [constructor; [left; exact Hs|constructor]|].
    destruct Hf as [-> | ->]; constructor; [left; exact Hs|constructor].
  - destruct (20 <? length tb)%nat eqn:E20;
      [apply Nat.ltb_lt in E20|apply Nat.ltb_ge in E20].
    2:{ split; [exact B0|]. split; [exact P0|]. left.
        split; [exact T0|]. split; [exact F0|]. left. exact E20. }
    fold k.
    destruct (0 <? k)%nat eqn:Ek; [apply Nat.ltb_lt in Ek|apply Nat.ltb_ge in Ek].
    2:{ split; [exact B0|]. split; [exact P0|]. left.
        split; [exact T0|]. split; [exact F0|]. right. lia. }
    unfold substr_to, substr_from.
    set (f := take k tb).
    pose proof (trace_eval_callback cb MarginFlush (c_str f)
                  (dstring_append MarginFlush f g0)) as [Et Eb].
    destruct (callback_events_frags cb MarginFlush (c_str f)
                (dstring_append MarginFlush f g0)) as [Hb Hf].
    assert (Hp : pieces (callback_events cb MarginFlush (c_str f)
                           (dstring_append MarginFlush f g0)) = [])
      by (unfold callback_events; destruct cb; reflexivity).
    destruct (eval_callback cb MarginFlush (c_str f)
                (dstring_append MarginFlush f g0)) as [ok g1].
    cbn [snd] in Et, Eb. cbn [dstring_append log trace text_buffer] in Et, Eb.
    cbv beta iota.
    assert (HB : buffered (trace g1) = buffered (trace g) ++ piece).
    { rewrite Et, !buffered_app, B0, Hb. cbn. rewrite !app_nil_r. reflexivity. }
    assert (HP : pieces (trace g1) = pieces (trace g) ++ [piece]).
    { rewrite Et, !pieces_app, P0, Hp. cbn. rewrite !app_nil_r. reflexivity. }
    assert (HF : exists new, fragments (trace g1) = fragments (trace g) ++ new /\
                             Forall (margin_fragment tb k) new).
    { rewrite Et, !fragments_app, F0. eexists.
      split; [rewrite <- app_assoc; reflexivity|].
      apply Forall_app. split; [constructor; [left; reflexivity|constructor]|].
      destruct Hf as [-> | ->]; constructor; [right; reflexivity|constructor]. }
    destruct ok; cbn [set_text_buffer trace text_buffer].
    + split; [exact HB|]. split; [exact HP|]. right.
      split; [exact E20|]. split; [exact Ek|]. split; [reflexivity|exact HF].
    + split; [exact HB|]. split; [exact HP|].
      split; [rewrite Eb; exact T0|].
      destruct HF as (new & E & Hn). exists new. split; [exact E|].
      eapply Forall_impl; [exact Hn|]. intros x Hx. right. exact Hx.
Qed.

Lemma window_short w : (length w <= BUFFER_SIZE)%nat -> window w = w.
Proof.
  intros H. unfold window.
  destruct (BUFFER_SIZE <? length w)%nat eqn:E; [apply Nat.ltb_lt in E; lia|].
  reflexivity.
Qed.

Lemma short_inv_weaken going g : short_inv true g -> short_inv going g.
Proof.
  intros H X z HX EX HP. destruct (H X z HX EX HP) as (d & Hd & Hv & Hf & Hl).
  exists d. auto.
Qed.

(** Events outside the text path do not touch the invariant. *)
Lemma short_inv_neutral going g g' :
  buffered (trace g') = buffered (trace g) ->
  pieces (trace g') = pieces (trace g) ->
  fragments (trace g') = fragments (trace g) ->
  text_buffer g' = text_buffer g ->
  short_inv going g -> short_inv going g'.
Proof. unfold short_inv. intros -> -> -> ->. auto. Qed.

(** The text path keeps the invariant. *)
Lemma short_inv_text_step cb piece g :
  short_inv true g ->
  match text_step cb piece g with
  | Continue g' => short_inv true g'
  | Leave _ g' => short_inv false g'
  end.
Proof.
  intros Hinv. pose proof (text_step_refined cb piece g) as Hs. cbv zeta in Hs.
  assert (Hpre : forall g' X z,
             buffered (trace g') = buffered (trace g) ++ piece ->
             pieces (trace g') = pieces (trace g) ++ [piece] ->
             utf8_chars X -> X = buffered (trace g') ++ z ->
             Forall short_piece (pieces (trace g')) ->
             exists d, buffered (trace g') = d ++ text_buffer g ++ piece /\
                       utf8_chars d /\
                       Forall utf8_chars (fragments (trace g)) /\
                       window (text_buffer g ++ piece) = text_buffer g ++ piece /\
                       utf8_chars ((text_buffer g ++ piece) ++ z)).
  { intros g' X z HB HP HX EX HPs. rewrite HP in HPs.
    apply Forall_app in HPs. destruct HPs as [HPs Hp].
    apply Forall_inv in Hp. unfold short_piece in Hp.
    destruct (Hinv X (piece ++ z) HX) as (d & Hd & Hv & Hf & Hl);
      [rewrite EX, HB, <- app_assoc; reflexivity|exact HPs|].
    specialize (Hl eq_refl). exists d.
    split; [rewrite HB, Hd, <- app_assoc; reflexivity|].
    split; [exact Hv|]. split; [exact Hf|].
    split; [apply window_short; rewrite length_app; unfold BUFFER_SIZE; lia|].
    apply (utf8_chars_app_inv d Hv). rewrite EX, HB, Hd, <- !app_assoc in HX.
    rewrite <- app_assoc. exact HX. }
  set (w := text_buffer g ++ piece) in *.
  assert (Hmargin : forall z f,
             utf8_chars (w ++ z) ->
             margin_fragment w (find_last_utf8_boundary w (length w - 20)) f ->
             utf8_chars f).
  { intros z f Hw Hf.
    destruct (boundary_of_prefix (w ++ z) w z (length w - 20) Hw eq_refl)
      as [H _].
    destruct Hf as [-> | ->]; [exact H|apply c_str_chars, H]. }
  destruct (text_step cb piece g) as [g'|why g'].
  - destruct Hs as (HB & HP & Hcase). intros X z HX EX HPs.
    destruct (Hpre g' X z HB HP HX EX HPs) as (d & Hd & Hv & Hf & Ew & Hw).
    rewrite Ew in Hcase.
    destruct (boundary_of_prefix (w ++ z) w z (length w - 20) Hw eq_refl)
      as [Hk Hreach].
    destruct Hcase as [(T & F & Hq) | (H20 & Hk0 & T & new & F & Hnew)].
    + exists d. rewrite T, F. split; [exact Hd|]. split; [exact Hv|].
      split; [exact Hf|]. intros _. lia.
    + exists (d ++ take (find_last_utf8_boundary w (length w - 20)) w).
      rewrite T, F, <- app_assoc, take_drop. split; [exact Hd|].
      split; [apply utf8_chars_app; assumption|].
      split.
      * apply Forall_app. split; [exact Hf|].
        eapply Forall_impl; [exact Hnew|]. intros f. apply (Hmargin z), Hw.
      * intros _. rewrite length_drop. lia.
  - destruct Hs as (HB & HP & T & new & F & Hnew). intros X z HX EX HPs.
    destruct (Hpre g' X z HB HP HX EX HPs) as (d & Hd & Hv & Hf & Ew & Hw).
    rewrite Ew in T, Hnew.
    exists d. rewrite T, F. split; [exact Hd|]. split; [exact Hv|].
    split; [|discriminate].
    apply Forall_app. split; [exact Hf|].
    eapply Forall_impl; [exact Hnew|]. intros f [[n ->] | Hm].
    + apply (boundary_of_prefix (w ++ z) (take n w) (drop n w ++ z)); [exact Hw|].
      rewrite app_assoc, take_drop. reflexivity.
    + apply (Hmargin z), Hm. exact Hw.
Qed.

Lemma decode_step_pieces bk id g :
  pieces (trace (state_of (decode_step bk id g))) = pieces (trace g).
Proof.
  unfold decode_step. cbv zeta.
  destruct (bk_decode bk _); cbn [state_of log trace];
    rewrite pieces_app; cbn; apply app_nil_r.
Qed.

Lemma short_inv_decode_step going bk id g :
  short_inv going g -> short_inv going (state_of (decode_step bk id g)).
Proof.
  destruct (decode_step_neutral bk id g) as (HB & HF & HT).
  apply short_inv_neutral; try assumption. apply decode_step_pieces.
Qed.

(** One pass of the loop keeps the invariant. *)
Lemma short_inv_step bk n_ctx_ cb stop_ids g :
  short_inv true g ->
  match gen_step bk n_ctx_ cb stop_ids g with
  | Continue g' => short_inv true g'
  | Leave _ g' => short_inv false g'
  end.
Proof.
  intros Hinv. unfold gen_step.
  destruct (n_ctx_ <=? g_n_past g); [apply short_inv_weaken, Hinv|]. cbv zeta.
  set (id := bk_sample bk (Z.to_nat (p_cnt g))).
  set (g0 := log (EvSample id) g).
  assert (H0 : short_inv true g0).
  { revert Hinv. apply short_inv_neutral; unfold g0; cbn [log trace text_buffer];
      rewrite ?buffered_app, ?pieces_app, ?fragments_app; cbn;
      rewrite ?app_nil_r; reflexivity. }
  clearbody g0.
  destruct (llama_vocab_is_eog bk id); [apply short_inv_weaken, H0|].
  destruct (bk_attr_control bk id); [apply short_inv_weaken, H0|].
  destruct (existsb (Z.eqb id) stop_ids); [apply short_inv_weaken, H0|].
  destruct (llama_token_to_piece bk id 511) as [n piece].
  assert (Hdec : forall g1, short_inv true g1 ->
            match decode_step bk id g1 with
            | Continue g' => short_inv true g'
            | Leave _ g' => short_inv false g'
            end).
  { intros g1 H1.
    pose proof (short_inv_decode_step true bk id g1 H1) as H.
    destruct (decode_step bk id g1); cbn [state_of] in H;
      [exact H|apply short_inv_weaken, H]. }
  destruct ((0 <? n) && (n <? 512)).
  - pose proof (short_inv_text_step cb piece g0 H0) as Hs.
    destruct (text_step cb piece g0) as [g1|why g1]; [apply Hdec, Hs|exact Hs].
  - apply Hdec, H0.
Qed.

Lemma short_inv_loop bk n_ctx_ cb stop_ids max_tokens fuel g why g' :
  short_inv true g ->
  gen_loop bk n_ctx_ cb stop_ids fuel max_tokens g = Some (why, g') ->
  short_inv false g'.
Proof.
  intros Hg.
  apply (gen_loop_rule bk n_ctx_ cb stop_ids max_tokens (short_inv true)
           (fun _ g => short_inv false g)); try assumption.
  - intros g1 g2 H1 _ Hs.
    pose proof (short_inv_step bk n_ctx_ cb stop_ids g1 H1) as H.
    rewrite Hs in H. exact H.
  - intros g1 why1 g2 H1 _ Hs.
    pose proof (short_inv_step bk n_ctx_ cb stop_ids g1 H1) as H.
    rewrite Hs in H. exact H.
  - intros g1 H1 _. apply short_inv_weaken, H1.
Qed.

Lemma short_inv_init st : short_inv true (gen_init st).
Proof.
  intros X z _ _ _. exists []. cbn. repeat split; try constructor. lia.
Qed.

(** The final flush delivers the buffer as it is: what remains of a
    well-formed text after whole characters. *)
Lemma final_flush_short cb g :
  short_inv false g ->
  utf8_chars (buffered (trace g)) ->
  Forall short_piece (pieces (trace g)) ->
  Forall utf8_chars (fragments (trace (final_flush cb g))).
Proof.
  intros Hinv HX HP.
  destruct (Hinv _ [] HX (eq_sym (app_nil_r _)) HP) as (d & Hd & Hv & Hf & _).
  assert (Htb : utf8_chars (text_buffer g))
    by (apply (utf8_chars_app_inv d Hv); rewrite <- Hd; exact HX).
  unfold final_flush. cbv zeta.
  change (text_buffer (dstring_append FinalFlush (text_buffer g) g))
    with (text_buffer g).
  destruct (text_buffer g) as [|b tb] eqn:Etb; [exact Hf|].
  destruct (has_partial_tag (b :: tb)); [exact Hf|].
  destruct (trace_eval_callback cb FinalFlush (c_str (b :: tb))
              (dstring_append FinalFlush (b :: tb) g)) as [-> _].
  destruct (callback_events_frags cb FinalFlush (c_str (b :: tb))
              (dstring_append FinalFlush (b :: tb) g)) as [_ Hc].
  cbn [dstring_append log trace]. rewrite !fragments_app.
  apply Forall_app. split; [apply Forall_app; split; [exact Hf|]|].
  - cbn. constructor; [exact Htb|constructor].
  - destruct Hc as [-> | ->]; [constructor|].
    constructor; [apply c_str_chars, Htb|constructor].
Qed.

Lemma final_flush_pieces cb g :
  pieces (trace (final_flush cb g)) = pieces (trace g).
Proof.
  unfold final_flush. cbv zeta.
  destruct (text_buffer g) as [|b tb]; [reflexivity|].
  destruct (has_partial_tag (b :: tb)); [reflexivity|].
  destruct (trace_eval_callback cb FinalFlush
              (c_str (text_buffer (dstring_append FinalFlush (b :: tb) g)))
              (dstring_append FinalFlush (b :: tb) g)) as [-> _].
  cbn [dstring_append log trace]. rewrite !pieces_app.
  unfold callback_events. destruct cb; cbn; rewrite ?app_nil_r; reflexivity.
Qed.

(** In a generation whose text arrived in pieces of at most 27 bytes and
    forms well-formed UTF-8, every fragment delivered is well-formed
    UTF-8: no fragment begins or ends inside a character. *)
Lemma short_pieces_fragments bk st cb stop_ids r :
  run_inference bk st cb stop_ids = Some r ->
  utf8_chars (buffered (r_trace r)) ->
  Forall short_piece (pieces (r_trace r)) ->
  Forall utf8_chars (fragments (r_trace r)).
Proof.
  intros Hr.
  destruct (run_inference_unfold bk st cb stop_ids) as (why & g & Hloop & E).
  rewrite E in Hr. injection Hr as <-.
  pose proof (short_inv_loop _ _ _ _ _ _ _ _ _ (short_inv_init st) Hloop)
    as Hinv.
  assert (Herr : utf8_chars (buffered (trace g)) ->
                 Forall short_piece (pieces (trace g)) ->
                 Forall utf8_chars (fragments (trace g))).
  { intros HX HP.
    destruct (Hinv _ [] HX (eq_sym (app_nil_r _)) HP) as (d & _ & _ & Hf & _).
    exact Hf. }
  destruct (final_flush_stream cb g
              (stream_inv_loop _ _ _ _ _ _ _ _ _ (stream_inv_init st) Hloop))
    as [Eb _].
  pose proof (final_flush_pieces cb g) as Ep.
  destruct why; cbn [run_result r_trace]; try exact Herr;
    rewrite Eb, Ep; apply final_flush_short; exact Hinv.
Qed.

(** X26.  What the boundary search does achieve.  In every generation
    whose buffered text pieces, concatenated, form well-formed UTF-8 (for
    instance with a 4-byte character split across two pieces), every
    fragment appended to the result or handed to the callback, at the
    marker emit, at a margin flush or at the final flush, consists of
    whole characters, the length of each being derived from its first byte
    by [utf8_char_length]; these are well-formed characters, possibly
    preceded by continuation bytes.  When no piece is longer than 27 bytes
    there are no such bytes: every fragment is well-formed UTF-8 (each
    character a leading byte followed by the continuation bytes its high
    bits announce). *)
Theorem fragments_whole_chars bk st cb stop_ids r :
  run_inference bk st cb stop_ids = Some r ->
  utf8_chars (buffered (r_trace r)) ->
  Forall fragment_ok (fragments (r_trace r)) /\
  (Forall short_piece (pieces (r_trace r)) ->
   Forall utf8_chars (fragments (r_trace r))).
Proof.
  intros Hr HX. split; [|apply (short_pieces_fragments bk st cb stop_ids r Hr HX)].
  revert HX.
  destruct (run_inference_unfold bk st cb stop_ids) as (why & g & Hloop & E).
  rewrite E in Hr. injection Hr as <-.
  pose proof (stream_inv_loop _ _ _ _ _ _ _ _ _ (stream_inv_init st) Hloop)
    as Hinv.
  assert (Herr : utf8_chars (buffered (trace g)) ->
                 Forall fragment_ok (fragments (trace g))).
  { intros HX. destruct Hinv as [_ Hok]. apply (Hok _ [] HX).
    rewrite app_nil_r. reflexivity. }
  destruct (final_flush_stream cb g Hinv) as [Eb Hfin].
  destruct why; cbn [run_result r_trace]; try exact Herr;
    rewrite Eb; exact Hfin.
Qed.

(** The checker is sound. *)
Lemma utf8_valid_from_sound s :
  forall pending, utf8_valid_from pending s = true ->
    exists tail rest,
      s = tail ++ rest /\ length tail = pending /\
      Forall (fun c => is_cont c = true) tail /\ utf8_chars rest.
Proof.
  induction s as [|b s IH]; intros pending H; cbn [utf8_valid_from] in H.
  - apply Nat.eqb_eq in H. subst. exists [], []. repeat constructor.
  - destruct pending as [|k]; apply andb_true_iff in H; destruct H as [Hb H].
    + destruct (IH _ H) as (tail & rest & -> & Hlen & Hc & Hrest).
      exists [], (b :: tail ++ rest). split; [reflexivity|].
      split; [reflexivity|]. split; [constructor|].
      constructor; try assumption.
      pose proof (utf8_char_length_bounds b). lia.
    + destruct (IH _ H) as (tail & rest & -> & Hlen & Hc & Hrest).
      exists (b :: tail), rest. cbn [length app]. rewrite Hlen.
      repeat split; try assumption. constructor; assumption.
Qed.

Lemma utf8_valid_sound s : utf8_valid s = true -> utf8_chars s.
Proof.
  intros H. destruct (utf8_valid_from_sound s 0 H) as (tail & rest & -> & Hl & _ & Hr).
  destruct tail; [exact Hr|discriminate].
Qed.

(** The character U+1F600 arriving in two halves, followed by letters:
    the margin flush delivers the whole character with three letters, the
    final flush the remaining letters. *)
Lemma fragments_whole_chars_witness :
  exists r,
    run_inference bk_split_char (fresh_session bk_split_char) (Some cb_ok) []
    = Some r /\
    utf8_chars (buffered (r_trace r)) /\
    appended (r_trace r)
    = [ [xf0; x9f; x98; x80] ++ lit "aaa"; lit "aaaaaaaaaaaaaaaabbbb" ] /\
    Forall fragment_ok (fragments (r_trace r)) /\
    Forall utf8_chars (fragments (r_trace r)).
Proof.
  eexists. split; [vm_compute; reflexivity|].
  assert (H : utf8_valid ([xf0; x9f; x98; x80]
                          ++ lit "aaaaaaaaaaaaaaaaaaabbbb") = true)
    by reflexivity.
  apply utf8_valid_sound in H.
  split; [exact H|]. split; [reflexivity|].
  destruct (fragments_whole_chars bk_split_char
              (fresh_session bk_split_char) (Some cb_ok) [] _
              ltac:(vm_compute; reflexivity) H) as [H1 H2].
  split; [exact H1|]. apply H2.
  repeat (constructor; [unfold short_piece; cbn; lia|]). constructor.
Defined.

(** *** Where the engine delivers broken characters *)

(** The hypothesis on the buffered text is needed by the final flush: with
    a budget of one token the generation stops after the first half of the
    character, and the final flush, which does not look for a character
    boundary, delivers that half. *)
Example final_flush_delivers_incomplete_character :
  exists r,
    run_inference bk_split_char
      (set_n_predict 1 (fresh_session bk_split_char)) (Some cb_ok) [] = Some r /\
    r_exit r = Some ExitBudget /\
    buffered (r_trace r) = [xf0; x9f] /\
    utf8_valid (buffered (r_trace r)) = false /\
    delivered (r_trace r) = [([xf0; x9f], true)].
Proof.
  eexists. split; [vm_compute; reflexivity|]. repeat split; reflexivity.
Qed.

(** Continuation bytes can lead a fragment: a piece of 51 bytes overflows
    the window of 50, the window drops the first byte of the first
    two-byte character, and the margin flush delivers the second byte of
    that character in front of 14 whole characters. *)
Example window_cut_leaves_continuation_byte :
  exists r,
    run_inference bk_long_piece (fresh_session bk_long_piece) (Some cb_ok) []
    = Some r /\
    utf8_valid (buffered (r_trace r)) = true /\
    appended (r_trace r)
    = [ xa9 :: concat (repeat [xc3; xa9] 14);
        concat (repeat [xc3; xa9] 10) ++ lit "a" ].
Proof.
  eexists. split; [vm_compute; reflexivity|]. repeat split; reflexivity.
Qed.

(** The checker is complete. *)
Lemma utf8_valid_from_tail tail rest :
  Forall (fun c => is_cont c = true) tail ->
  utf8_valid_from (length tail) (tail ++ rest) = utf8_valid_from 0 rest.
Proof.
  induction 1 as [|c tail Hc _ IH]; [reflexivity|].
  cbn [length app utf8_valid_from]. rewrite Hc. exact IH.
Qed.

Lemma utf8_valid_complete s : utf8_chars s -> utf8_valid s = true.
Proof.
  unfold utf8_valid.
  induction 1 as [|b tail rest Hb Hlen Hc _ IH]; [reflexivity|].
  cbn [utf8_valid_from]. rewrite Hb, <- Hlen. cbn [andb].
  replace (S (length tail) - 1)%nat with (length tail) by lia.
  rewrite utf8_valid_from_tail by exact Hc. exact IH.
Qed.

Lemma utf8_valid_all l :
  Forall utf8_chars l -> forallb utf8_valid l = true.
Proof.
  induction 1 as [|s l Hs _ IH]; [reflexivity|].
  cbn [forallb]. rewrite (utf8_valid_complete s Hs). exact IH.
Qed.

(** C3 (a defect of the code).  The engine delivers incomplete and
    headless characters, although it searches for a character boundary at
    the marker emit and at the margin flush ("Asegurar UTF-8 válido",
    "Enviar caracteres de forma segura (UTF-8)").
    First input, the scenario of the claim: the 4-byte character U+1F600
    arrives in two pieces and the token budget is 1.  The loop stops after
    the first piece and the final flush, which does no boundary search,
    delivers the first two bytes of the character to the result and to the
    callback.
    Second input: two pieces of 30 bytes, ten characters U+4E2D each, which
    together are well-formed UTF-8.  The second piece makes the buffer 51
    bytes long, the window of 50 bytes drops the leading byte of a
    character, and the margin flush delivers a fragment of 29 bytes that
    begins with the continuation bytes 0xB8 0xAD; one byte of the text
    never reaches the result. *)
Theorem C3_invalid_fragment_delivered :
  (exists r,
      run_inference bk_split_char
        (set_n_predict 1 (fresh_session bk_split_char)) (Some cb_ok) []
      = Some r /\
      r_code r = TCL_OK [xf0; x9f] /\
      delivered (r_trace r) = [([xf0; x9f], true)] /\
      ~ Forall utf8_chars (fragments (r_trace r))) /\
  (exists r,
      run_inference bk_wide_pieces (fresh_session bk_wide_pieces)
        (Some cb_ok) [] = Some r /\
      utf8_chars (buffered (r_trace r)) /\
      length (buffered (r_trace r)) = 60%nat /\
      appended (r_trace r)
      = [ concat (repeat [xe4; xb8; xad] 3);
          [xb8; xad] ++ concat (repeat [xe4; xb8; xad] 9);
          concat (repeat [xe4; xb8; xad] 7) ] /\
      map fst (delivered (r_trace r)) = appended (r_trace r) /\
      ~ Forall utf8_chars (fragments (r_trace r))).
Proof.
  split.
  - eexists. split; [vm_compute; reflexivity|].
    split; [reflexivity|]. split; [reflexivity|].
    intros H. apply utf8_valid_all in H. vm_compute in H. discriminate.
  - eexists. split; [vm_compute; reflexivity|].
    split; [apply utf8_valid_sound; vm_compute; reflexivity|].
    split; [reflexivity|]. split; [reflexivity|]. split; [reflexivity|].
    intros H. apply utf8_valid_all in H. vm_compute in H. discriminate.
Qed.

(** * Further properties of the engine *)

(** ** The boundary search on arbitrary bytes *)

Lemma utf8_walk_reach_any fuel :
  forall s budget,
    (budget <= length s)%nat -> (budget <= fuel)%nat ->
    (budget <= utf8_walk fuel s budget + 3)%nat.
Proof.
  induction fuel as [|fuel IH]; intros s budget Hs Hf; [lia|].
  cbn [utf8_walk]. destruct s as [|b s]; [cbn [length] in Hs; lia|]. cbv zeta.
  pose proof (utf8_char_length_bounds b) as HL.
  destruct (utf8_char_length b <=? budget)%nat eqn:E;
    [apply Nat.leb_le in E|apply Nat.leb_gt in E; lia].
  specialize (IH (drop (utf8_char_length b) (b :: s))
                (budget - utf8_char_length b)%nat).
  rewrite length_drop in IH. lia.
Qed.

Lemma utf8_walk_whole fuel :
  forall s budget,
    (budget <= length s)%nat -> whole_chars (take (utf8_walk fuel s budget) s).
Proof.
  induction fuel as [|fuel IH]; intros s budget Hs; cbn [utf8_walk];
    [rewrite take_0; constructor|].
  destruct s as [|b s]; [constructor|]. cbv zeta.
  pose proof (utf8_char_length_bounds b) as HL.
  destruct (utf8_char_length b <=? budget)%nat eqn:E;
    [apply Nat.leb_le in E|rewrite take_0; constructor].
  set (L := utf8_char_length b) in *.
  set (k := utf8_walk fuel (drop L (b :: s)) (budget - L)).
  assert (HlenL : length (take L (b :: s)) = L)
    by (rewrite length_take; cbn [length] in *; lia).
  assert (Et : take (L + k) (b :: s)
               = take L (b :: s) ++ take k (drop L (b :: s))).
  { rewrite <- (take_drop L (b :: s)) at 1.
    rewrite take_app_add'; [reflexivity|symmetry; exact HlenL]. }
  rewrite Et. clear Et.
  assert (Hk : whole_chars (take k (drop L (b :: s))))
    by (apply IH; rewrite length_drop; lia).
  revert HlenL Hk. generalize (take k (drop L (b :: s))). clear k.
  assert (EL : utf8_char_length b = L) by reflexivity. clearbody L.
  destruct L as [|L']; [lia|]. rewrite firstn_cons. cbn [app length].
  intros rest HlenL Hk. constructor; [rewrite EL; lia|exact Hk].
Qed.

(** The scan stops only in front of a character that does not fit. *)
Lemma utf8_walk_maximal fuel :
  forall s budget,
    (budget <= length s)%nat -> (budget <= fuel)%nat ->
    let k := utf8_walk fuel s budget in
    k = budget \/ (budget < k + utf8_char_length (nth k s x00))%nat.
Proof.
  induction fuel as [|fuel IH]; intros s budget Hs Hf; cbv zeta; [left; cbn; lia|].
  cbn [utf8_walk]. destruct s as [|b s]; [left; cbn [length] in Hs; lia|].
  cbv zeta. pose proof (utf8_char_length_bounds b) as HL.
  destruct (utf8_char_length b <=? budget)%nat eqn:E;
    [apply Nat.leb_le in E|apply Nat.leb_gt in E; right; cbn; lia].
  set (L := utf8_char_length b) in *.
  specialize (IH (drop L (b :: s)) (budget - L)%nat).
  rewrite length_drop in IH. cbv zeta in IH.
  destruct IH as [IH|IH]; [lia..| |]; [left; lia|right].
  set (k := utf8_walk fuel (drop L (b :: s)) (budget - L)) in *.
  assert (En : nth (L + k) (b :: s) x00 = nth k (drop L (b :: s)) x00).
  { rewrite <- (take_drop L (b :: s)) at 1.
    rewrite app_nth2; rewrite length_take; cbn [length] in *;
      [f_equal; lia|lia]. }
  rewrite En. lia.
Qed.

Lemma utf8_walk_mono fuel1 :
  forall fuel2 s budget1 budget2,
    (budget1 <= budget2)%nat -> (budget1 <= fuel1)%nat ->
    (budget2 <= fuel2)%nat ->
    (utf8_walk fuel1 s budget1 <= utf8_walk fuel2 s budget2)%nat.
Proof.
  induction fuel1 as [|fuel1 IH]; intros fuel2 s budget1 budget2 H12 H1 H2;
    cbn [utf8_walk]; [lia|].
  destruct s as [|b s]; [lia|]. cbv zeta.
  pose proof (utf8_char_length_bounds b) as HL.
  destruct (utf8_char_length b <=? budget1)%nat eqn:E;
    [apply Nat.leb_le in E|lia].
  destruct fuel2 as [|fuel2]; [lia|]. cbn [utf8_walk]. cbv zeta.
  assert (E2 : (utf8_char_length b <=? budget2)%nat = true)
    by (apply Nat.leb_le; lia).
  rewrite E2. apply Nat.add_le_mono_l. apply IH; lia.
Qed.

Lemma utf8_walk_fixed fuel1 :
  forall fuel2 s budget,
    (budget <= fuel1)%nat ->
    (utf8_walk fuel1 s budget <= fuel2)%nat ->
    utf8_walk fuel2 s (utf8_walk fuel1 s budget) = utf8_walk fuel1 s budget.
Proof.
  induction fuel1 as [|fuel1 IH]; intros fuel2 s budget H1 H2.
  - cbn [utf8_walk]. destruct fuel2; cbn [utf8_walk]; [reflexivity|].
    destruct s as [|b s]; [reflexivity|]. cbv zeta.
    pose proof (utf8_char_length_bounds b) as HL.
    destruct (utf8_char_length b <=? 0)%nat eqn:E;
      [apply Nat.leb_le in E; lia|reflexivity].
  - cbn [utf8_walk] in *. destruct s as [|b s].
    { destruct fuel2; reflexivity. }
    cbv zeta in *. pose proof (utf8_char_length_bounds b) as HL.
    destruct (utf8_char_length b <=? budget)%nat eqn:E.
    + apply Nat.leb_le in E. set (L := utf8_char_length b) in *.
      set (k := utf8_walk fuel1 (drop L (b :: s)) (budget - L)) in *.
      destruct fuel2 as [|fuel2]; [lia|]. cbn [utf8_walk]. cbv zeta. fold L.
      assert (E2 : (L <=? L + k)%nat = true) by (apply Nat.leb_le; lia).
      rewrite E2. replace (L + k - L)%nat with k by lia.
      f_equal. apply IH; lia.
    + destruct fuel2; cbn [utf8_walk]; [reflexivity|]. cbv zeta.
      destruct (utf8_char_length b <=? 0)%nat eqn:E0;
        [apply Nat.leb_le in E0; lia|reflexivity].
Qed.

Lemma utf8_walk_ascii fuel :
  forall s budget,
    Forall (fun b => utf8_char_length b = 1%nat) s ->
    (budget <= length s)%nat -> (budget <= fuel)%nat ->
    utf8_walk fuel s budget = budget.
Proof.
  induction fuel as [|fuel IH]; intros s budget Hs Hb Hf; cbn [utf8_walk]; [lia|].
  destruct Hs as [|b s Hb1 Hs]; [cbn [length] in Hb; lia|]. cbv zeta.
  rewrite Hb1. destruct budget as [|budget]; [reflexivity|].
  cbn [Nat.leb drop]. rewrite drop_0. cbn [length] in Hb.
  rewrite IH; [lia|exact Hs|lia..].
Qed.

Lemma find_last_utf8_boundary_reach (str : bytes) (max_pos : nat) :
  (find_last_utf8_boundary str max_pos <= Nat.min max_pos (length str))%nat /\
  (Nat.min max_pos (length str) <= find_last_utf8_boundary str max_pos + 3)%nat.
Proof.
  destruct (find_last_utf8_boundary_le str max_pos) as [H1 H2].
  split; [lia|]. rewrite find_last_utf8_boundary_min.
  apply utf8_walk_reach_any; lia.
Qed.

(** X1.  [find_last_utf8_boundary], on any byte string and any limit,
    returns a position that is at most the limit and at most the length
    of the string, and less than one character (at most 3 bytes) short of
    the smaller of the two; in particular it returns 0 for the empty
    string and for the limit 0. *)
Theorem boundary_within_limit (str : bytes) (max_pos : nat) :
  let k := find_last_utf8_boundary str max_pos in
  (k <= Nat.min max_pos (length str))%nat /\
  (Nat.min max_pos (length str) <= k + 3)%nat.
Proof. exact (find_last_utf8_boundary_reach str max_pos). Qed.

(** X2.  The prefix that [find_last_utf8_boundary] selects, in any byte
    string, splits into whole characters by the rule of
    [utf8_char_length], and it is the longest such prefix within the
    limit: either it reaches the limit (or the end of the string), or the
    character that begins at the position returned does not fit. *)
Theorem boundary_prefix_whole (str : bytes) (max_pos : nat) :
  let k := find_last_utf8_boundary str max_pos in
  let limit := Nat.min max_pos (length str) in
  whole_chars (take k str) /\
  (k = limit \/ (limit < k + utf8_char_length (nth k str x00))%nat).
Proof.
  cbv zeta. rewrite find_last_utf8_boundary_min. split.
  - apply utf8_walk_whole. lia.
  - apply (utf8_walk_maximal _ str (Nat.min max_pos (length str))); lia.
Qed.

(** X3.  [find_last_utf8_boundary] is monotone in its limit, and the
    position it returns is a fixed point: searching again with that
    position as the limit returns it unchanged. *)
Theorem boundary_monotone_fixed (str : bytes) (max_pos1 max_pos2 : nat) :
  (max_pos1 <= max_pos2)%nat ->
  (find_last_utf8_boundary str max_pos1
   <= find_last_utf8_boundary str max_pos2)%nat /\
  find_last_utf8_boundary str (find_last_utf8_boundary str max_pos1)
  = find_last_utf8_boundary str max_pos1.
Proof.
  intros H. split.
  - rewrite !find_last_utf8_boundary_min. apply utf8_walk_mono; lia.
  - destruct (find_last_utf8_boundary_le str max_pos1) as [H1 H2].
    rewrite (find_last_utf8_boundary_min str (find_last_utf8_boundary _ _)).
    replace (Nat.min (find_last_utf8_boundary str max_pos1) (length str))
      with (find_last_utf8_boundary str max_pos1) by lia.
    rewrite find_last_utf8_boundary_min.
    set (M := Nat.min max_pos1 (length str)).
    apply (utf8_walk_fixed M (utf8_walk M str M) str M); lia.
Qed.

Lemma boundary_monotone_fixed_witness :
  (find_last_utf8_boundary [xc3; xa9; xe2; x82; xac; x61] 3
   <= find_last_utf8_boundary [xc3; xa9; xe2; x82; xac; x61] 5)%nat /\
  find_last_utf8_boundary [xc3; xa9; xe2; x82; xac; x61]
    (find_last_utf8_boundary [xc3; xa9; xe2; x82; xac; x61] 3)
  = find_last_utf8_boundary [xc3; xa9; xe2; x82; xac; x61] 3.
Proof.
  apply (boundary_monotone_fixed [xc3; xa9; xe2; x82; xac; x61] 3 5). lia.
Defined.

(** X4.  On a string of ASCII bytes (each below 0x80) nothing is held
    back: [find_last_utf8_boundary] returns the limit itself, or the
    length of the string when the limit exceeds it. *)
Theorem boundary_ascii (str : bytes) (max_pos : nat) :
  Forall (fun b => (Byte.to_N b < 0x80)%N) str ->
  find_last_utf8_boundary str max_pos = Nat.min max_pos (length str).
Proof.
  intros H. rewrite find_last_utf8_boundary_min. apply utf8_walk_ascii; [|lia..].
  eapply Forall_impl; [exact H|]. intros b Hb. revert Hb.
  destruct b; vm_compute; congruence.
Qed.

Lemma boundary_ascii_witness :
  find_last_utf8_boundary (lit "hello world") 7
  = Nat.min 7 (length (lit "hello world")).
Proof.
  apply boundary_ascii. repeat constructor.
Defined.

(** ** The text path, fragment by fragment *)

Lemma emit_spec cb pt f g :
  let g' := snd (emit cb pt f g) in
  trace g' = trace g ++ emit_events cb pt f (cb_calls g) /\
  resp g' = resp g ++ f /\
  text_buffer g' = text_buffer g /\
  p_cnt g' = p_cnt g /\ g_n_past g' = g_n_past g /\
  cb_calls g' = (cb_calls g + match cb with Some _ => 1 | None => 0 end)%nat /\
  fst (emit cb pt f g)
  = match cb with Some c => c (cb_calls g) (cb_arg pt f) | None => true end.
Proof.
  unfold emit, eval_callback, emit_events, dstring_append, log.
  destruct cb as [c|]; cbn.
  - rewrite <- app_assoc. repeat split; lia.
  - repeat split; lia.
Qed.

(** The text path written with [marker_prefix], [margin_prefix] and
    [emit]. *)
Lemma text_step_shape cb piece g :
  text_step cb piece g
  = let tb := window (text_buffer g ++ piece) in
    let g0 := set_text_buffer tb (log (EvBuffer piece) g) in
    if found_tag tb then
      Leave ExitMarker
        match marker_prefix tb with
        | Some f => snd (emit cb MarkerEmit f g0)
        | None => g0
        end
    else
      match margin_prefix tb with
      | Some f =>
          if fst (emit cb MarginFlush f g0)
          then Continue (set_text_buffer (drop (length f) tb)
                           (snd (emit cb MarginFlush f g0)))
          else Leave ExitCallbackError (snd (emit cb MarginFlush f g0))
      | None => Continue g0
      end.
Proof.
  unfold text_step. cbv zeta.
  change (if (BUFFER_SIZE <? length (text_buffer g ++ piece))%nat
          then substr_from (text_buffer g ++ piece)
                 (length (text_buffer g ++ piece) - BUFFER_SIZE)
          else text_buffer g ++ piece)
    with (window (text_buffer g ++ piece)).
  generalize (window (text_buffer g ++ piece)). intros tb.
  generalize (set_text_buffer tb (log (EvBuffer piece) g)). intros g0.
  unfold marker_prefix, margin_prefix, substr_to, substr_from. cbv zeta.
  destruct (found_tag tb).
  - f_equal. destruct (first_tag_pos tb tags) as [tag_pos|]; [|reflexivity].
    destruct (take tag_pos tb) as [|b0 before] eqn:Eb; [reflexivity|].
    destruct (0 <? _)%nat; reflexivity.
  - destruct (20 <? length tb)%nat; [|reflexivity].
    pose proof (find_last_utf8_boundary_le tb (length tb - 20)) as [Hk _].
    destruct (0 <? find_last_utf8_boundary tb (length tb - 20))%nat;
      [|reflexivity].
    unfold emit. cbn [cb_arg].
    destruct (eval_callback cb MarginFlush _ _) as [ok g1]. cbn [fst snd].
    rewrite length_take, Nat.min_l by exact Hk. reflexivity.
Qed.

Lemma final_flush_shape cb g :
  final_flush cb g
  = match text_buffer g with
    | [] => g
    | _ :: _ =>
        if has_partial_tag (text_buffer g) then g
        else snd (emit cb FinalFlush (text_buffer g) g)
    end.
Proof. reflexivity. Qed.

(** ** One pass of the loop, case by case *)

(** The ways through the body of the loop: the context is full; one of
    the first two shields stops the token; the token's text goes through
    the text path and the token is decoded unless the text path left the
    loop; the token has no text that fits the piece buffer and is
    decoded. *)
Lemma gen_step_elim bk n_ctx_ cb stop_ids g (P : step_result -> Prop) :
  let id := bk_sample bk (Z.to_nat (p_cnt g)) in
  let gs := log (EvSample id) g in
  (n_ctx_ <= g_n_past g -> P (Leave ExitContextFull g)) ->
  (g_n_past g < n_ctx_ ->
   forall why, shield_hit bk stop_ids id why -> P (Leave why gs)) ->
  (g_n_past g < n_ctx_ -> ordinary bk stop_ids id ->
   (0 < length (bk_piece bk id) <= 511)%nat ->
   P (match text_step cb (bk_piece bk id) gs with
      | Continue gt => decode_step bk id gt
      | Leave why gt => Leave why gt
      end)) ->
  (g_n_past g < n_ctx_ -> ordinary bk stop_ids id ->
   (length (bk_piece bk id) = 0 \/ 511 < length (bk_piece bk id))%nat ->
   P (decode_step bk id gs)) ->
  P (gen_step bk n_ctx_ cb stop_ids g).
Proof.
  cbv zeta. intros Hfull Hshield Htext Hskip. unfold gen_step.
  destruct (n_ctx_ <=? g_n_past g) eqn:Hctx;
    [apply Hfull; lia|apply Z.leb_gt in Hctx]. cbv zeta.
  set (id := bk_sample bk (Z.to_nat (p_cnt g))) in *.
  unfold ordinary in *.
  destruct (llama_vocab_is_eog bk id) eqn:E1.
  { apply Hshield; [lia|exact E1]. }
  destruct (bk_attr_control bk id) eqn:E2.
  { apply Hshield; [lia|split; assumption]. }
  destruct (existsb (Z.eqb id) stop_ids) eqn:E3.
  { apply Hshield; [lia|repeat split; assumption]. }
  unfold llama_token_to_piece. cbv zeta.
  destruct (length (bk_piece bk id) <=? 511)%nat eqn:El;
    [apply Nat.leb_le in El|apply Nat.leb_gt in El].
  - destruct (0 <? Z.of_nat (length (bk_piece bk id))) eqn:E0; cbn [andb].
    + assert (E5 : (Z.of_nat (length (bk_piece bk id)) <? 512) = true)
        by (apply Z.ltb_lt; lia).
      rewrite E5. apply Htext; auto. lia.
    + apply Hskip; auto. lia.
  - assert (E0 : (0 <? - Z.of_nat (length (bk_piece bk id))) = false)
      by (apply Z.ltb_ge; lia).
    rewrite E0. cbn [andb]. apply Hskip; auto.
Qed.

Lemma decode_step_spec bk id g :
  let b := fill_batch [] id (g_n_past g) true in
  let g' := state_of (decode_step bk id g) in
  trace g' = trace g ++ [EvDecode b (bk_decode bk b)] /\
  text_buffer g' = text_buffer g /\ resp g' = resp g /\
  cb_calls g' = cb_calls g /\ g_n_past g' = g_n_past g + 1 /\
  decode_step bk id g
  = if bk_decode bk b then Continue g' else Leave ExitDecodeError g'.
Proof.
  cbv zeta. unfold decode_step. cbv zeta.
  destruct (bk_decode bk _); cbn; repeat split; reflexivity.
Qed.

Lemma shield_hit_not_ordinary bk stop_ids id why :
  shield_hit bk stop_ids id why ->
  ~ ordinary bk stop_ids id /\
  (why = ExitEog \/ why = ExitControl \/ why = ExitStopId).
Proof.
  unfold ordinary. destruct why; cbn; try tauto.
  - intros H. split; [intros (H1 & _); congruence|auto].
  - intros (_ & H). split; [intros (_ & H1 & _); congruence|auto].
  - intros (_ & _ & H). split; [intros (_ & _ & H1); congruence|auto].
Qed.

(** ** Tokens sampled and tokens decoded *)

Lemma samples_app tr1 tr2 : samples (tr1 ++ tr2) = samples tr1 ++ samples tr2.
Proof. apply omap_app. Qed.

Lemma decodes_app tr1 tr2 : decodes (tr1 ++ tr2) = decodes tr1 ++ decodes tr2.
Proof. apply omap_app. Qed.

Lemma appends_app tr1 tr2 : appends (tr1 ++ tr2) = appends tr1 ++ appends tr2.
Proof. apply omap_app. Qed.

Lemma appended_app tr1 tr2 :
  appended (tr1 ++ tr2) = appended tr1 ++ appended tr2.
Proof. apply omap_app. Qed.

Lemma delivered_app tr1 tr2 :
  delivered (tr1 ++ tr2) = delivered tr1 ++ delivered tr2.
Proof. apply omap_app. Qed.

Lemma log_projections e g :
  samples (trace (log e g)) = samples (trace g) ++ samples [e] /\
  decodes (trace (log e g)) = decodes (trace g) ++ decodes [e] /\
  buffered (trace (log e g)) = buffered (trace g) ++ buffered [e] /\
  appends (trace (log e g)) = appends (trace g) ++ appends [e] /\
  delivered (trace (log e g)) = delivered (trace g) ++ delivered [e].
Proof.
  unfold log, samples, decodes, buffered, appends, delivered. cbn [trace].
  rewrite !omap_app, concat_app. auto.
Qed.

(** What one pass does to the tokens: the token sampled is the one the
    sampler yields for the pass counter; it is decoded at the current
    position unless a shield, the marker scan or a failed callback ends
    the loop before. *)
Lemma gen_step_tokens bk n_ctx_ cb stop_ids g :
  let id := bk_sample bk (Z.to_nat (p_cnt g)) in
  let b := fill_batch [] id (g_n_past g) true in
  match gen_step bk n_ctx_ cb stop_ids g with
  | Continue g' =>
      ordinary bk stop_ids id /\ g_n_past g < n_ctx_ /\
      samples (trace g') = samples (trace g) ++ [id] /\
      decodes (trace g') = decodes (trace g) ++ [(b, true)]
  | Leave ExitContextFull g' => g' = g /\ n_ctx_ <= g_n_past g
  | Leave ExitBudget g' => False
  | Leave ExitDecodeError g' =>
      ordinary bk stop_ids id /\ g_n_past g < n_ctx_ /\
      samples (trace g') = samples (trace g) ++ [id] /\
      decodes (trace g') = decodes (trace g) ++ [(b, false)]
  | Leave (ExitMarker | ExitCallbackError) g' =>
      ordinary bk stop_ids id /\
      samples (trace g') = samples (trace g) ++ [id] /\
      decodes (trace g') = decodes (trace g)
  | Leave why g' =>
      shield_hit bk stop_ids id why /\
      samples (trace g') = samples (trace g) ++ [id] /\
      decodes (trace g') = decodes (trace g) /\
      buffered (trace g') = buffered (trace g)
  end.
Proof.
  cbv zeta. set (id := bk_sample bk (Z.to_nat (p_cnt g))).
  destruct (log_projections (EvSample id) g) as (S0 & D0 & B0 & _).
  change (samples [EvSample id]) with [id] in S0.
  change (decodes [EvSample id]) with (@nil (llama_batch * bool)) in D0.
  change (buffered [EvSample id]) with (@nil byte) in B0.
  rewrite app_nil_r in D0, B0.
  assert (Hdec : forall gt,
             text_only (log (EvSample id) g) gt ->
             ordinary bk stop_ids id -> g_n_past g < n_ctx_ ->
             match decode_step bk id gt with
             | Continue g' =>
                 ordinary bk stop_ids id /\ g_n_past g < n_ctx_ /\
                 samples (trace g') = samples (trace g) ++ [id] /\
                 decodes (trace g')
                 = decodes (trace g)
                   ++ [(fill_batch [] id (g_n_past g) true, true)]
             | Leave ExitDecodeError g' =>
                 ordinary bk stop_ids id /\ g_n_past g < n_ctx_ /\
                 samples (trace g') = samples (trace g) ++ [id] /\
                 decodes (trace g')
                 = decodes (trace g)
                   ++ [(fill_batch [] id (g_n_past g) true, false)]
             | Leave _ g' => False
             end).
  { intros gt Ht Ho Hc.
    destruct (text_only_projections _ _ Ht) as (S1 & D1 & _).
    destruct Ht as (_ & N1 & _). cbn [log g_n_past] in N1.
    destruct (decode_step_spec bk id gt) as (T & _ & _ & _ & _ & E).
    cbv zeta in T, E. rewrite N1 in T, E.
    remember (state_of (decode_step bk id gt)) as g' eqn:Eg.
    rewrite E. clear E Eg.
    assert (S2 : samples (trace g') = samples (trace g) ++ [id]).
    { rewrite T, samples_app, S1, S0. apply app_nil_r. }
    destruct (bk_decode bk _);
      (split; [exact Ho|]); (split; [exact Hc|]); (split; [exact S2|]);
      rewrite T, decodes_app, D1, D0; reflexivity. }
  apply gen_step_elim; fold id.
  - intros H. auto.
  - intros Hc why Hw.
    destruct (shield_hit_not_ordinary _ _ _ _ Hw) as [_ [-> | [-> | ->]]];
      (split; [exact Hw|]); auto.
  - intros Hc Ho Hlen.
    pose proof (text_only_text_step cb (bk_piece bk id) (log (EvSample id) g))
      as Ht.
    destruct (text_step cb (bk_piece bk id) (log (EvSample id) g))
      as [gt|why gt] eqn:Ets; cbn [state_of] in Ht.
    + specialize (Hdec gt Ht Ho Hc).
      destruct (decode_step bk id gt) as [g'|[] g'];
        try exact Hdec; destruct Hdec.
    + destruct (text_only_projections _ _ Ht) as (S1 & D1 & _).
      apply text_step_leave in Ets.
      destruct Ets as [-> | ->]; (split; [exact Ho|]); split; congruence.
  - intros Hc Ho _.
    specialize (Hdec _ (text_only_refl _) Ho Hc).
    destruct (decode_step bk id _) as [g'|[] g'];
      try exact Hdec; destruct Hdec.
Qed.

Lemma token_batches_snoc n0 ids id :
  token_batches n0 (ids ++ [id])
  = token_batches n0 ids
    ++ [fill_batch [] id (n0 + Z.of_nat (length ids)) true].
Proof.
  unfold token_batches. rewrite imap_app. cbn. rewrite Nat.add_0_r.
  reflexivity.
Qed.

Lemma gen_loop_tokens bk n_ctx_ cb stop_ids max_tokens n0 fuel g0 why g :
  p_cnt g0 = 0 -> g_n_past g0 = n0 -> trace g0 = [] ->
  gen_loop bk n_ctx_ cb stop_ids fuel max_tokens g0 = Some (why, g) ->
  exists ids,
    tokens_at_exit bk stop_ids n0 why (trace g) ids /\
    ids = map (bk_sample bk) (seq 0 (length ids)) /\
    Forall (ordinary bk stop_ids) ids /\
    (ids = [] \/ n0 + Z.of_nat (length ids) <= n_ctx_) /\
    match why with
    | ExitDecodeError => n0 + Z.of_nat (length ids) < n_ctx_
    | _ => True
    end.
Proof.
  intros Hp Hn Ht.
  set (P := fun g : gen_state =>
              p_cnt g = Z.of_nat (length (samples (trace g))) /\
              g_n_past g = n0 + Z.of_nat (length (samples (trace g))) /\
              decodes (trace g)
              = map (fun b => (b, true)) (token_batches n0 (samples (trace g))) /\
              samples (trace g)
              = map (bk_sample bk) (seq 0 (length (samples (trace g)))) /\
              Forall (ordinary bk stop_ids) (samples (trace g)) /\
              (samples (trace g) = []
               \/ n0 + Z.of_nat (length (samples (trace g))) <= n_ctx_)).
  assert (Hsnoc : forall g1, P g1 ->
            samples (trace g1) ++ [bk_sample bk (Z.to_nat (p_cnt g1))]
            = map (bk_sample bk)
                (seq 0 (length (samples (trace g1)
                                ++ [bk_sample bk (Z.to_nat (p_cnt g1))])))).
  { intros g1 (Hc & _ & _ & Hs & _). rewrite length_app. cbn [length].
    rewrite Nat.add_1_r, seq_S, map_app, <- Hs. cbn. rewrite Hc, Nat2Z.id.
    reflexivity. }
  apply (gen_loop_rule bk n_ctx_ cb stop_ids max_tokens P
           (fun why g =>
              exists ids,
                tokens_at_exit bk stop_ids n0 why (trace g) ids /\
                ids = map (bk_sample bk) (seq 0 (length ids)) /\
                Forall (ordinary bk stop_ids) ids /\
                (ids = [] \/ n0 + Z.of_nat (length ids) <= n_ctx_) /\
                match why with
                | ExitDecodeError => n0 + Z.of_nat (length ids) < n_ctx_
                | _ => True
                end)).
  - intros g1 g2 HP Hlt Hs. pose proof (Hsnoc g1 HP) as Hsn.
    destruct HP as (Hc & Hpast & Hd & Hsm & Ho & Hb).
    pose proof (gen_step_tokens bk n_ctx_ cb stop_ids g1) as H.
    pose proof (gen_step_counts bk n_ctx_ cb stop_ids g1) as Hcnt.
    cbv zeta in H. rewrite Hs in H, Hcnt.
    destruct H as (Hid & Hctx & S2 & D2).
    destruct Hcnt as (_ & C1 & C2 & _).
    unfold P. rewrite S2, D2. split; [rewrite length_app; cbn [length]; lia|].
    split; [rewrite length_app; cbn [length]; lia|].
    split; [rewrite token_batches_snoc, map_app, <- Hpast, Hd; reflexivity|].
    split; [exact Hsn|].
    split; [apply Forall_app; split;
            [exact Ho|constructor; [exact Hid|constructor]]|].
    right. rewrite length_app. cbn [length]. lia.
  - intros g1 why1 g2 HP Hlt Hs. pose proof (Hsnoc g1 HP) as Hsn.
    destruct HP as (Hc & Hpast & Hd & Hsm & Ho & Hb).
    pose proof (gen_step_tokens bk n_ctx_ cb stop_ids g1) as H.
    cbv zeta in H. rewrite Hs in H.
    exists (samples (trace g1)).
    split; [|split; [exact Hsm|split; [exact Ho|split; [exact Hb|]]]];
      [|destruct why1; try exact I; destruct H as (_ & Hctx & _); lia].
    destruct why1; cbn [tokens_at_exit].
    + destruct H.
    + destruct H as [-> _]. split; [reflexivity|exact Hd].
    + destruct H as (Hw & S2 & D2 & _). eexists. rewrite S2, D2, Hd. auto.
    + destruct H as (Hw & S2 & D2 & _). eexists. rewrite S2, D2, Hd. auto.
    + destruct H as (Hw & S2 & D2 & _). eexists. rewrite S2, D2, Hd. auto.
    + destruct H as (Hw & S2 & D2). eexists. rewrite S2, D2, Hd. auto.
    + destruct H as (Hw & S2 & D2). eexists. rewrite S2, D2, Hd. auto.
    + destruct H as (Hw & _ & S2 & D2). eexists.
      rewrite S2, D2, Hd, <- Hpast. auto.
  - intros g1 (Hc & Hpast & Hd & Hsm & Ho & Hb) _.
    exists (samples (trace g1)). cbn [tokens_at_exit]. auto 7.
  - unfold P. rewrite Hp, Hn, Ht. cbn. repeat split; try lia; auto.
Qed.

Lemma run_result_trace st cb why g :
  exists evs,
    r_trace (run_result st cb why g) = trace g ++ evs /\ Forall text_event evs.
Proof.
  assert (H0 : exists evs, trace g = trace g ++ evs /\ Forall text_event evs)
    by (exists []; rewrite app_nil_r; split; [reflexivity|constructor]).
  destruct (text_only_final_flush cb g) as (_ & _ & H).
  destruct why; cbn [run_result r_trace]; assumption.
Qed.

Lemma text_events_projections evs :
  Forall text_event evs -> samples evs = [] /\ decodes evs = [].
Proof.
  induction 1 as [|e evs He _ [IH1 IH2]]; [auto|].
  destruct e; cbn in He; try destruct He; cbn; auto.
Qed.

(** The tokens of a whole call of [run_inference]. *)
Lemma run_inference_tokens bk st cb stop_ids :
  exists r why ids,
    run_inference bk st cb stop_ids = Some r /\ r_exit r = Some why /\
    tokens_at_exit bk stop_ids (n_past st) why (r_trace r) ids /\
    Forall (ordinary bk stop_ids) ids /\
    (ids = [] \/ n_past st + Z.of_nat (length ids) <= n_ctx st) /\
    match why with
    | ExitDecodeError => n_past st + Z.of_nat (length ids) < n_ctx st
    | _ => True
    end.
Proof.
  destruct (run_inference_unfold bk st cb stop_ids) as (why & g & Hloop & ->).
  apply (gen_loop_tokens _ _ _ _ _ (n_past st)) in Hloop; try reflexivity.
  destruct Hloop as (ids & Ht & _ & Ho & Hb & Hde).
  exists (run_result st cb why g), why, ids.
  split; [reflexivity|]. split; [apply run_result_exit|].
  split; [|repeat split; assumption].
  destruct (run_result_trace st cb why g) as (evs & -> & Hevs).
  destruct (text_events_projections evs Hevs) as [E1 E2].
  unfold tokens_at_exit in *.
  rewrite samples_app, decodes_app, E1, E2, !app_nil_r. exact Ht.
Qed.

Lemma decoded_tokens_batches n0 ids :
  map be_token (concat (token_batches n0 ids)) = ids.
Proof.
  unfold token_batches.
  assert (H : forall (f : nat -> Z) ids,
             map be_token
               (concat (imap (fun i id => fill_batch [] id (f i) true) ids))
             = ids).
  { intros f l. revert f. induction l as [|id l IH]; intros f; [reflexivity|].
    cbn. f_equal. apply (IH (fun i => f (S i))). }
  apply (H (fun i => n0 + Z.of_nat i)).
Qed.

(** X5.  Every call of [run_inference] returns, and the batches it
    submitted to the decoder are these: each holds one token, asks for
    logits, and sits at the position after the previous one, the first at
    the session's position; the tokens are, in order, the tokens sampled,
    of which at most the last was not submitted; every batch but possibly
    the last was accepted; and when a batch was submitted, the position
    after the last one does not exceed [n_ctx]. *)
Theorem generation_batches bk st cb stop_ids :
  exists r,
    run_inference bk st cb stop_ids = Some r /\
    let ss := samples (r_trace r) in
    let ds := decodes (r_trace r) in
    map fst ds = token_batches (n_past st) (take (length ds) ss) /\
    (length ds <= length ss <= length ds + 1)%nat /\
    Forall (fun d => snd d = true) (removelast ds) /\
    (ds = [] \/ n_past st + Z.of_nat (length ds) <= n_ctx st).
Proof.
  destruct (run_inference_tokens bk st cb stop_ids)
    as (r & why & ids & Hr & _ & Ht & _ & Hb & Hde).
  exists r. split; [exact Hr|]. cbv zeta.
  assert (Hmap : forall l : list llama_batch,
             map fst (map (fun b => (b, true)) l) = l)
    by (intros l; rewrite map_map; apply map_id).
  assert (Hall : forall l : list llama_batch,
             Forall (fun d : llama_batch * bool => snd d = true)
               (map (fun b => (b, true)) l))
    by (intros l; apply Forall_map, Forall_forall; reflexivity).
  assert (Hlen : length (token_batches (n_past st) ids) = length ids)
    by (unfold token_batches; apply length_imap).
  assert (Hnil : ids = [] -> token_batches (n_past st) ids = [])
    by (intros ->; reflexivity).
  assert (Hrl : forall l : list (llama_batch * bool),
             Forall (fun d => snd d = true) l ->
             Forall (fun d => snd d = true) (removelast l)).
  { intros l Hl. induction Hl as [|x l Hx Hl IH]; [constructor|].
    cbn. destruct l; [constructor|]. constructor; assumption. }
  destruct why; cbn [tokens_at_exit] in Ht;
    try (destruct Ht as (id & -> & _ & ->));
    try (destruct Ht as [-> ->]);
    rewrite ?map_app, ?Hmap, ?length_app, ?length_map, ?Hlen; cbn [length map fst].
  1-7: rewrite ?take_app_length, ?firstn_all.
  1-7: (split; [reflexivity|]); (split; [lia|]);
         (split; [apply Hrl, Hall|]);
         destruct Hb as [Hb|Hb];
         [left; rewrite (Hnil Hb); reflexivity|right; exact Hb].
  rewrite removelast_last, Nat.add_1_r.
  replace (S (length ids)) with (length (ids ++ [id]))
    by (rewrite length_app; cbn; lia).
  rewrite firstn_all, token_batches_snoc.
  split; [reflexivity|]. rewrite length_app. cbn [length].
  split; [lia|]. split; [apply Hall|].
  right. lia.
Qed.

Lemma run_inference_code bk st cb stop_ids r why :
  run_inference bk st cb stop_ids = Some r -> r_exit r = Some why ->
  match why with
  | ExitCallbackError => r_code r = TCL_ERROR ErrCallback
  | ExitDecodeError =>
      r_code r = TCL_ERROR (ErrMessage "Decode failed during generation")
  | _ => exists t, r_code r = TCL_OK t
  end.
Proof.
  destruct (run_inference_unfold bk st cb stop_ids) as (why' & g & _ & ->).
  intros [= <-]. rewrite run_result_exit. intros [= <-].
  destruct why'; cbn; eauto.
Qed.

(** X6.  The first two shields: no end-of-generation token, control
    token or manual stop token is ever submitted to the decoder, and such
    a token ends the generation.  Every sampled token but the last passes
    the shields; when the loop is left through shield 1a, 1b or 2 the
    last sampled token is one that the shield stops, it is not decoded,
    and the call succeeds; when the loop is left in any other way every
    sampled token passes the shields. *)
Theorem generation_shields bk st cb stop_ids :
  exists r why,
    run_inference bk st cb stop_ids = Some r /\ r_exit r = Some why /\
    Forall (ordinary bk stop_ids) (decoded_tokens (r_trace r)) /\
    Forall (ordinary bk stop_ids) (removelast (samples (r_trace r))) /\
    match why with
    | ExitEog | ExitControl | ExitStopId =>
        exists id t,
          last (samples (r_trace r)) = Some id /\
          shield_hit bk stop_ids id why /\
          decoded_tokens (r_trace r) = removelast (samples (r_trace r)) /\
          r_code r = TCL_OK t
    | _ => Forall (ordinary bk stop_ids) (samples (r_trace r))
    end.
Proof.
  destruct (run_inference_tokens bk st cb stop_ids)
    as (r & why & ids & Hr & He & Ht & Ho & _).
  exists r, why. split; [exact Hr|]. split; [exact He|].
  pose proof (run_inference_code bk st cb stop_ids r why Hr He) as Hcode.
  assert (Hmap : forall l : list llama_batch,
             map fst (map (fun b => (b, true)) l) = l)
    by (intros l; rewrite map_map; apply map_id).
  assert (Hrl : forall l : list llama_token,
             Forall (ordinary bk stop_ids) l ->
             Forall (ordinary bk stop_ids) (removelast l)).
  { intros l Hl. induction Hl as [|x l Hx Hl IH]; [constructor|].
    cbn. destruct l; [constructor|]. constructor; assumption. }
  unfold decoded_tokens.
  destruct why; cbn [tokens_at_exit] in Ht;
    try (destruct Ht as (id & -> & Hid & ->));
    try (destruct Ht as [-> ->]);
    rewrite ?map_app, ?Hmap, ?decoded_tokens_batches, ?removelast_last,
      ?last_snoc.
  - auto.
  - auto.
  - destruct Hcode as [t Hc]. split; [exact Ho|]. split; [exact Ho|].
    exists id, t. auto.
  - destruct Hcode as [t Hc]. split; [exact Ho|]. split; [exact Ho|].
    exists id, t. auto.
  - destruct Hcode as [t Hc]. split; [exact Ho|]. split; [exact Ho|].
    exists id, t. auto.
  - split; [exact Ho|]. split; [exact Ho|].
    apply Forall_app. split; [exact Ho|]. constructor; [exact Hid|constructor].
  - split; [exact Ho|]. split; [exact Ho|].
    apply Forall_app. split; [exact Ho|]. constructor; [exact Hid|constructor].
  - cbn [concat map app]. rewrite concat_app, map_app, decoded_tokens_batches.
    cbn. 
    assert (Hall : Forall (ordinary bk stop_ids) (ids ++ [id]))
      by (apply Forall_app; split;
          [exact Ho|constructor; [exact Hid|constructor]]).
    auto.
Qed.

(** ** The two sinks: result string and callback *)

Lemma deliveries_app cb calls l1 l2 :
  deliveries cb calls (l1 ++ l2)
  = deliveries cb calls l1 ++ deliveries cb (calls + length l1) l2.
Proof.
  revert calls. induction l1 as [|[pt f] l1 IH]; intros calls; cbn.
  - rewrite Nat.add_0_r. reflexivity.
  - rewrite IH, Nat.add_succ_r. reflexivity.
Qed.

Lemma window_length w : (length (window w) <= BUFFER_SIZE)%nat.
Proof.
  unfold window, substr_from.
  destruct (BUFFER_SIZE <? length w)%nat eqn:E;
    [apply Nat.ltb_lt in E; rewrite length_drop|apply Nat.ltb_ge in E]; lia.
Qed.

Lemma marker_prefix_size tb f :
  marker_prefix tb = Some f -> (0 < length f <= length tb)%nat.
Proof.
  unfold marker_prefix. destruct (first_tag_pos tb tags) as [pos|]; [|discriminate].
  cbv zeta.
  assert (Hs : (length (take pos tb) <= length tb)%nat)
    by (rewrite length_take; lia).
  revert Hs. generalize (take pos tb). intros s Hs.
  destruct (find_last_utf8_boundary_le s (length s)) as [H _].
  destruct (0 <? _)%nat eqn:E; [apply Nat.ltb_lt in E|discriminate].
  intros [= <-]. rewrite length_take. lia.
Qed.

Lemma margin_prefix_size tb f :
  margin_prefix tb = Some f ->
  (0 < length f)%nat /\ (length f + 20 <= length tb)%nat /\
  f = take (length f) tb /\
  length f = find_last_utf8_boundary tb (length tb - 20).
Proof.
  unfold margin_prefix.
  destruct (20 <? length tb)%nat eqn:E20; [apply Nat.ltb_lt in E20|discriminate].
  cbv zeta.
  destruct (find_last_utf8_boundary_le tb (length tb - 20)) as [H1 H2].
  destruct (0 <? _)%nat eqn:E; [apply Nat.ltb_lt in E|discriminate].
  intros [= <-]. rewrite length_take, Nat.min_l by lia.
  repeat split; lia.
Qed.

Lemma emit_sink_inv cb pt f g :
  sink_inv cb g -> fragment_size (pt, f) ->
  sink_inv cb (snd (emit cb pt f g)).
Proof.
  intros (Hr & Hd & Hc & Hs & Hb) Hf.
  destruct (emit_spec cb pt f g) as (T & R & B & _ & _ & C & _).
  cbv zeta in *. unfold sink_inv. rewrite T, R, B, C, appends_app, delivered_app.
  unfold emit_events.
  assert (Ea : appends (EvAppend pt f
                          :: match cb with
                             | Some c => [EvCallback pt (cb_arg pt f)
                                            (c (cb_calls g) (cb_arg pt f))]
                             | None => []
                             end) = [(pt, f)])
    by (destruct cb; reflexivity).
  rewrite Ea, map_app, concat_app, length_app. cbn [map snd concat length].
  rewrite app_nil_r, <- Hr.
  split; [reflexivity|]. split; [|split; [|split]].
  - destruct cb as [c|]; cbn.
    + rewrite deliveries_app, Hd, Hc. reflexivity.
    + rewrite Hd. reflexivity.
  - destruct cb; lia.
  - apply Forall_app. split; [exact Hs|]. constructor; [exact Hf|constructor].
  - exact Hb.
Qed.

(** Changes of the state that touch no sink. *)
Lemma sink_inv_frame cb g g' :
  resp g' = resp g -> cb_calls g' = cb_calls g ->
  appends (trace g') = appends (trace g) ->
  delivered (trace g') = delivered (trace g) ->
  (length (text_buffer g') <= BUFFER_SIZE)%nat ->
  sink_inv cb g -> sink_inv cb g'.
Proof.
  unfold sink_inv. intros -> -> -> -> Hb (H1 & H2 & H3 & H4 & _). auto.
Qed.

Lemma text_step_sink_inv cb piece g :
  sink_inv cb g -> sink_inv cb (state_of (text_step cb piece g)).
Proof.
  intros Hinv. rewrite text_step_shape. cbv zeta.
  pose proof (window_length (text_buffer g ++ piece)) as Hw.
  set (tb := window (text_buffer g ++ piece)) in *.
  assert (H0 : sink_inv cb (set_text_buffer tb (log (EvBuffer piece) g))).
  { revert Hinv. apply sink_inv_frame; try reflexivity; try exact Hw;
      cbn [set_text_buffer log trace];
      rewrite ?appends_app, ?delivered_app; cbn; apply app_nil_r. }
  revert H0. generalize (set_text_buffer tb (log (EvBuffer piece) g)).
  intros g0 H0.
  destruct (found_tag tb); cbn [state_of].
  - destruct (marker_prefix tb) as [f|] eqn:Em; [|exact H0].
    apply emit_sink_inv; [exact H0|].
    apply marker_prefix_size in Em. split; cbn [fst snd]; unfold BUFFER_SIZE in *; lia.
  - destruct (margin_prefix tb) as [f|] eqn:Em; [|exact H0].
    apply margin_prefix_size in Em. destruct Em as (Hf1 & Hf2 & _).
    assert (H1 : sink_inv cb (snd (emit cb MarginFlush f g0))).
    { apply emit_sink_inv; [exact H0|].
      split; cbn [fst snd]; unfold BUFFER_SIZE in *; lia. }
    destruct (fst (emit cb MarginFlush f g0)); cbn [state_of]; [|exact H1].
    revert H1. apply sink_inv_frame; try reflexivity.
    cbn [set_text_buffer text_buffer]. rewrite length_drop. lia.
Qed.

Lemma gen_step_sink_inv bk n_ctx_ cb stop_ids g :
  sink_inv cb g -> sink_inv cb (state_of (gen_step bk n_ctx_ cb stop_ids g)).
Proof.
  intros Hinv.
  assert (Hlog : sink_inv cb
                   (log (EvSample (bk_sample bk (Z.to_nat (p_cnt g)))) g)).
  { pose proof Hinv as (_ & _ & _ & _ & Hb).
    revert Hinv. apply sink_inv_frame; try reflexivity;
      cbn [log trace text_buffer];
      rewrite ?appends_app, ?delivered_app; cbn; try apply app_nil_r.
    exact Hb. }
  assert (Hdec : forall id gt, sink_inv cb gt ->
                               sink_inv cb (state_of (decode_step bk id gt))).
  { intros id gt Ht. pose proof Ht as (_ & _ & _ & _ & Hb).
    destruct (decode_step_spec bk id gt) as (T & B & R & C & _). cbv zeta in *.
    revert Ht. apply sink_inv_frame; try assumption;
      rewrite ?T, ?B, ?appends_app, ?delivered_app; cbn; try apply app_nil_r.
    exact Hb. }
  apply (gen_step_elim bk n_ctx_ cb stop_ids g
           (fun r => sink_inv cb (state_of r))); cbn [state_of]; auto.
  intros _ _ _.
  pose proof (text_step_sink_inv cb
                (bk_piece bk (bk_sample bk (Z.to_nat (p_cnt g)))) _ Hlog) as Ht.
  destruct (text_step cb _ _) as [gt|why gt]; cbn [state_of] in *; auto.
Qed.

Lemma sink_inv_init cb st : sink_inv cb (gen_init st).
Proof.
  unfold sink_inv, gen_init. cbn. destruct cb; repeat split; try constructor.
  all: unfold BUFFER_SIZE; lia.
Qed.

Lemma final_flush_sink_inv cb g : sink_inv cb g -> sink_inv cb (final_flush cb g).
Proof.
  intros Hinv. rewrite final_flush_shape.
  destruct (text_buffer g) as [|b tb] eqn:E; [exact Hinv|].
  destruct (has_partial_tag (b :: tb)); [exact Hinv|].
  apply emit_sink_inv; [exact Hinv|].
  destruct Hinv as (_ & _ & _ & _ & H). rewrite E in H.
  split; cbn [fst snd length] in *; unfold BUFFER_SIZE in *; lia.
Qed.

Lemma gen_loop_sink_inv bk n_ctx_ cb stop_ids max_tokens fuel g0 why g :
  sink_inv cb g0 ->
  gen_loop bk n_ctx_ cb stop_ids fuel max_tokens g0 = Some (why, g) ->
  sink_inv cb g.
Proof.
  intros H0.
  apply (gen_loop_rule bk n_ctx_ cb stop_ids max_tokens
           (sink_inv cb) (fun _ g => sink_inv cb g)); auto.
  - intros g1 g2 H1 _ Hs.
    pose proof (gen_step_sink_inv bk n_ctx_ cb stop_ids g1 H1) as H.
    rewrite Hs in H. exact H.
  - intros g1 why1 g2 H1 _ Hs.
    pose proof (gen_step_sink_inv bk n_ctx_ cb stop_ids g1 H1) as H.
    rewrite Hs in H. exact H.
Qed.

(** The sinks of a whole call of [run_inference]. *)
Lemma run_inference_sinks bk st cb stop_ids :
  exists r why g,
    run_inference bk st cb stop_ids = Some r /\ r = run_result st cb why g /\
    r_exit r = Some why /\
    sink_inv cb g /\ sink_inv cb (final_flush cb g).
Proof.
  destruct (run_inference_unfold bk st cb stop_ids) as (why & g & Hloop & ->).
  exists (run_result st cb why g), why, g.
  split; [reflexivity|]. split; [reflexivity|].
  split; [apply run_result_exit|].
  assert (H : sink_inv cb g)
    by (exact (gen_loop_sink_inv _ _ _ _ _ _ _ _ _ (sink_inv_init cb st) Hloop)).
  split; [exact H|apply final_flush_sink_inv, H].
Qed.

Lemma appended_appends tr : appended tr = map snd (appends tr).
Proof.
  induction tr as [|e tr IH]; [reflexivity|].
  destruct e; cbn; try exact IH. f_equal. exact IH.
Qed.

(** X7.  Every call of [run_inference] returns.  When it succeeds, its
    result is the concatenation of the fragments appended to the result
    string, read as a C string (cut at the first NUL byte); it fails only
    when the loop was left for a failed callback or a failed decode, and
    then no text is returned. *)
Theorem generation_result_text bk st cb stop_ids :
  exists r,
    run_inference bk st cb stop_ids = Some r /\
    match r_code r with
    | TCL_OK t => t = c_str (concat (appended (r_trace r)))
    | TCL_ERROR e =>
        (e = ErrCallback /\ r_exit r = Some ExitCallbackError) \/
        (e = ErrMessage "Decode failed during generation" /\
         r_exit r = Some ExitDecodeError)
    end.
Proof.
  destruct (run_inference_sinks bk st cb stop_ids)
    as (r & why & g & Hr & -> & _ & _ & (Hresp & _)).
  eexists. split; [exact Hr|]. rewrite appended_appends.
  destruct why; cbn [run_result r_code r_trace r_exit]; auto;
    rewrite Hresp; reflexivity.
Qed.

(** X8.  The callback follows the result string: in every call of
    [run_inference] with a callback, the callback is evaluated exactly
    once for each fragment appended to the result, in the same order; its
    [k]-th evaluation receives the [k]-th fragment, whole at the marker
    emit and as a C string at the margin flush and the final flush.
    Without a callback nothing is evaluated. *)
Theorem callback_follows_result bk st cb stop_ids :
  exists r,
    run_inference bk st cb stop_ids = Some r /\
    delivered (r_trace r)
    = match cb with
      | Some c => deliveries c 0 (appends (r_trace r))
      | None => []
      end.
Proof.
  destruct (run_inference_sinks bk st cb stop_ids)
    as (r & why & g & Hr & -> & _ & (_ & Hd & _) & (_ & Hd' & _)).
  eexists. split; [exact Hr|].
  destruct why; cbn [run_result r_trace]; assumption.
Qed.

(** X9.  The fragments appended to the result are never empty and never
    longer than the window of 50 bytes; a fragment appended by the margin
    flush is at most 30 bytes long, since 20 bytes stay behind. *)
Theorem fragment_sizes bk st cb stop_ids :
  exists r,
    run_inference bk st cb stop_ids = Some r /\
    Forall fragment_size (appends (r_trace r)).
Proof.
  destruct (run_inference_sinks bk st cb stop_ids)
    as (r & why & g & Hr & -> & _ & (_ & _ & _ & Hs & _) & (_ & _ & _ & Hs' & _)).
  eexists. split; [exact Hr|].
  destruct why; cbn [run_result r_trace]; assumption.
Qed.

(** ** A failed callback at the margin flush *)

Lemma emit_events_ok cb pt f calls :
  pt <> MarginFlush -> Forall no_margin_failure (emit_events cb pt f calls).
Proof.
  intros Hpt. unfold emit_events.
  destruct cb as [c|]; repeat (constructor; [cbn|]); try constructor; auto.
  destruct pt; cbn; auto. congruence.
Qed.

Lemma text_step_margin_failure cb piece g :
  Forall no_margin_failure (trace g) ->
  match text_step cb piece g with
  | Leave ExitCallbackError g' =>
      exists tr f, trace g' = tr ++ [EvCallback MarginFlush f false] /\
                   Forall no_margin_failure tr
  | Continue g' | Leave _ g' => Forall no_margin_failure (trace g')
  end.
Proof.
  intros Hinv. rewrite text_step_shape. cbv zeta.
  set (tb := window (text_buffer g ++ piece)).
  assert (H0 : Forall no_margin_failure
                 (trace (set_text_buffer tb (log (EvBuffer piece) g)))).
  { cbn [set_text_buffer log trace]. apply Forall_app. split; [exact Hinv|].
    repeat constructor. }
  revert H0. generalize (set_text_buffer tb (log (EvBuffer piece) g)).
  intros g0 H0.
  destruct (found_tag tb).
  - destruct (marker_prefix tb) as [f|]; [|exact H0].
    destruct (emit_spec cb MarkerEmit f g0) as (-> & _).
    apply Forall_app. split; [exact H0|]. apply emit_events_ok. discriminate.
  - destruct (margin_prefix tb) as [f|]; [|exact H0].
    destruct (emit_spec cb MarginFlush f g0) as (T & _ & _ & _ & _ & _ & E).
    cbv zeta in T. rewrite E. clear E. revert T.
    generalize (snd (emit cb MarginFlush f g0)). intros g1 T.
    unfold emit_events in T. destruct cb as [c|].
    + destruct (c (cb_calls g0) (cb_arg MarginFlush f)) eqn:Ec.
      * cbn [set_text_buffer trace]. rewrite T. apply Forall_app.
        split; [exact H0|]. repeat constructor.
      * exists (trace g0 ++ [EvAppend MarginFlush f]), (cb_arg MarginFlush f).
        rewrite T, <- app_assoc. split; [reflexivity|].
        apply Forall_app. split; [exact H0|]. repeat constructor.
    + cbn [set_text_buffer trace]. rewrite T. apply Forall_app.
      split; [exact H0|]. repeat constructor.
Qed.

Lemma gen_step_margin_failure bk n_ctx_ cb stop_ids g :
  Forall no_margin_failure (trace g) ->
  match gen_step bk n_ctx_ cb stop_ids g with
  | Leave ExitCallbackError g' =>
      exists tr f, trace g' = tr ++ [EvCallback MarginFlush f false] /\
                   Forall no_margin_failure tr
  | Continue g' | Leave _ g' => Forall no_margin_failure (trace g')
  end.
Proof.
  intros Hinv.
  assert (Hlog : forall id, Forall no_margin_failure (trace (log (EvSample id) g))).
  { intros id. cbn [log trace]. apply Forall_app. split; [exact Hinv|].
    repeat constructor. }
  assert (Hdec : forall id gt,
             Forall no_margin_failure (trace gt) ->
             match decode_step bk id gt with
             | Leave ExitCallbackError g' =>
                 exists tr f, trace g' = tr ++ [EvCallback MarginFlush f false] /\
                              Forall no_margin_failure tr
             | Continue g' | Leave _ g' => Forall no_margin_failure (trace g')
             end).
  { intros id gt Ht.
    destruct (decode_step_spec bk id gt) as (T & _ & _ & _ & _ & E).
    cbv zeta in T, E. rewrite E. clear E.
    assert (H : Forall no_margin_failure (trace (state_of (decode_step bk id gt)))).
    { rewrite T. apply Forall_app. split; [exact Ht|]. repeat constructor. }
    destruct (bk_decode bk _); exact H. }
  apply gen_step_elim.
  - intros _. exact Hinv.
  - intros _ why Hw.
    destruct (shield_hit_not_ordinary _ _ _ _ Hw) as [_ [-> | [-> | ->]]];
      apply Hlog.
  - intros _ _ _.
    pose proof (text_step_margin_failure cb
                  (bk_piece bk (bk_sample bk (Z.to_nat (p_cnt g)))) _
                  (Hlog (bk_sample bk (Z.to_nat (p_cnt g))))) as Ht.
    destruct (text_step cb _ _) as [gt|why gt]; [apply Hdec, Ht|exact Ht].
  - intros _ _ _. apply Hdec, Hlog.
Qed.

(** X10.  A failed callback at the margin flush ends the call at once:
    when the loop of [run_inference] is left for a failed callback, the
    failed evaluation, at a margin flush, is the last event of the call
    (nothing is sampled, decoded, appended or evaluated after it, and the
    token whose text was flushed is not decoded), the call reports the
    failure and the position has advanced by the tokens decoded before.
    In every other call no evaluation of the callback at a margin flush
    has failed. *)
Theorem margin_callback_failure_aborts bk st cb stop_ids :
  exists r,
    run_inference bk st cb stop_ids = Some r /\
    match r_exit r with
    | Some ExitCallbackError =>
        exists tr f,
          r_trace r = tr ++ [EvCallback MarginFlush f false] /\
          Forall no_margin_failure tr /\
          r_code r = TCL_ERROR ErrCallback /\
          n_past (r_state r)
          = n_past st + Z.of_nat (length (accepted (r_trace r)))
    | _ => Forall no_margin_failure (r_trace r)
    end.
Proof.
  destruct (run_inference_unfold bk st cb stop_ids) as (why & g & Hloop & ->).
  eexists. split; [reflexivity|]. rewrite run_result_exit.
  pose proof Hloop as Hcnt.
  apply (gen_loop_counts _ _ _ _ _ (n_past st)) in Hcnt;
    [|apply max_tokens_of_pos|reflexivity..].
  destruct Hcnt as (_ & Hn & _).
  assert (H : match why with
              | ExitCallbackError =>
                  exists tr f,
                    trace g = tr ++ [EvCallback MarginFlush f false] /\
                    Forall no_margin_failure tr
              | _ => Forall no_margin_failure (trace g)
              end).
  { revert Hloop.
    apply (gen_loop_rule bk (n_ctx st) cb stop_ids (max_tokens_of st)
             (fun g => Forall no_margin_failure (trace g))
             (fun why g =>
                match why with
                | ExitCallbackError =>
                    exists tr f,
                      trace g = tr ++ [EvCallback MarginFlush f false] /\
                      Forall no_margin_failure tr
                | _ => Forall no_margin_failure (trace g)
                end)).
    - intros g1 g2 H1 _ Hs.
      pose proof (gen_step_margin_failure bk (n_ctx st) cb stop_ids g1 H1) as H.
      rewrite Hs in H. exact H.
    - intros g1 why1 g2 H1 _ Hs.
      pose proof (gen_step_margin_failure bk (n_ctx st) cb stop_ids g1 H1) as H.
      rewrite Hs in H. destruct why1; exact H.
    - auto.
    - constructor. }
  assert (Hfin : Forall no_margin_failure (trace g) ->
                 Forall no_margin_failure (trace (final_flush cb g))).
  { intros Hg. rewrite final_flush_shape.
    destruct (text_buffer g) as [|b tb]; [exact Hg|].
    destruct (has_partial_tag _); [exact Hg|].
    destruct (emit_spec cb FinalFlush (b :: tb) g) as (-> & _).
    apply Forall_app. split; [exact Hg|]. apply emit_events_ok. discriminate. }
  destruct why; cbn [run_result r_trace r_code r_state set_n_past n_past];
    auto.
  destruct H as (tr & f & E & Htr). exists tr, f.
  repeat split; try assumption. rewrite Hn. lia.
Qed.

(** ** Nothing is lost on the way to the result *)

Lemma emit_events_text cb pt f calls :
  appended (emit_events cb pt f calls) = [f] /\
  pieces (emit_events cb pt f calls) = [] /\
  buffered (emit_events cb pt f calls) = [].
Proof. unfold emit_events. destruct cb; auto. Qed.

Lemma margin_prefix_none tb :
  margin_prefix tb = None -> (length tb <= 23)%nat.
Proof.
  unfold margin_prefix.
  destruct (20 <? length tb)%nat eqn:E20; [apply Nat.ltb_lt in E20|
    apply Nat.ltb_ge in E20; lia].
  cbv zeta. pose proof (find_last_utf8_boundary_reach tb (length tb - 20)) as H.
  destruct (0 <? _)%nat eqn:E; [discriminate|apply Nat.ltb_ge in E]. lia.
Qed.

(** The text path keeps what it buffers: it appends a prefix of the
    buffer and keeps the rest, unless it leaves the loop. *)
Lemma text_step_lossless cb piece g :
  lossless_inv g ->
  match text_step cb piece g with
  | Continue g' => lossless_inv g'
  | Leave ExitMarker g' => found_tag (text_buffer g') = true
  | Leave _ g' =>
      Forall short_piece (pieces (trace g')) ->
      exists held, buffered (trace g') = concat (appended (trace g')) ++ held
  end.
Proof.
  intros Hinv. rewrite text_step_shape. cbv zeta.
  set (tb := window (text_buffer g ++ piece)).
  set (g0 := set_text_buffer tb (log (EvBuffer piece) g)).
  assert (P0 : pieces (trace g0) = pieces (trace g) ++ [piece]).
  { unfold g0. cbn [set_text_buffer log trace]. rewrite pieces_app. reflexivity. }
  assert (B0 : buffered (trace g0) = buffered (trace g) ++ piece).
  { unfold g0. cbn [set_text_buffer log trace]. rewrite buffered_app. cbn.
    rewrite app_nil_r. reflexivity. }
  assert (A0 : appended (trace g0) = appended (trace g)).
  { unfold g0. cbn [set_text_buffer log trace]. rewrite appended_app. cbn.
    apply app_nil_r. }
  assert (T0 : text_buffer g0 = tb) by reflexivity.
  assert (H0 : Forall short_piece (pieces (trace g0)) ->
               buffered (trace g0) = concat (appended (trace g0)) ++ tb).
  { rewrite P0, B0, A0. intros Hp. apply Forall_app in Hp.
    destruct Hp as [Hp Hpiece]. apply Forall_inv in Hpiece.
    destruct (Hinv Hp) as [-> Hlen]. unfold tb. rewrite window_short.
    - rewrite app_assoc. reflexivity.
    - rewrite length_app. unfold short_piece, BUFFER_SIZE in *. lia. }
  clearbody g0. clear P0 B0 A0.
  destruct (found_tag tb) eqn:Ef.
  - destruct (marker_prefix tb) as [f|]; [|rewrite T0; exact Ef].
    destruct (emit_spec cb MarkerEmit f g0) as (_ & _ & -> & _).
    rewrite T0. exact Ef.
  - destruct (margin_prefix tb) as [f|] eqn:Em.
    + destruct (margin_prefix_size tb f Em) as (Hf1 & Hf2 & Hf3 & Hf4).
      pose proof (find_last_utf8_boundary_reach tb (length tb - 20)) as Hk.
      rewrite <- Hf4 in Hk.
      destruct (emit_spec cb MarginFlush f g0) as (T & _ & _).
      destruct (emit_events_text cb MarginFlush f (cb_calls g0)) as (Ea & Ep & Eb).
      assert (H1 : Forall short_piece
                     (pieces (trace (snd (emit cb MarginFlush f g0)))) ->
                   buffered (trace (snd (emit cb MarginFlush f g0)))
                   = concat (appended (trace (snd (emit cb MarginFlush f g0))))
                     ++ drop (length f) tb).
      { rewrite T, pieces_app, buffered_app, appended_app, Ea, Ep, Eb,
          !app_nil_r, concat_app.
        intros Hp. rewrite (H0 Hp). cbn [concat]. rewrite app_nil_r.
        rewrite <- !app_assoc. f_equal.
        rewrite <- (take_drop (length f) tb) at 1. rewrite <- Hf3.
        reflexivity. }
      destruct (fst (emit cb MarginFlush f g0)).
      * intros Hp. cbn [set_text_buffer trace text_buffer] in *.
        split; [apply H1, Hp|]. rewrite length_drop. lia.
      * intros Hp. eexists. apply H1, Hp.
    + intros Hp. rewrite T0. split; [apply H0, Hp|].
      apply margin_prefix_none, Em.
Qed.

Lemma lossless_inv_frame g g' :
  pieces (trace g') = pieces (trace g) ->
  buffered (trace g') = buffered (trace g) ->
  appended (trace g') = appended (trace g) ->
  text_buffer g' = text_buffer g ->
  lossless_inv g -> lossless_inv g'.
Proof. unfold lossless_inv. intros -> -> -> ->. auto. Qed.

Lemma lossless_inv_log bk id g :
  lossless_inv g ->
  lossless_inv (log (EvSample id) g) /\
  lossless_inv (state_of (decode_step bk id g)).
Proof.
  intros H. split.
  - revert H. apply lossless_inv_frame; try reflexivity; cbn [log trace];
      rewrite ?pieces_app, ?buffered_app, ?appended_app; cbn;
      apply app_nil_r.
  - destruct (decode_step_spec bk id g) as (T & B & _). cbv zeta in T, B.
    revert H. apply lossless_inv_frame; try exact B;
      rewrite T, ?pieces_app, ?buffered_app, ?appended_app; cbn;
      apply app_nil_r.
Qed.

(** What the loop has kept of the text when it is left. *)
Lemma gen_loop_lossless bk n_ctx_ cb stop_ids max_tokens fuel g0 why g :
  lossless_inv g0 ->
  gen_loop bk n_ctx_ cb stop_ids fuel max_tokens g0 = Some (why, g) ->
  match why with
  | ExitMarker => found_tag (text_buffer g) = true
  | ExitCallbackError =>
      Forall short_piece (pieces (trace g)) ->
      exists held, buffered (trace g) = concat (appended (trace g)) ++ held
  | _ => lossless_inv g
  end.
Proof.
  intros H0.
  assert (Hstep : forall g1,
             lossless_inv g1 ->
             match gen_step bk n_ctx_ cb stop_ids g1 with
             | Continue g' => lossless_inv g'
             | Leave ExitMarker g' => found_tag (text_buffer g') = true
             | Leave ExitCallbackError g' =>
                 Forall short_piece (pieces (trace g')) ->
                 exists held,
                   buffered (trace g') = concat (appended (trace g')) ++ held
             | Leave _ g' => lossless_inv g'
             end).
  { intros g1 H1.
    assert (Hdec : forall id gt, lossless_inv gt ->
              match decode_step bk id gt with
              | Continue g' => lossless_inv g'
              | Leave ExitMarker g' => found_tag (text_buffer g') = true
              | Leave ExitCallbackError g' =>
                  Forall short_piece (pieces (trace g')) ->
                  exists held,
                    buffered (trace g') = concat (appended (trace g')) ++ held
              | Leave _ g' => lossless_inv g'
              end).
    { intros id gt Ht. destruct (lossless_inv_log bk id gt Ht) as [_ H].
      destruct (decode_step_spec bk id gt) as (_ & _ & _ & _ & _ & E).
      cbv zeta in E. rewrite E. destruct (bk_decode bk _); exact H. }
    apply gen_step_elim.
    - intros _. exact H1.
    - intros _ why1 Hw.
      pose proof (proj1 (lossless_inv_log bk
                           (bk_sample bk (Z.to_nat (p_cnt g1))) g1 H1)) as Hl.
      destruct (shield_hit_not_ordinary _ _ _ _ Hw) as [_ [-> | [-> | ->]]];
        exact Hl.
    - intros _ _ _.
      pose proof (text_step_lossless cb
                    (bk_piece bk (bk_sample bk (Z.to_nat (p_cnt g1))))
                    _ (proj1 (lossless_inv_log bk
                                (bk_sample bk (Z.to_nat (p_cnt g1))) g1 H1)))
        as Ht.
      destruct (text_step cb _ _) as [gt|why1 gt] eqn:Ets; [apply Hdec, Ht|].
      apply text_step_leave in Ets. destruct Ets as [-> | ->]; exact Ht.
    - intros _ _ _.
      apply Hdec, (lossless_inv_log bk
                     (bk_sample bk (Z.to_nat (p_cnt g1))) g1 H1). }
  apply (gen_loop_rule bk n_ctx_ cb stop_ids max_tokens lossless_inv
           (fun why g =>
              match why with
              | ExitMarker => found_tag (text_buffer g) = true
              | ExitCallbackError =>
                  Forall short_piece (pieces (trace g)) ->
                  exists held,
                    buffered (trace g) = concat (appended (trace g)) ++ held
              | _ => lossless_inv g
              end)); auto.
  - intros g1 g2 H1 _ Hs. specialize (Hstep g1 H1). rewrite Hs in Hstep.
    exact Hstep.
  - intros g1 why1 g2 H1 _ Hs. specialize (Hstep g1 H1). rewrite Hs in Hstep.
    destruct why1; exact Hstep.
Qed.

Lemma final_flush_text cb g :
  pieces (trace (final_flush cb g)) = pieces (trace g) /\
  buffered (trace (final_flush cb g)) = buffered (trace g) /\
  ((appended (trace (final_flush cb g)) = appended (trace g) /\
    (text_buffer g = [] \/ has_partial_tag (text_buffer g) = true)) \/
   (appended (trace (final_flush cb g)) = appended (trace g) ++ [text_buffer g] /\
    has_partial_tag (text_buffer g) = false)).
Proof.
  rewrite final_flush_shape.
  destruct (text_buffer g) as [|b tb] eqn:E;
    [split; [reflexivity|split; [reflexivity|left; auto]]|].
  destruct (has_partial_tag (b :: tb)) eqn:Eh;
    [split; [reflexivity|split; [reflexivity|left; auto]]|].
  destruct (emit_spec cb FinalFlush (b :: tb) g) as (-> & _).
  destruct (emit_events_text cb FinalFlush (b :: tb) (cb_calls g))
    as (Ea & Ep & Eb).
  rewrite pieces_app, buffered_app, appended_app, Ea, Ep, Eb, !app_nil_r.
  auto.
Qed.

Lemma run_inference_lossless bk st cb stop_ids r :
  run_inference bk st cb stop_ids = Some r ->
  Forall short_piece (pieces (r_trace r)) ->
  r_exit r <> Some ExitMarker ->
  exists held,
    buffered (r_trace r) = concat (appended (r_trace r)) ++ held /\
    match r_code r with
    | TCL_OK _ => held = [] \/ has_partial_tag held = true
    | TCL_ERROR _ => True
    end.
Proof.
  intros Hr.
  destruct (run_inference_unfold bk st cb stop_ids) as (why & g & Hloop & E).
  rewrite E in Hr. injection Hr as <-. rewrite run_result_exit.
  apply gen_loop_lossless in Hloop;
    [|intros _; split; [reflexivity|cbn; lia]].
  destruct (final_flush_text cb g) as (Ep & Eb & Ea).
  assert (Hok : lossless_inv g ->
                Forall short_piece (pieces (trace (final_flush cb g))) ->
                exists held,
                  buffered (trace (final_flush cb g))
                  = concat (appended (trace (final_flush cb g))) ++ held /\
                  (held = [] \/ has_partial_tag held = true)).
  { intros Hinv. rewrite Ep, Eb. intros Hp. destruct (Hinv Hp) as [-> _].
    destruct Ea as [[-> Hh] | [-> Hh]].
    - exists (text_buffer g). auto.
    - exists []. rewrite concat_app. cbn. rewrite !app_nil_r. auto. }
  destruct why; cbn [run_result r_trace r_code]; intros Hp Hne;
    try (apply Hok; assumption).
  - congruence.
  - destruct (Hloop Hp) as [held Hh]. exists held. auto.
  - destruct (Hloop Hp) as [Hh _]. exists (text_buffer g). auto.
Qed.

(** X11.  Nothing is lost, repeated or reordered on the way to the
    result when the text arrives in pieces of at most 27 bytes and the
    loop is not left through the marker scan: the text that entered the
    streaming buffer is the concatenation of the fragments appended to the
    result, followed by a remainder that was held back; when the call
    succeeds the remainder is empty, or it contains a marker stem and was
    dropped by the final flush. *)
Theorem generation_lossless bk st cb stop_ids r :
  run_inference bk st cb stop_ids = Some r ->
  Forall short_piece (pieces (r_trace r)) ->
  r_exit r <> Some ExitMarker ->
  exists held,
    buffered (r_trace r) = concat (appended (r_trace r)) ++ held /\
    match r_code r with
    | TCL_OK _ => held = [] \/ has_partial_tag held = true
    | TCL_ERROR _ => True
    end.
Proof. apply run_inference_lossless. Qed.

Lemma generation_lossless_witness :
  exists r,
    run_inference bk_21_letters (fresh_session bk_21_letters) (Some cb_ok) []
    = Some r /\
    exists held,
      buffered (r_trace r) = concat (appended (r_trace r)) ++ held /\
      match r_code r with
      | TCL_OK _ => held = [] \/ has_partial_tag held = true
      | TCL_ERROR _ => True
      end.
Proof.
  eexists. split; [vm_compute; reflexivity|].
  apply (generation_lossless bk_21_letters (fresh_session bk_21_letters)
           (Some cb_ok) []).
  - vm_compute. reflexivity.
  - repeat (constructor; [unfold short_piece; cbn; lia|]). constructor.
  - discriminate.
Defined.

(** ** Text and tokens *)

Lemma text_piece_Some bk id :
  (0 < length (bk_piece bk id) <= 511)%nat ->
  text_piece bk id = Some (bk_piece bk id).
Proof.
  intros H. unfold text_piece. cbv zeta.
  rewrite (proj2 (Nat.ltb_lt _ _)), (proj2 (Nat.leb_le _ _)) by lia.
  reflexivity.
Qed.

Lemma text_piece_None bk id :
  (length (bk_piece bk id) = 0 \/ 511 < length (bk_piece bk id))%nat ->
  text_piece bk id = None.
Proof.
  intros H. unfold text_piece. cbv zeta.
  destruct (0 <? length (bk_piece bk id))%nat eqn:E1; [|reflexivity].
  destruct (length (bk_piece bk id) <=? 511)%nat eqn:E2; [|reflexivity].
  apply Nat.ltb_lt in E1. apply Nat.leb_le in E2. lia.
Qed.

(** The pieces that enter the buffer in one pass. *)
Lemma gen_step_pieces bk n_ctx_ cb stop_ids g :
  let id := bk_sample bk (Z.to_nat (p_cnt g)) in
  match gen_step bk n_ctx_ cb stop_ids g with
  | Leave (ExitContextFull | ExitEog | ExitControl | ExitStopId) g' =>
      pieces (trace g') = pieces (trace g)
  | Continue g' | Leave _ g' =>
      pieces (trace g')
      = pieces (trace g) ++ option_list (text_piece bk id)
  end.
Proof.
  cbv zeta. set (id := bk_sample bk (Z.to_nat (p_cnt g))).
  assert (P0 : pieces (trace (log (EvSample id) g)) = pieces (trace g))
    by (cbn [log trace]; rewrite pieces_app; apply app_nil_r).
  assert (Hdec : forall gt l,
             pieces (trace gt) = pieces (trace g) ++ l ->
             match decode_step bk id gt with
             | Leave (ExitContextFull | ExitEog | ExitControl | ExitStopId) g' =>
                 pieces (trace g') = pieces (trace g)
             | Continue g' | Leave _ g' =>
                 pieces (trace g') = pieces (trace g) ++ l
             end).
  { intros gt l Hl. pose proof (decode_step_pieces bk id gt) as H.
    destruct (decode_step_spec bk id gt) as (_ & _ & _ & _ & _ & E).
    cbv zeta in E. rewrite E in *. 
    destruct (bk_decode bk _); cbn [state_of] in H; congruence. }
  apply gen_step_elim; fold id.
  - intros _. reflexivity.
  - intros _ why Hw.
    destruct (shield_hit_not_ordinary _ _ _ _ Hw) as [_ [-> | [-> | ->]]];
      exact P0.
  - intros _ _ Hlen. rewrite (text_piece_Some bk id Hlen). cbn [option_list].
    pose proof (text_step_refined cb (bk_piece bk id) (log (EvSample id) g))
      as Ht. cbv zeta in Ht.
    destruct (text_step cb _ _) as [gt|why gt] eqn:Ets.
    + destruct Ht as (_ & Hp & _). apply Hdec. rewrite Hp, P0. reflexivity.
    + destruct Ht as (_ & Hp & _). rewrite Hp, P0.
      apply text_step_leave in Ets. destruct Ets as [-> | ->]; reflexivity.
  - intros _ _ Hlen. rewrite (text_piece_None bk id Hlen).
    apply Hdec. rewrite P0. cbn [option_list]. rewrite app_nil_r. reflexivity.
Qed.

Lemma gen_loop_pieces bk n_ctx_ cb stop_ids max_tokens fuel g0 why g :
  trace g0 = [] ->
  gen_loop bk n_ctx_ cb stop_ids fuel max_tokens g0 = Some (why, g) ->
  pieces (trace g)
  = omap (text_piece bk)
      match why with
      | ExitEog | ExitControl | ExitStopId => removelast (samples (trace g))
      | _ => samples (trace g)
      end.
Proof.
  intros Ht.
  assert (Hsnoc : forall l id,
             omap (text_piece bk) (l ++ [id])
             = omap (text_piece bk) l ++ option_list (text_piece bk id)).
  { intros l id. rewrite omap_app. cbn. destruct (text_piece bk id); reflexivity. }
  apply (gen_loop_rule bk n_ctx_ cb stop_ids max_tokens
           (fun g => pieces (trace g) = omap (text_piece bk) (samples (trace g)))
           (fun why g =>
              pieces (trace g)
              = omap (text_piece bk)
                  match why with
                  | ExitEog | ExitControl | ExitStopId =>
                      removelast (samples (trace g))
                  | _ => samples (trace g)
                  end)).
  - intros g1 g2 H1 _ Hs.
    pose proof (gen_step_pieces bk n_ctx_ cb stop_ids g1) as Hp.
    pose proof (gen_step_tokens bk n_ctx_ cb stop_ids g1) as Hk.
    cbv zeta in Hp, Hk. rewrite Hs in Hp, Hk.
    destruct Hk as (_ & _ & -> & _). rewrite Hp, H1, Hsnoc. reflexivity.
  - intros g1 why1 g2 H1 _ Hs.
    pose proof (gen_step_pieces bk n_ctx_ cb stop_ids g1) as Hp.
    pose proof (gen_step_tokens bk n_ctx_ cb stop_ids g1) as Hk.
    cbv zeta in Hp, Hk. rewrite Hs in Hp, Hk.
    destruct why1.
    + destruct Hk.
    + destruct Hk as [-> _]. exact H1.
    + destruct Hk as (_ & -> & _). rewrite removelast_last, Hp. exact H1.
    + destruct Hk as (_ & -> & _). rewrite removelast_last, Hp. exact H1.
    + destruct Hk as (_ & -> & _). rewrite removelast_last, Hp. exact H1.
    + destruct Hk as (_ & -> & _). rewrite Hp, H1, Hsnoc. reflexivity.
    + destruct Hk as (_ & -> & _). rewrite Hp, H1, Hsnoc. reflexivity.
    + destruct Hk as (_ & _ & -> & _). rewrite Hp, H1, Hsnoc. reflexivity.
  - auto.
  - rewrite Ht. reflexivity.
Qed.

(** ** Detokenization *)

Lemma detokenize_loop_ints bk ids :
  forall result,
    detokenize_loop bk (map Some ids) result
    = Some (result ++ concat (map (detok_piece bk) ids)).
Proof.
  induction ids as [|id ids IH]; intros result; cbn [map detokenize_loop concat].
  - rewrite app_nil_r. reflexivity.
  - unfold llama_token_to_piece, detok_piece at 1. cbv zeta.
    destruct (length (bk_piece bk id) <=? 255)%nat eqn:E.
    + rewrite IH. destruct (0 <? Z.of_nat (length (bk_piece bk id))) eqn:E0.
      * rewrite <- app_assoc. reflexivity.
      * apply Z.ltb_ge in E0.
        destruct (bk_piece bk id); [reflexivity|cbn in E0; lia].
    + rewrite IH.
      assert (E0 : (0 <? - Z.of_nat (length (bk_piece bk id))) = false)
        by (apply Z.ltb_ge; lia).
      rewrite E0. reflexivity.
Qed.

Lemma detokenize_loop_bad bk l1 l2 :
  forall result, detokenize_loop bk (map Some l1 ++ None :: l2) result = None.
Proof.
  induction l1 as [|id l1 IH]; intros result; cbn [map app detokenize_loop];
    [reflexivity|].
  destruct (llama_token_to_piece bk id 255) as [n piece]. apply IH.
Qed.

(** X12.  [Llama_Detokenize_Cmd] on a list of integers returns the
    concatenation of the pieces of the tokens, in order, read as a C
    string, where a token whose piece does not fit the buffer of 255 bytes
    contributes nothing; the empty list gives the empty string.  If any
    element of the list is not an integer the command fails with "Invalid
    token ID" and returns no text, wherever the element stands. *)
Theorem detokenize_result bk :
  (forall ids,
      Llama_Detokenize_Cmd bk (Some (map Some ids))
      = TCL_OK (c_str (concat (map (detok_piece bk) ids)))) /\
  (forall ids rest,
      Llama_Detokenize_Cmd bk (Some (map Some ids ++ None :: rest))
      = TCL_ERROR (ErrMessage "Invalid token ID")).
Proof.
  unfold Llama_Detokenize_Cmd. split.
  - intros ids. rewrite detokenize_loop_ints. reflexivity.
  - intros ids rest. rewrite detokenize_loop_bad. reflexivity.
Qed.

(** ** Generation and detokenization agree *)

Lemma contains_suffix d s t :
  contains s t = true -> contains (d ++ s) t = true.
Proof.
  rewrite !contains_spec. intros (a & b & ->). exists (d ++ a), b.
  rewrite <- app_assoc. reflexivity.
Qed.

Lemma marker_free_suffix d s :
  marker_free (d ++ s) -> has_partial_tag s = false /\ found_tag s = false.
Proof.
  intros [Hp He].
  assert (Hstem : forall stem, In stem partial_tags -> contains s stem = false).
  { intros stem Hin. destruct (contains s stem) eqn:E; [|reflexivity].
    assert (H : has_partial_tag (d ++ s) = true).
    { apply has_partial_tag_spec. exists stem. split; [exact Hin|].
      apply contains_suffix, E. }
    congruence. }
  assert (Htag : forall stem t,
             In stem partial_tags -> starts_with stem t = true ->
             contains s t = false).
  { intros stem t Hin Hs. destruct (contains s t) eqn:E; [|reflexivity].
    rewrite <- (Hstem stem Hin). symmetry. eapply contains_stem; eassumption. }
  split.
  - destruct (has_partial_tag s) eqn:E; [|reflexivity].
    apply has_partial_tag_spec in E. destruct E as (stem & Hin & Hc).
    rewrite (Hstem stem Hin) in Hc. discriminate.
  - unfold found_tag.
    rewrite (Htag (lit "<end") (lit "<end_of_turn>")),
      (Htag (lit "<start") (lit "<start_of_turn>")),
      (Htag (lit "<|im") (lit "<|im_end|>")),
      (Htag (lit "<|eot") (lit "<|eot_id|>"));
      try reflexivity; try (cbn; tauto).
    destruct (contains s (lit "<|endoftext|>")) eqn:E; [|reflexivity].
    apply (contains_suffix d) in E. congruence.
Qed.

Lemma short_text_pieces bk ids :
  Forall short_piece (omap (text_piece bk) ids) ->
  concat (map (detok_piece bk) ids) = concat (omap (text_piece bk) ids).
Proof.
  induction ids as [|id ids IH]; [reflexivity|].
  assert (Hc : omap (text_piece bk) (id :: ids)
               = option_list (text_piece bk id) ++ omap (text_piece bk) ids)
    by (cbn; destruct (text_piece bk id); reflexivity).
  rewrite Hc. clear Hc. cbn [map concat].
  destruct (Nat.eq_dec (length (bk_piece bk id)) 0%nat) as [E0|E0].
  - rewrite (text_piece_None bk id) by auto. cbn [option_list app]. intros H.
    assert (Ed : detok_piece bk id = []).
    { unfold detok_piece. destruct (bk_piece bk id); [|discriminate].
      reflexivity. }
    rewrite Ed. apply IH, H.
  - destruct (le_lt_dec (length (bk_piece bk id)) 511%nat) as [E1|E1].
    + rewrite (text_piece_Some bk id) by lia. cbn [option_list app concat].
      intros H. inversion H as [|p l Hp Hl]. subst. unfold short_piece in Hp.
      assert (Ed : detok_piece bk id = bk_piece bk id).
      { unfold detok_piece. rewrite (proj2 (Nat.leb_le _ _)) by lia.
        reflexivity. }
      rewrite Ed, IH by exact Hl. reflexivity.
    + rewrite (text_piece_None bk id) by auto. cbn [option_list app]. intros H.
      assert (Ed : detok_piece bk id = []).
      { unfold detok_piece. rewrite (proj2 (Nat.leb_gt _ _)) by lia.
        reflexivity. }
      rewrite Ed. apply IH, H.
Qed.

(** X13.  Generation and detokenization agree.  When the text of a
    generation arrived in pieces of at most 27 bytes and contains neither
    a marker stem nor ["<|endoftext|>"], and the call succeeds, its result
    is the whole text that entered the buffer, read as a C string, and
    [Llama_Detokenize_Cmd] on the tokens that were decoded back returns
    the same string. *)
Theorem generation_detokenize_round_trip bk st cb stop_ids r t :
  run_inference bk st cb stop_ids = Some r ->
  Forall short_piece (pieces (r_trace r)) ->
  marker_free (buffered (r_trace r)) ->
  r_code r = TCL_OK t ->
  t = c_str (buffered (r_trace r)) /\
  Llama_Detokenize_Cmd bk (Some (map Some (decoded_tokens (r_trace r))))
  = TCL_OK t.
Proof.
  intros Hr Hshort Hfree Hcode.
  pose proof (run_inference_lossless bk st cb stop_ids r Hr Hshort) as Hloss.
  destruct (run_inference_unfold bk st cb stop_ids) as (why & g & Hloop & E).
  rewrite E in Hr. injection Hr as <-.
  pose proof (stream_inv_loop _ _ _ _ _ _ _ _ _ (stream_inv_init st) Hloop)
    as [[d Hd] _].
  pose proof (gen_loop_lossless _ _ _ _ _ _ (gen_init st) _ _
                ltac:(intros _; split; [reflexivity|cbn; lia]) Hloop) as Hl.
  pose proof (gen_loop_pieces _ _ _ _ _ _ (gen_init st) _ _ eq_refl Hloop)
    as Hpieces.
  pose proof (gen_loop_tokens _ _ _ _ _ (n_past st) _ (gen_init st) _ _
                eq_refl eq_refl eq_refl Hloop) as (ids & Htok & _).
  pose proof (gen_loop_sink_inv _ _ _ _ _ _ _ _ _ (sink_inv_init cb st) Hloop)
    as Hsink.
  rewrite run_result_exit in Hloss.
  destruct (final_flush_text cb g) as (Ep & Eb & _).
  assert (Hmap : forall l : list llama_batch,
             map fst (map (fun b => (b, true)) l) = l)
    by (intros l; rewrite map_map; apply map_id).
  assert (Hnormal :
            why <> ExitMarker -> why <> ExitCallbackError ->
            why <> ExitDecodeError ->
            r_trace (run_result st cb why g) = trace (final_flush cb g) /\
            r_code (run_result st cb why g)
            = TCL_OK (c_str (resp (final_flush cb g))))
    by (destruct why; cbn; intros; auto; congruence).
  assert (Hdet : forall ids',
             pieces (trace g) = omap (text_piece bk) ids' ->
             decodes (trace g) = map (fun b => (b, true))
                                   (token_batches (n_past st) ids') ->
             why <> ExitMarker -> why <> ExitCallbackError ->
             why <> ExitDecodeError ->
             t = c_str (buffered (r_trace (run_result st cb why g))) /\
             Llama_Detokenize_Cmd bk
               (Some (map Some (decoded_tokens (r_trace (run_result st cb why g)))))
             = TCL_OK t).
  { intros ids' Hp Hdec H1 H2 H3.
    destruct (Hnormal H1 H2 H3) as [Et Ec].
    destruct Hloss as (held & Hb & Hh); [congruence|].
    rewrite Ec in Hh, Hcode. injection Hcode as <-.
    rewrite Et in *. clear Et Ec.
    destruct (marker_free_suffix _ _ (eq_ind _ marker_free Hfree _ Hb))
      as [Hpt _].
    destruct Hh as [-> | Hh]; [|congruence].
    rewrite app_nil_r in Hb.
    destruct (final_flush_sink_inv cb g Hsink) as (Hresp2 & _).
    rewrite Hresp2, <- appended_appends, <- Hb. split; [reflexivity|].
    unfold Llama_Detokenize_Cmd, decoded_tokens.
    assert (Edec : decodes (trace (final_flush cb g)) = decodes (trace g)).
    { destruct (text_only_final_flush cb g) as (_ & _ & evs & Etr & Hevs).
      destruct (text_events_projections evs Hevs) as [_ Ed].
      rewrite Etr, decodes_app, Ed. apply app_nil_r. }
    rewrite Edec, Hdec, Hmap, decoded_tokens_batches.
    rewrite detokenize_loop_ints. cbn [app].
    rewrite short_text_pieces.
    - rewrite <- Hp. change (concat (pieces (trace g))) with (buffered (trace g)).
      rewrite Eb. reflexivity.
    - rewrite <- Hp, <- Ep. exact Hshort. }
  destruct why; cbn [tokens_at_exit] in Htok; cbv beta iota in Hpieces.
  - destruct Htok as [Hs Hdc]. rewrite Hs in Hpieces.
    apply (Hdet ids); try discriminate; assumption.
  - destruct Htok as [Hs Hdc]. rewrite Hs in Hpieces.
    apply (Hdet ids); try discriminate; assumption.
  - destruct Htok as (id & Hs & _ & Hdc). apply (Hdet ids); try discriminate;
      [|exact Hdc]. rewrite Hpieces, Hs, removelast_last. reflexivity.
  - destruct Htok as (id & Hs & _ & Hdc). apply (Hdet ids); try discriminate;
      [|exact Hdc]. rewrite Hpieces, Hs, removelast_last. reflexivity.
  - destruct Htok as (id & Hs & _ & Hdc). apply (Hdet ids); try discriminate;
      [|exact Hdc]. rewrite Hpieces, Hs, removelast_last. reflexivity.
  - exfalso. cbn [run_result r_trace] in Hfree. rewrite Eb, Hd in Hfree.
    apply marker_free_suffix in Hfree. destruct Hfree as [_ Hf]. congruence.
  - cbn in Hcode. discriminate.
  - cbn in Hcode. discriminate.
Qed.

Lemma generation_detokenize_round_trip_witness :
  exists r,
    run_inference bk_hello_world (fresh_session bk_hello_world) None []
    = Some r /\
    r_code r = TCL_OK (lit "Hello, world") /\
    decoded_tokens (r_trace r) = [0; 1; 2] /\
    lit "Hello, world" = c_str (buffered (r_trace r)) /\
    Llama_Detokenize_Cmd bk_hello_world
      (Some (map Some (decoded_tokens (r_trace r))))
    = TCL_OK (lit "Hello, world").
Proof.
  eexists. split; [vm_compute; reflexivity|].
  split; [reflexivity|]. split; [reflexivity|].
  apply (generation_detokenize_round_trip bk_hello_world
           (fresh_session bk_hello_world) None []).
  - vm_compute. reflexivity.
  - repeat (constructor; [unfold short_piece; cbn; lia|]). constructor.
  - split; reflexivity.
  - reflexivity.
Defined.

(** ** Counters of the session *)

(** What a call of [run_inference] does to the session: the capacity and
    the prompt counter stay, the position advances by the tokens submitted
    to the decoder, and [n_gen] is set when the call succeeds. *)
Lemma run_inference_state bk st cb stop_ids :
  exists r,
    run_inference bk st cb stop_ids = Some r /\
    n_ctx (r_state r) = n_ctx st /\ n_eval (r_state r) = n_eval st /\
    sampler (r_state r) = sampler st /\
    n_past (r_state r) = n_past st + Z.of_nat (length (decodes (r_trace r))) /\
    n_past st <= n_past (r_state r) <= Z.max (n_past st) (n_ctx st) /\
    match r_code r with
    | TCL_OK _ =>
        n_gen (r_state r) = Z.of_nat (length (accepted (r_trace r))) /\
        decodes (r_trace r)
        = map (fun b => (b, true)) (accepted (r_trace r))
    | TCL_ERROR _ => n_gen (r_state r) = n_gen st
    end.
Proof.
  destruct (run_inference_unfold bk st cb stop_ids) as (why & g & Hloop & ->).
  eexists. split; [reflexivity|].
  pose proof Hloop as Hc.
  apply (gen_loop_counts _ _ _ _ _ (n_past st)) in Hc;
    [|apply max_tokens_of_pos|reflexivity..].
  cbv zeta in Hc. destruct Hc as (Hp & Hn & Hb & _).
  pose proof Hloop as Htok.
  apply (gen_loop_tokens _ _ _ _ _ (n_past st)) in Htok; try reflexivity.
  destruct Htok as (ids & Htok & _).
  assert (Hdl : length (decodes (trace g))
                = (length (accepted (trace g))
                   + match why with ExitDecodeError => 1 | _ => 0 end)%nat /\
                match why with
                | ExitDecodeError => True
                | _ => decodes (trace g)
                       = map (fun b => (b, true)) (accepted (trace g))
                end).
  { assert (Hgen : forall tr,
               accepted tr
               = omap (fun d : llama_batch * bool =>
                         if snd d then Some (fst d) else None) (decodes tr)).
    { induction tr as [|e tr IH]; [reflexivity|].
      destruct e as [| | | | |b [|]]; cbn; try exact IH.
      f_equal. exact IH. }
    assert (Hall : forall l : list llama_batch,
               omap (fun d : llama_batch * bool =>
                       if snd d then Some (fst d) else None)
                 (map (fun b => (b, true)) l) = l).
    { induction l as [|b l IH]; [reflexivity|]. cbn. f_equal. exact IH. }
    assert (Hmap : forall l : list llama_batch,
               map fst (map (fun b => (b, true)) l) = l)
      by (intros l; rewrite map_map; apply map_id).
    rewrite (Hgen (trace g)).
    destruct why; cbn [tokens_at_exit] in Htok;
      try (destruct Htok as (id & _ & _ & ->));
      try (destruct Htok as [_ ->]);
      rewrite ?omap_app, ?Hall, ?Hmap, ?length_app, ?length_map; cbn;
      rewrite ?app_nil_r; split; auto; lia. }
  destruct Hdl as [Hdl Hacc2].
  destruct (text_only_final_flush cb g) as (Ef1 & Ef2 & evs & Etr & Hevs).
  destruct (text_events_projections evs Hevs) as [_ Ed].
  assert (Ea : accepted (trace (final_flush cb g)) = accepted (trace g)).
  { destruct (text_only_projections _ _ (text_only_final_flush cb g))
      as (_ & _ & H). exact H. }
  assert (Edd : decodes (trace (final_flush cb g)) = decodes (trace g))
    by (rewrite Etr, decodes_app, Ed; apply app_nil_r).
  unfold within_budget in Hb.
  destruct why;
    cbn [run_result r_state r_trace r_code set_n_gen set_n_past n_ctx n_eval
           n_past n_gen sampler];
    rewrite ?Ef1, ?Ef2, ?Ea, ?Edd, ?Hdl, ?Hn, ?Hp;
    repeat split; try reflexivity; try assumption; try lia.
Qed.

Lemma llama_tokenize_len bk text n_max add_special n_tok tokens :
  llama_tokenize bk text n_max add_special = (n_tok, tokens) ->
  0 <= n_tok -> n_tok = Z.of_nat (length tokens).
Proof.
  unfold llama_tokenize. destruct (bk_tokenize bk text add_special) as [toks|].
  - destruct (length toks <=? n_max)%nat; intros [= <- <-]; [reflexivity|].
    cbn [length]. lia.
  - intros [= <- <-]. lia.
Qed.

(** The ways through [Llama_Generate_Cmd], with the state the option loop
    and the reset leave. *)
Lemma generate_outcome bk st prompt opts :
  exists l st2 pos text n_tok tokens,
    l = fst (read_options_loop bk opts st) /\
    pos = (if l_reset l then 0 else n_past st) /\
    n_past st2 = pos /\ n_ctx st2 = n_ctx st /\
    text = build_full_prompt (l_system_msg l) prompt pos /\
    llama_tokenize bk text (length text + 256) (pos =? 0) = (n_tok, tokens) /\
    let tr := [EvTokenize text (pos =? 0)] in
    let batch := fst (fill_prompt_batch tokens 0 n_tok [] pos) in
    (n_tok < 0 /\
     Llama_Generate_Cmd bk st prompt opts
     = Some {| r_state := st2;
               r_code := TCL_ERROR (ErrMessage "Tokenization failed");
               r_trace := tr; r_exit := None |}) \/
    (0 <= n_tok /\ n_ctx st <= pos + n_tok /\
     Llama_Generate_Cmd bk st prompt opts
     = Some {| r_state := st2;
               r_code := TCL_ERROR (ErrContextOverflow pos n_tok (n_ctx st));
               r_trace := tr; r_exit := None |}) \/
    (0 <= n_tok /\ pos + n_tok < n_ctx st /\ n_tok = Z.of_nat (length batch) /\
     bk_decode bk batch = false /\
     Llama_Generate_Cmd bk st prompt opts
     = Some {| r_state := set_n_past (pos + n_tok) st2;
               r_code := TCL_ERROR (ErrMessage "Decode failed");
               r_trace := tr ++ [EvDecode batch false]; r_exit := None |}) \/
    (0 <= n_tok /\ pos + n_tok < n_ctx st /\ n_tok = Z.of_nat (length batch) /\
     bk_decode bk batch = true /\
     Llama_Generate_Cmd bk st prompt opts
     = option_map (prepend_trace (tr ++ [EvDecode batch true]))
         (run_inference bk (set_n_eval n_tok (set_n_past (pos + n_tok) st2))
            (l_cb_name l) (l_stop_ids l))).
Proof.
  unfold Llama_Generate_Cmd.
  destruct (read_options_loop_position bk opts st) as [Ep Ec].
  destruct (read_options_loop bk opts st) as [l st1]. cbn [fst snd] in *.
  set (st2 := if l_reset l then set_n_past 0 st1 else st1).
  assert (E2 : n_past st2 = if l_reset l then 0 else n_past st)
    by (unfold st2; destruct (l_reset l); [reflexivity|exact Ep]).
  assert (E3 : n_ctx st2 = n_ctx st)
    by (unfold st2; destruct (l_reset l); exact Ec).
  clearbody st2. rewrite E3.
  remember (if l_reset l then 0 else n_past st) as pos eqn:Hpos.
  rewrite E2.
  destruct (llama_tokenize bk _ _ _) as [n_tok tokens] eqn:Etok.
  exists l, st2, pos, (build_full_prompt (l_system_msg l) prompt pos),
    n_tok, tokens.
  repeat (split; [reflexivity || assumption|]). cbv zeta.
  destruct (n_tok <? 0) eqn:E0; [apply Z.ltb_lt in E0|apply Z.ltb_ge in E0].
  { left. auto. }
  right.
  destruct (n_ctx st <=? pos + n_tok) eqn:E1;
    [apply Z.leb_le in E1|apply Z.leb_gt in E1].
  { left. auto. }
  right.
  pose proof (llama_tokenize_len _ _ _ _ _ _ Etok E0) as Hlen.
  destruct (fill_prompt_batch_spec tokens 0 n_tok [] pos) as [Eb En].
  destruct (fill_prompt_batch tokens 0 n_tok [] pos) as [batch n'].
  cbn [fst snd length] in *. subst n'. rewrite <- Hlen.
  destruct (bk_decode bk batch); [right|left]; repeat split; auto; lia.
Qed.

(** X14.  [Llama_Generate_Cmd] keeps the position within the capacity of
    the context.  On a session whose position does not exceed [n_ctx],
    every call returns, leaves [n_ctx] as it was, and leaves a position
    that is at most [n_ctx] and at least the position the call started
    from (0 after a [-reset]), whether the call succeeds or fails. *)
Theorem generate_position_bound bk st prompt opts :
  0 <= n_ctx st -> n_past st <= n_ctx st ->
  exists r,
    Llama_Generate_Cmd bk st prompt opts = Some r /\
    n_ctx (r_state r) = n_ctx st /\
    (if l_reset (fst (read_options_loop bk opts st)) then 0 else n_past st)
    <= n_past (r_state r) <= n_ctx st.
Proof.
  intros H0 Hpast.
  destruct (generate_outcome bk st prompt opts)
    as (l & st2 & pos & text & n_tok & tokens & <- & Hpos & E2 & E3 & _ & _ & H).
  rewrite <- Hpos. cbv zeta in H.
  assert (Hp : pos <= n_ctx st) by (subst pos; destruct (l_reset l); lia).
  destruct H as [(_ & ->) | [(_ & _ & ->) | [(Hn0 & Hn & _ & _ & ->) | H]]].
  - eexists. split; [reflexivity|]. cbn [r_state]. lia.
  - eexists. split; [reflexivity|]. cbn [r_state]. lia.
  - eexists. split; [reflexivity|]. cbn [r_state set_n_past n_ctx n_past]. lia.
  - destruct H as (Hn0 & Hn & _ & _ & ->).
    destruct (run_inference_state bk
                (set_n_eval n_tok (set_n_past (pos + n_tok) st2))
                (l_cb_name l) (l_stop_ids l))
      as (r & -> & Hc & _ & _ & _ & Hb & _).
    exists (prepend_trace ([EvTokenize text (pos =? 0)]
                           ++ [EvDecode
                                 (fst (fill_prompt_batch tokens 0 n_tok [] pos))
                                 true]) r).
    split; [reflexivity|]. cbn [prepend_trace r_state].
    cbn [set_n_eval set_n_past n_ctx n_past] in Hc, Hb. lia.
Qed.

Lemma generate_position_bound_witness :
  exists r,
    Llama_Generate_Cmd bk_hello_world
      (set_n_past 7 (fresh_session bk_hello_world)) (lit "hi")
      [opt_system (lit "sys")] = Some r /\
    n_ctx (r_state r) = 4096 /\
    7 <= n_past (r_state r) <= 4096.
Proof.
  apply (generate_position_bound bk_hello_world
           (set_n_past 7 (fresh_session bk_hello_world)) (lit "hi")
           [opt_system (lit "sys")]); vm_compute; discriminate.
Defined.

(** X15.  What [Llama_Generate_Cmd] refuses before it decodes anything.
    With [pos] the position the call starts from and [text] the prompt it
    builds: when the tokenizer fails, or yields more tokens than the
    length of [text] plus 256, the call fails with "Tokenization failed";
    when the tokens do not leave at least one free slot in the context
    ([pos] plus their number is [n_ctx] or more), it fails with the
    context-overflow error that reports [pos], the number of tokens and
    [n_ctx].  In both cases nothing is submitted to the decoder and the
    position is [pos].  In every other case the prompt batch is submitted
    to the decoder. *)
Theorem generate_refusals bk st prompt opts :
  let l := fst (read_options_loop bk opts st) in
  let pos := if l_reset l then 0 else n_past st in
  let text := build_full_prompt (l_system_msg l) prompt pos in
  exists r,
    Llama_Generate_Cmd bk st prompt opts = Some r /\
    match bk_tokenize bk text (pos =? 0) with
    | None =>
        r_code r = TCL_ERROR (ErrMessage "Tokenization failed") /\
        decodes (r_trace r) = [] /\ n_past (r_state r) = pos
    | Some toks =>
        if (length text + 256 <? length toks)%nat then
          r_code r = TCL_ERROR (ErrMessage "Tokenization failed") /\
          decodes (r_trace r) = [] /\ n_past (r_state r) = pos
        else if n_ctx st <=? pos + Z.of_nat (length toks) then
          r_code r = TCL_ERROR
                       (ErrContextOverflow pos (Z.of_nat (length toks))
                          (n_ctx st)) /\
          decodes (r_trace r) = [] /\ n_past (r_state r) = pos
        else
          exists batch ok rest,
            decodes (r_trace r) = (batch, ok) :: rest /\
            map be_token batch = toks
    end.
Proof.
  cbv zeta.
  destruct (generate_outcome bk st prompt opts)
    as (l & st2 & pos & text & n_tok & tokens & <- & <- & E2 & E3 & <- & Etok & H).
  cbv zeta in H. unfold llama_tokenize in Etok.
  destruct (bk_tokenize bk text (pos =? 0)) as [toks|].
  - destruct (length toks <=? length text + 256)%nat eqn:El;
      [apply Nat.leb_le in El|apply Nat.leb_gt in El];
      injection Etok as <- <-.
    + rewrite (proj2 (Nat.ltb_ge _ _)) by lia.
      destruct H as [(Hn & _) | [(_ & Hn & ->) | [(_ & Hn & _ & Hd & ->) | H]]];
        [lia| | |].
      * rewrite (proj2 (Z.leb_le _ _)) by lia. eexists. split; [reflexivity|].
        cbn. auto.
      * rewrite (proj2 (Z.leb_gt _ _)) by lia. eexists. split; [reflexivity|].
        cbn [r_trace]. eexists _, _, _. split; [reflexivity|].
        destruct (fill_prompt_batch_entries toks 0 (Z.of_nat (length toks)) [] pos)
          as [Ht _]. exact Ht.
      * destruct H as (_ & Hn & _ & Hd & ->).
        rewrite (proj2 (Z.leb_gt _ _)) by lia.
        destruct (run_inference_unfold bk
                    (set_n_eval (Z.of_nat (length toks))
                       (set_n_past (pos + Z.of_nat (length toks)) st2))
                    (l_cb_name l) (l_stop_ids l)) as (why & g & _ & ->).
        eexists. split; [reflexivity|]. cbn [option_map prepend_trace r_trace].
        eexists _, _, _. split; [reflexivity|].
        destruct (fill_prompt_batch_entries toks 0 (Z.of_nat (length toks)) [] pos)
          as [Ht _]. exact Ht.
    + rewrite (proj2 (Nat.ltb_lt _ _)) by lia.
      destruct H as [(_ & ->) | [(Hn & _) | [(Hn & _) | (Hn & _)]]]; try lia.
      eexists. split; [reflexivity|]. cbn. rewrite E2. auto.
  - injection Etok as <- <-.
    destruct H as [(_ & ->) | [(Hn & _) | [(Hn & _) | (Hn & _)]]]; try lia.
    eexists. split; [reflexivity|]. cbn. rewrite E2. auto.
Qed.

(** X16.  The counters after a successful [Llama_Generate_Cmd].  The
    decoder accepted the prompt batch and then one batch for each
    generated token; [n_eval] is the number of tokens of the prompt batch,
    [n_gen] the number of generated tokens decoded back, and the position
    is the position the call started from (0 after a [-reset]) plus
    both. *)
Theorem generate_counters bk st prompt opts r t :
  Llama_Generate_Cmd bk st prompt opts = Some r ->
  r_code r = TCL_OK t ->
  exists batch rest,
    decodes (r_trace r) = (batch, true) :: map (fun b => (b, true)) rest /\
    n_eval (r_state r) = Z.of_nat (length batch) /\
    n_gen (r_state r) = Z.of_nat (length rest) /\
    n_past (r_state r)
    = (if l_reset (fst (read_options_loop bk opts st)) then 0 else n_past st)
      + Z.of_nat (length batch) + Z.of_nat (length rest).
Proof.
  destruct (generate_outcome bk st prompt opts)
    as (l & st2 & pos & text & n_tok & tokens & <- & <- & E2 & E3 & _ & _ & H).
  cbv zeta in H.
  destruct H as [(_ & ->) | [(_ & _ & ->) | [(_ & _ & _ & _ & ->) | H]]];
    try (intros [= <-]; discriminate).
  destruct H as (_ & _ & Hlen & _ & ->).
  destruct (run_inference_state bk
              (set_n_eval n_tok (set_n_past (pos + n_tok) st2))
              (l_cb_name l) (l_stop_ids l))
    as (r' & -> & _ & He & _ & Hp & _ & Hc).
  cbn [option_map]. intros [= <-]. cbn [prepend_trace r_code r_state r_trace].
  intros Hcode. rewrite Hcode in Hc. destruct Hc as [Hg Ha].
  exists (fst (fill_prompt_batch tokens 0 n_tok [] pos)), (accepted (r_trace r')).
  cbn [set_n_eval set_n_past n_eval n_past] in He, Hp.
  rewrite decodes_app. cbn [decodes omap app].
  assert (Hd : decodes (r_trace r')
               = map (fun b => (b, true)) (accepted (r_trace r'))).
    by exact Ha.
  split; [rewrite Hd; reflexivity|].
  rewrite He, Hg, Hp, Hd, length_map, <- Hlen. repeat split; lia.
Qed.

Lemma generate_counters_witness :
  exists r,
    Llama_Generate_Cmd bk_hello_world (fresh_session bk_hello_world)
      (lit "hi") [] = Some r /\
    r_code r = TCL_OK (lit "Hello, world") /\
    exists batch rest,
      decodes (r_trace r) = (batch, true) :: map (fun b => (b, true)) rest /\
      n_eval (r_state r) = Z.of_nat (length batch) /\
      n_gen (r_state r) = Z.of_nat (length rest) /\
      n_past (r_state r)
      = (if l_reset (fst (read_options_loop bk_hello_world []
                            (fresh_session bk_hello_world)))
         then 0 else n_past (fresh_session bk_hello_world))
        + Z.of_nat (length batch) + Z.of_nat (length rest).
Proof.
  eexists. split; [vm_compute; reflexivity|]. split; [reflexivity|].
  apply (generate_counters bk_hello_world (fresh_session bk_hello_world)
           (lit "hi") [] _ (lit "Hello, world")); vm_compute; reflexivity.
Defined.

(** ** The option loops *)

Lemma last_cons_cases {A} (x : A) (l : list A) :
  last (x :: l) = match last l with Some y => Some y | None => Some x end.
Proof.
  destruct l as [|y l]; [reflexivity|]. cbn [last].
  destruct (last (y :: l)) eqn:E; [reflexivity|].
  exfalso. revert E. clear. revert y. induction l as [|z l IH]; intros y E.
  - discriminate.
  - cbn [last] in E. apply (IH z). exact E.
Qed.

Lemma omap_cons_cases {A B} (f : A -> option B) (x : A) (l : list A) :
  omap f (x :: l)
  = match f x with Some y => y :: omap f l | None => omap f l end.
Proof. reflexivity. Qed.

Lemma read_options_fold bk opts :
  forall l0 st0,
    let l := fst (fold_left (fun acc o => read_option bk o acc) opts (l0, st0)) in
    l_cb_name l
    = match last (given_callbacks opts) with
      | Some cb => Some cb
      | None => l_cb_name l0
      end /\
    l_system_msg l
    = match last (given_systems opts) with
      | Some s => Some s
      | None => l_system_msg l0
      end /\
    l_reset l = default (l_reset l0) (last (given_resets opts)) /\
    l_stop_ids l = l_stop_ids l0 ++ given_stop_ids opts.
Proof.
  induction opts as [|o opts IH]; intros l0 st0; cbv zeta.
  - cbn. rewrite app_nil_r. auto.
  - cbn [fold_left].
    destruct (read_option bk o (l0, st0)) as [l1 st1] eqn:E1.
    specialize (IH l1 st1). cbv zeta in IH.
    destruct IH as (-> & -> & -> & ->).
    unfold given_callbacks, given_systems, given_resets, given_stop_ids.
    rewrite !omap_cons_cases.
    fold (given_callbacks opts). fold (given_systems opts).
    fold (given_resets opts).
    destruct o as [cb|obj|[b|]|s|[m|]|[sel|]|]; cbn [read_option] in E1;
      injection E1 as <- <-; cbv beta iota;
      cbn [l_cb_name l_system_msg l_reset l_stop_ids];
      rewrite ?last_cons_cases;
      repeat split;
      try (destruct (last _); reflexivity).
    cbn [concat]. unfold push_stop_ids. rewrite app_assoc. reflexivity.
Qed.

(** X17.  The option loop of [Llama_Generate_Cmd] as a whole: of several
    [-callback] or [-system] options the last one counts, of several
    [-reset] options the last one whose value is a boolean, the lists of
    several [-stop_ids] options are concatenated in order, without the
    elements that are not integers; an option that is not given leaves
    the default (no callback, no system message, no reset, no stop
    ids). *)
Theorem generate_option_loop bk opts st :
  let l := fst (read_options_loop bk opts st) in
  l_cb_name l = last (given_callbacks opts) /\
  l_system_msg l = last (given_systems opts) /\
  l_reset l = default false (last (given_resets opts)) /\
  l_stop_ids l = given_stop_ids opts.
Proof.
  cbv zeta. unfold read_options_loop.
  destruct (read_options_fold bk opts no_locals st) as (-> & -> & -> & ->).
  cbn [no_locals l_cb_name l_system_msg l_reset l_stop_ids app].
  repeat split; destruct (last _); reflexivity.
Qed.

(** ** The chat command *)

Lemma read_chat_option_position bk o l st :
  n_past (snd (read_chat_option bk o (l, st))) = n_past st /\
  n_ctx (snd (read_chat_option bk o (l, st))) = n_ctx st.
Proof.
  destruct o as [cb|obj|[b|]|s|[m|]|[sel|]|];
    cbn [read_chat_option read_option snd]; try (split; reflexivity).
  apply apply_options_position.
Qed.

Lemma read_chat_options_loop_position bk opts st :
  n_past (snd (read_chat_options_loop bk opts st)) = n_past st /\
  n_ctx (snd (read_chat_options_loop bk opts st)) = n_ctx st.
Proof.
  unfold read_chat_options_loop. generalize no_locals. revert st.
  induction opts as [|o opts IH]; intros st l; [split; reflexivity|].
  cbn [fold_left].
  destruct (read_chat_option_position bk o l st) as [E1 E2].
  destruct (read_chat_option bk o (l, st)) as [l' st']. cbn [snd] in E1, E2.
  destruct (IH st' l') as [-> ->]. auto.
Qed.

(** The ways through [Llama_Chat] on a list of messages. *)
Lemma chat_outcome bk cbk st msgs_elems opts :
  exists l st2,
    l = fst (read_chat_options_loop bk opts (set_n_past 0 st)) /\
    n_past st2 = 0 /\ n_ctx st2 = n_ctx st /\
    match bk_apply_template cbk (chat_template cbk)
            (collect_messages msgs_elems) with
    | None =>
        Llama_Chat bk cbk st (Some msgs_elems) opts
        = Some {| r_state := st2;
                  r_code := TCL_ERROR (ErrMessage "Template application failed");
                  r_trace := []; r_exit := None |}
    | Some text =>
        exists n_tok tokens,
          llama_tokenize bk text (length text + 1024) true = (n_tok, tokens) /\
          let tr := [EvTokenize text true] in
          let batch := fst (fill_prompt_batch tokens 0 n_tok [] 0) in
          (n_tok < 0 /\
           Llama_Chat bk cbk st (Some msgs_elems) opts
           = Some {| r_state := st2;
                     r_code := TCL_ERROR (ErrMessage "Tokenization failed");
                     r_trace := tr; r_exit := None |}) \/
          (0 <= n_tok /\ n_tok = Z.of_nat (length batch) /\
           bk_decode bk batch = false /\
           Llama_Chat bk cbk st (Some msgs_elems) opts
           = Some {| r_state := set_n_past n_tok st2;
                     r_code := TCL_ERROR (ErrMessage "Decode failed");
                     r_trace := tr ++ [EvDecode batch false];
                     r_exit := None |}) \/
          (0 <= n_tok /\ n_tok = Z.of_nat (length batch) /\
           bk_decode bk batch = true /\
           Llama_Chat bk cbk st (Some msgs_elems) opts
           = option_map (prepend_trace (tr ++ [EvDecode batch true]))
               (run_inference bk (set_n_eval n_tok (set_n_past n_tok st2))
                  (l_cb_name l) (l_stop_ids l)))
    end.
Proof.
  unfold Llama_Chat.
  destruct (read_chat_options_loop_position bk opts (set_n_past 0 st))
    as [Ep Ec].
  destruct (read_chat_options_loop bk opts (set_n_past 0 st)) as [l st2].
  cbn [fst snd set_n_past n_past n_ctx] in *.
  exists l, st2. split; [reflexivity|]. split; [exact Ep|]. split; [exact Ec|].
  destruct (bk_apply_template cbk (chat_template cbk)
              (collect_messages msgs_elems)) as [text|]; [|reflexivity].
  rewrite Ep.
  destruct (llama_tokenize bk text (length text + 1024) true)
    as [n_tok tokens] eqn:Etok.
  exists n_tok, tokens. split; [reflexivity|]. cbv zeta.
  destruct (n_tok <? 0) eqn:E0; [apply Z.ltb_lt in E0|apply Z.ltb_ge in E0].
  { left. auto. }
  right.
  pose proof (llama_tokenize_len _ _ _ _ _ _ Etok E0) as Hlen.
  destruct (fill_prompt_batch_spec tokens 0 n_tok [] 0) as [Eb En].
  destruct (fill_prompt_batch tokens 0 n_tok [] 0) as [batch n'].
  cbn [fst snd length] in *. subst n'.
  replace (0 + Z.of_nat (length tokens)) with n_tok by lia.
  destruct (bk_decode bk batch); [right|left]; repeat split; auto; lia.
Qed.

Lemma decodes_prompt text add_special batch ok :
  decodes ([EvTokenize text add_special] ++ [EvDecode batch ok]) = [(batch, ok)].
Proof. reflexivity. Qed.

Lemma run_inference_submitted bk st cb stop_ids :
  exists r,
    run_inference bk st cb stop_ids = Some r /\
    n_ctx (r_state r) = n_ctx st /\
    n_past (r_state r)
    = n_past st + Z.of_nat (length (concat (map fst (decodes (r_trace r))))).
Proof.
  destruct (run_inference_state bk st cb stop_ids)
    as (r & Hr & Hc & _ & _ & Hp & _).
  destruct (run_inference_tokens bk st cb stop_ids)
    as (r' & why & ids & Hr' & _ & Ht & _).
  rewrite Hr in Hr'. injection Hr' as <-.
  exists r. split; [exact Hr|]. split; [exact Hc|]. rewrite Hp. do 2 f_equal.
  assert (Hmap : forall l : list llama_batch,
             map fst (map (fun b => (b, true)) l) = l)
    by (intros l; rewrite map_map; apply map_id).
  assert (Hlen : forall ids', length (concat (token_batches (n_past st) ids'))
                              = length (token_batches (n_past st) ids')).
  { intros ids'. rewrite <- (length_map be_token), decoded_tokens_batches.
    unfold token_batches. rewrite length_imap. reflexivity. }
  destruct why; cbn [tokens_at_exit] in Ht;
    try (destruct Ht as (id & _ & _ & ->));
    try (destruct Ht as [_ ->]);
    rewrite ?map_app, ?Hmap, ?concat_app, ?length_app, ?length_map, ?Hlen;
    reflexivity.
Qed.

(** X18.  The position counts the tokens submitted to the decoder, not
    the tokens it accepted.  After every call of [Llama_Generate_Cmd],
    whatever its outcome, the position is the position the call started
    from (0 after a [-reset]) plus the number of tokens of all the batches
    the call submitted, prompt batch and generated tokens, accepted or
    rejected; after every call of [Llama_Chat] it is the number of tokens
    of all the batches the call submitted, whatever the position was
    before. *)
Theorem position_counts_submitted_tokens bk st :
  (forall prompt opts,
      exists r,
        Llama_Generate_Cmd bk st prompt opts = Some r /\
        n_past (r_state r)
        = (if l_reset (fst (read_options_loop bk opts st))
           then 0 else n_past st)
          + Z.of_nat (length (concat (map fst (decodes (r_trace r)))))) /\
  (forall cbk messages opts,
      exists r,
        Llama_Chat bk cbk st messages opts = Some r /\
        n_past (r_state r)
        = Z.of_nat (length (concat (map fst (decodes (r_trace r)))))).
Proof.
  split.
  - intros prompt opts.
    destruct (generate_outcome bk st prompt opts)
      as (l & st2 & pos & text & n_tok & tokens & <- & <- & E2 & E3 & _ & _ & H).
    cbv zeta in H.
    destruct H as [(_ & ->) | [(_ & _ & ->) | [(_ & _ & Hl & _ & ->) | H]]].
    + eexists. split; [reflexivity|]. cbn. lia.
    + eexists. split; [reflexivity|]. cbn. lia.
    + eexists. split; [reflexivity|].
      cbn [r_state r_trace set_n_past n_past]. rewrite decodes_prompt.
      cbn [map concat fst]. rewrite app_nil_r. lia.
    + destruct H as (_ & _ & Hl & _ & ->).
      destruct (run_inference_submitted bk
                  (set_n_eval n_tok (set_n_past (pos + n_tok) st2))
                  (l_cb_name l) (l_stop_ids l)) as (r & -> & _ & Hp).
      eexists. split; [reflexivity|].
      cbn [prepend_trace r_state r_trace].
      rewrite Hp, decodes_app, decodes_prompt.
      cbn [set_n_eval set_n_past n_past app map concat fst].
      rewrite length_app. lia.
  - intros cbk [msgs_elems|] opts.
    + destruct (chat_outcome bk cbk st msgs_elems opts)
        as (l & st2 & _ & E2 & E3 & H).
      destruct (bk_apply_template cbk _ _) as [text|].
      * destruct H as (n_tok & tokens & _ & H). cbv zeta in H.
        destruct H as [(_ & ->) | [(_ & Hl & _ & ->) | (_ & Hl & _ & ->)]].
        -- eexists. split; [reflexivity|]. cbn. lia.
        -- eexists. split; [reflexivity|].
           cbn [r_state r_trace set_n_past n_past]. rewrite decodes_prompt.
           cbn [map concat fst]. rewrite app_nil_r. lia.
        -- destruct (run_inference_submitted bk
                       (set_n_eval n_tok (set_n_past n_tok st2))
                       (l_cb_name l) (l_stop_ids l)) as (r & -> & _ & Hp).
           eexists. split; [reflexivity|].
           cbn [prepend_trace r_state r_trace].
           rewrite Hp, decodes_app, decodes_prompt.
           cbn [set_n_eval set_n_past n_past app map concat fst].
           rewrite length_app. lia.
      * rewrite H. eexists. split; [reflexivity|]. cbn. lia.
    + eexists. split; [reflexivity|]. reflexivity.
Qed.

(** X19.  What [Llama_Chat] ingests.  A value that is not a list is
    refused with "Invalid messages list".  Otherwise the messages that
    have both a role and a content, in order, are formatted with the chat
    template; messages that lack one of the two are left out.  The
    formatted text is tokenized with the special tokens added, and the
    prompt batch holds its tokens at the positions 0, 1, 2, ..., whatever
    the position of the session was and whatever its capacity is: the
    command does not compare the number of tokens with [n_ctx].  When the
    template engine or the tokenizer fails (or yields more tokens than the
    length of the text plus 1024), nothing is decoded and the position is
    0. *)
Theorem chat_ingestion bk cbk st opts :
  (exists r,
      Llama_Chat bk cbk st None opts = Some r /\
      r_code r = TCL_ERROR (ErrMessage "Invalid messages list") /\
      r_trace r = [] /\ n_past (r_state r) = 0) /\
  (forall msgs_elems,
      exists r,
        Llama_Chat bk cbk st (Some msgs_elems) opts = Some r /\
        match bk_apply_template cbk (chat_template cbk)
                (collect_messages msgs_elems) with
        | None =>
            r_code r = TCL_ERROR (ErrMessage "Template application failed") /\
            r_trace r = [] /\ n_past (r_state r) = 0
        | Some text =>
            exists rest,
              r_trace r = EvTokenize text true :: rest /\
              match bk_tokenize bk text true with
              | None =>
                  r_code r = TCL_ERROR (ErrMessage "Tokenization failed") /\
                  rest = [] /\ n_past (r_state r) = 0
              | Some toks =>
                  if (length text + 1024 <? length toks)%nat then
                    r_code r = TCL_ERROR (ErrMessage "Tokenization failed") /\
                    rest = [] /\ n_past (r_state r) = 0
                  else
                    exists batch ok rest',
                      rest = EvDecode batch ok :: rest' /\
                      map be_token batch = toks /\
                      map be_pos batch = map Z.of_nat (seq 0 (length toks))
              end
        end).
Proof.
  split; [eexists; split; [reflexivity|]; auto|].
  intros msgs_elems.
  destruct (chat_outcome bk cbk st msgs_elems opts)
    as (l & st2 & _ & E2 & E3 & H).
  destruct (bk_apply_template cbk _ _) as [text|].
  2:{ rewrite H. eexists. split; [reflexivity|]. cbn. auto. }
  destruct H as (n_tok & tokens & Etok & H). cbv zeta in H.
  unfold llama_tokenize in Etok.
  assert (Hbatch : forall toks,
             map be_token (fst (fill_prompt_batch toks 0
                                  (Z.of_nat (length toks)) [] 0)) = toks /\
             map be_pos (fst (fill_prompt_batch toks 0
                                (Z.of_nat (length toks)) [] 0))
             = map Z.of_nat (seq 0 (length toks))).
  { intros toks.
    destruct (fill_prompt_batch_entries toks 0 (Z.of_nat (length toks)) [] 0)
      as [Ht Hp]. split; [exact Ht|]. rewrite Hp. cbn [map app].
    apply map_ext. intros k. lia. }
  destruct (bk_tokenize bk text true) as [toks|].
  - destruct (length toks <=? length text + 1024)%nat eqn:El;
      [apply Nat.leb_le in El|apply Nat.leb_gt in El];
      injection Etok as <- <-.
    + rewrite (proj2 (Nat.ltb_ge _ _)) by lia.
      destruct H as [(Hn & _) | [(_ & _ & _ & ->) | (_ & _ & _ & ->)]]; [lia| |].
      * eexists. split; [reflexivity|]. cbn [r_trace app]. eexists.
        split; [reflexivity|]. eexists _, _, _. split; [reflexivity|].
        apply Hbatch.
      * destruct (run_inference_unfold bk
                    (set_n_eval (Z.of_nat (length toks))
                       (set_n_past (Z.of_nat (length toks)) st2))
                    (l_cb_name l) (l_stop_ids l)) as (why & g & _ & ->).
        eexists. split; [reflexivity|].
        cbn [option_map prepend_trace r_trace app]. eexists.
        split; [reflexivity|]. eexists _, _, _. split; [reflexivity|].
        apply Hbatch.
    + rewrite (proj2 (Nat.ltb_lt _ _)) by lia.
      destruct H as [(_ & ->) | [(Hn & _) | (Hn & _)]]; try lia.
      eexists. split; [reflexivity|]. cbn [r_trace r_code r_state]. eexists.
      split; [reflexivity|]. auto.
  - injection Etok as <- <-.
    destruct H as [(_ & ->) | [(Hn & _) | (Hn & _)]]; try lia.
    eexists. split; [reflexivity|]. cbn [r_trace r_code r_state]. eexists.
    split; [reflexivity|]. auto.
Qed.

(** X20.  The template [Llama_Chat] uses is the one stored in the model
    under ["tokenizer.chat_template"], whether it fits the buffer of 256
    bytes or needs the larger one, with two exceptions: when the model
    has no template or an empty one, and when the template is exactly 256
    bytes long, the built-in fallback template is used. *)
Theorem chat_template_choice cbk :
  chat_template cbk
  = match bk_chat_template cbk with
    | Some v =>
        if (length v =? 0)%nat || (length v =? 256)%nat
        then fallback_template else v
    | None => fallback_template
    end.
Proof.
  unfold chat_template, llama_model_meta_val_str.
  destruct (bk_chat_template cbk) as [v|]; [|reflexivity].
  destruct (0 <? Z.of_nat (length v)) eqn:E0;
    [apply Z.ltb_lt in E0|apply Z.ltb_ge in E0].
  - rewrite (proj2 (Nat.eqb_neq _ _)) by lia. cbn [orb andb].
    destruct (Z.of_nat (length v) <? 256) eqn:E1;
      [apply Z.ltb_lt in E1|apply Z.ltb_ge in E1].
    + rewrite (proj2 (Nat.eqb_neq _ _)) by lia. apply take_ge. lia.
    + destruct (256 <? Z.of_nat (length v)) eqn:E2;
        [apply Z.ltb_lt in E2|apply Z.ltb_ge in E2].
      * rewrite (proj2 (Nat.eqb_neq _ _)) by lia. cbn [snd].
        apply take_ge. lia.
      * rewrite (proj2 (Nat.eqb_eq _ _)) by lia. reflexivity.
  - rewrite (proj2 (Nat.eqb_eq _ _)) by lia. cbn [orb andb].
    destruct (256 <? Z.of_nat (length v)) eqn:E2;
      [apply Z.ltb_lt in E2; lia|reflexivity].
Qed.

(** ** Sessions between commands *)

Lemma f32_between_no_nan lo hi f : f32_between lo hi f -> is_nan f = false.
Proof.
  intros [H _]. destruct f; try reflexivity. exfalso. unfold SFleb in H.
  destruct lo; cbn in H; discriminate.
Qed.

(** [session_ok] looks at the settings only. *)
Lemma session_ok_settings bk a b :
  settings a = settings b -> session_ok bk a -> session_ok bk b.
Proof.
  intros E.
  pose proof (f_equal temp E : temp a = temp b) as E1.
  pose proof (f_equal top_k E : top_k a = top_k b) as E2.
  pose proof (f_equal top_p E : top_p a = top_p b) as E3.
  pose proof (f_equal min_p E : min_p a = min_p b) as E4.
  pose proof (f_equal repeat_penalty E
              : repeat_penalty a = repeat_penalty b) as E5.
  pose proof (f_equal repeat_last_n E
              : repeat_last_n a = repeat_last_n b) as E6.
  pose proof (f_equal presence_penalty E
              : presence_penalty a = presence_penalty b) as E7.
  pose proof (f_equal frequency_penalty E
              : frequency_penalty a = frequency_penalty b) as E8.
  pose proof (f_equal mirostat E : mirostat a = mirostat b) as E9.
  pose proof (f_equal mirostat_tau E
              : mirostat_tau a = mirostat_tau b) as E10.
  pose proof (f_equal mirostat_eta E
              : mirostat_eta a = mirostat_eta b) as E11.
  pose proof (f_equal seed E : seed a = seed b) as E12.
  pose proof (f_equal sampler E : sampler a = sampler b) as E13.
  pose proof (f_equal n_ctx E : n_ctx a = n_ctx b) as E14.
  unfold session_ok, build_chain.
  rewrite E1, E2, E3, E4, E5, E6, E7, E8, E9, E10, E11, E12, E13, E14.
  exact (fun H => H).
Qed.

(** The chain does not depend on the chain stored. *)
Lemma build_chain_set_sampler bk c s :
  build_chain bk (set_sampler c s) = build_chain bk s.
Proof. reflexivity. Qed.

Lemma apply_options_session bk o st :
  session_ok bk st -> session_ok bk (apply_options bk (Some o) st).
Proof.
  intros (Ht & Hk & Hp & Hm & Hn & Hr & Hs & Hc).
  assert (Hnn : no_nan_config st)
    by (repeat split; eauto using f32_between_no_nan).
  pose proof (read_options_no_nan (Some o) st Hnn) as Hrd.
  pose proof (ranges_hold_fields (read_options (Some o) st)
                (apply_options bk (Some o) st) Hrd) as HR.
  rewrite apply_options_fields, clamp_options_fields in HR.
  specialize (HR eq_refl). destruct HR as (R1 & R2 & R3 & R4 & R5 & _).
  destruct (apply_options_no_nan bk (Some o) st Hnn) as (_ & _ & _ & N4).
  destruct (apply_options_position bk (Some o) st) as [_ Ec].
  unfold session_ok. rewrite Ec.
  split; [exact R1|]. split; [exact R2|]. split; [exact R3|].
  split; [exact R4|]. split; [exact N4|]. split; [exact R5|].
  split; [|exact Hc].
  unfold apply_options. generalize (clamp_options (read_options (Some o) st)).
  intros s. cbv zeta. rewrite build_chain_set_sampler. reflexivity.
Qed.

Lemma read_option_session bk o l st :
  session_ok bk st -> session_ok bk (snd (read_option bk o (l, st))).
Proof.
  intros H.
  destruct o as [cb|obj|[b|]|s|[m|]|[sel|]|]; cbn [read_option snd].
  - exact H.
  - apply apply_options_session, H.
  - exact H.
  - exact H.
  - exact H.
  - exact (session_ok_settings bk st (set_n_predict m st) eq_refl H).
  - exact H.
  - exact H.
  - exact H.
  - exact H.
Qed.

Lemma read_options_loop_session bk opts st :
  session_ok bk st -> session_ok bk (snd (read_options_loop bk opts st)).
Proof.
  unfold read_options_loop. generalize no_locals. revert st.
  induction opts as [|o opts IH]; intros st l H; [exact H|].
  cbn [fold_left].
  pose proof (read_option_session bk o l st H) as H1.
  destruct (read_option bk o (l, st)) as [l' st']. apply IH, H1.
Qed.

Lemma read_chat_options_loop_session bk opts st :
  session_ok bk st -> session_ok bk (snd (read_chat_options_loop bk opts st)).
Proof.
  unfold read_chat_options_loop. generalize no_locals. revert st.
  induction opts as [|o opts IH]; intros st l H; [exact H|].
  cbn [fold_left].
  assert (H1 : session_ok bk (snd (read_chat_option bk o (l, st)))).
  { destruct o; cbn [read_chat_option snd]; try exact H;
      apply read_option_session, H. }
  destruct (read_chat_option bk o (l, st)) as [l' st']. apply IH, H1.
Qed.

(** A call of [run_inference] writes the counters only. *)
Lemma run_inference_settings bk st cb stop_ids :
  exists r,
    run_inference bk st cb stop_ids = Some r /\ settings (r_state r) = settings st.
Proof.
  destruct (run_inference_unfold bk st cb stop_ids) as (why & g & _ & ->).
  eexists. split; [reflexivity|]. destruct why; reflexivity.
Qed.

Lemma generate_settings bk st prompt opts :
  exists r,
    Llama_Generate_Cmd bk st prompt opts = Some r /\
    settings (r_state r) = settings (snd (read_options_loop bk opts st)).
Proof.
  unfold Llama_Generate_Cmd.
  destruct (read_options_loop bk opts st) as [l st1]. cbn [snd].
  set (st2 := if l_reset l then set_n_past 0 st1 else st1).
  assert (E2 : settings st2 = settings st1)
    by (unfold st2; destruct (l_reset l); reflexivity).
  clearbody st2.
  destruct (llama_tokenize bk _ _ _) as [n_tok tokens].
  destruct (n_tok <? 0); [eexists; split; [reflexivity|exact E2]|].
  destruct (n_ctx st2 <=? n_past st2 + n_tok);
    [eexists; split; [reflexivity|exact E2]|].
  destruct (fill_prompt_batch tokens 0 n_tok [] (n_past st2)) as [batch n'].
  destruct (bk_decode bk batch); [|eexists; split; [reflexivity|exact E2]].
  destruct (run_inference_settings bk (set_n_eval n_tok (set_n_past n' st2))
              (l_cb_name l) (l_stop_ids l)) as (r & -> & Er).
  eexists. split; [reflexivity|].
  cbn [prepend_trace r_state]. rewrite Er. exact E2.
Qed.

Lemma chat_session bk cbk st messages opts :
  session_ok bk st ->
  exists r,
    Llama_Chat bk cbk st messages opts = Some r /\ session_ok bk (r_state r).
Proof.
  intros H. unfold Llama_Chat.
  pose proof (session_ok_settings bk st (set_n_past 0 st) eq_refl H) as H0.
  destruct messages as [msgs_elems|];
    [|eexists; split; [reflexivity|exact H0]].
  pose proof (read_chat_options_loop_session bk opts _ H0) as H2.
  destruct (read_chat_options_loop bk opts (set_n_past 0 st)) as [l st2].
  cbn [snd] in H2.
  destruct (bk_apply_template cbk _ _) as [formatted|];
    [|eexists; split; [reflexivity|exact H2]].
  destruct (llama_tokenize bk _ _ _) as [n_tok tokens].
  destruct (n_tok <? 0); [eexists; split; [reflexivity|exact H2]|].
  destruct (fill_prompt_batch tokens 0 n_tok [] (n_past st2)) as [batch n'].
  destruct (bk_decode bk batch).
  - destruct (run_inference_settings bk (set_n_eval n_tok (set_n_past n' st2))
                (l_cb_name l) (l_stop_ids l)) as (r & -> & Er).
    eexists. split; [reflexivity|]. cbn [prepend_trace r_state].
    apply (session_ok_settings bk st2); [|exact H2].
    rewrite Er. reflexivity.
  - eexists. split; [reflexivity|].
    exact (session_ok_settings bk st2 (set_n_past n' st2) eq_refl H2).
Qed.

(** X21.  What [Llama_Init_Cmd] creates and what it refuses.  An [n_ctx]
    that is no integer is refused with the message Tcl left; an integer
    below 512 or above 32768 is refused with "n_ctx must be between 512
    and 32768"; both before anything is loaded, whatever the model file.
    With no [n_ctx] (the capacity is then 4096) or one between 512 and
    32768, the command fails with "Failed to load model" when the model
    does not load and with "Failed to create context" when the context
    cannot be made; otherwise it creates a session whose capacity is the
    one asked for, that starts at position 0 with zero counters and no
    token budget of its own ([n_predict] -1), whose sampling parameters lie
    in the ranges of the validation block, and whose chain, built from
    them, has the six stages temperature, top-k, top-p, min-p, penalties,
    distribution. *)
Theorem init_session bk n_ctx_arg model_loads context_created :
  let res := Llama_Init_Cmd bk n_ctx_arg model_loads context_created in
  (n_ctx_arg = Some None -> res = InitError None) /\
  (forall n,
      n_ctx_arg = Some (Some n) -> n < 512 \/ 32768 < n ->
      res = InitError (Some "n_ctx must be between 512 and 32768"%string)) /\
  (forall n,
      (n_ctx_arg = None /\ n = 4096) \/
      (n_ctx_arg = Some (Some n) /\ 512 <= n <= 32768) ->
      match model_loads, context_created with
      | false, _ => res = InitError (Some "Failed to load model"%string)
      | true, false => res = InitError (Some "Failed to create context"%string)
      | true, true =>
          exists st,
            res = InitOk st /\
            n_ctx st = n /\ session_ok bk st /\
            n_past st = 0 /\ n_eval st = 0 /\ n_gen st = 0 /\
            n_predict st = -1 /\
            option_map (map kind_of) (sampler st)
            = Some [K_temp; K_top_k; K_top_p; K_min_p; K_penalties; K_dist]
      end).
Proof.
  assert (Hok : forall n, 512 <= n <= 32768 ->
            let st := apply_options bk None
                        (set_n_ctx n (set_defaults zeroed_state)) in
            n_ctx st = n /\ session_ok bk st /\
            n_past st = 0 /\ n_eval st = 0 /\ n_gen st = 0 /\
            n_predict st = -1 /\
            option_map (map kind_of) (sampler st)
            = Some [K_temp; K_top_k; K_top_p; K_min_p; K_penalties; K_dist]).
  { intros n Hn. cbv zeta. split; [reflexivity|]. split.
    - unfold session_ok. split; [split; reflexivity|].
      split; [cbn; lia|]. split; [split; reflexivity|].
      split; [split; reflexivity|]. split; [reflexivity|].
      split; [reflexivity|]. split; [reflexivity|exact Hn].
    - repeat split. }
  cbv zeta. unfold Llama_Init_Cmd. split; [|split].
  - intros ->. reflexivity.
  - intros n -> Hn.
    rewrite (proj2 (orb_true_iff (n <? 512) (32768 <? n)));
      [reflexivity|].
    destruct Hn as [Hn|Hn]; [left|right]; apply Z.ltb_lt; exact Hn.
  - intros n [[-> ->] | [-> Hn]].
    + destruct model_loads; [|reflexivity].
      destruct context_created; [|reflexivity].
      eexists. split; [reflexivity|]. apply (Hok 4096). lia.
    + rewrite (proj2 (orb_false_iff (n <? 512) (32768 <? n)))
        by (split; apply Z.ltb_ge; lia).
      destruct model_loads; [|reflexivity].
      destruct context_created; [|reflexivity].
      eexists. split; [reflexivity|]. apply Hok. exact Hn.
Qed.

(** The three ways of asking for a capacity, on a model that loads. *)
Lemma init_session_witness :
  Llama_Init_Cmd bk_hello_world (Some None) true true = InitError None /\
  Llama_Init_Cmd bk_hello_world (Some (Some 100)) true true
  = InitError (Some "n_ctx must be between 512 and 32768"%string) /\
  exists st,
    Llama_Init_Cmd bk_hello_world (Some (Some 1000)) true true = InitOk st /\
    n_ctx st = 1000 /\ session_ok bk_hello_world st /\
    n_past st = 0 /\ n_eval st = 0 /\ n_gen st = 0 /\ n_predict st = -1 /\
    option_map (map kind_of) (sampler st)
    = Some [K_temp; K_top_k; K_top_p; K_min_p; K_penalties; K_dist].
Proof.
  split; [|split].
  - exact (proj1 (init_session bk_hello_world (Some None) true true) eq_refl).
  - apply (proj1 (proj2 (init_session bk_hello_world (Some (Some 100))
                           true true)) 100); [reflexivity|lia].
  - apply (proj2 (proj2 (init_session bk_hello_world (Some (Some 1000))
                           true true)) 1000).
    right. split; [reflexivity|lia].
Defined.

(** X22.  The session invariant.  Once a session has its sampling
    parameters in the ranges of the validation block, its chain built from
    the parameters stored and a capacity between 512 and 32768, every
    command keeps it so: [Llama_Generate_Cmd] and [Llama_Chat] with any
    prompt, messages and options (in or out of range, well-formed or not),
    whether they succeed or fail, and [Llama_ClearCache_Cmd].  Both
    generation commands always return. *)
Theorem session_invariant bk cbk st :
  session_ok bk st ->
  (forall prompt opts,
      exists r, Llama_Generate_Cmd bk st prompt opts = Some r /\
                session_ok bk (r_state r)) /\
  (forall messages opts,
      exists r, Llama_Chat bk cbk st messages opts = Some r /\
                session_ok bk (r_state r)) /\
  session_ok bk (Llama_ClearCache_Cmd st).
Proof.
  intros H. split; [|split].
  - intros prompt opts.
    destruct (generate_settings bk st prompt opts) as (r & Er & Es).
    exists r. split; [exact Er|].
    apply (session_ok_settings bk (snd (read_options_loop bk opts st)));
      [symmetry; exact Es|].
    apply read_options_loop_session, H.
  - intros messages opts. apply chat_session, H.
  - exact (session_ok_settings bk st (Llama_ClearCache_Cmd st) eq_refl H).
Qed.

Lemma session_invariant_witness :
  session_ok bk_hello_world (fresh_session bk_hello_world) /\
  exists r,
    Llama_Generate_Cmd bk_hello_world (fresh_session bk_hello_world)
      (lit "Hi") [opt_options out_of_range_options] = Some r /\
    session_ok bk_hello_world (r_state r).
Proof.
  assert (H : session_ok bk_hello_world (fresh_session bk_hello_world)).
  { unfold session_ok. split; [split; reflexivity|].
    split; [cbn; lia|]. split; [split; reflexivity|].
    split; [split; reflexivity|]. split; [reflexivity|].
    split; [reflexivity|]. split; [reflexivity|cbn; lia]. }
  split; [exact H|].
  exact (proj1 (session_invariant bk_hello_world
                  {| bk_chat_template := None;
                     bk_apply_template := fun _ _ => None |}
                  (fresh_session bk_hello_world) H)
           (lit "Hi") [opt_options out_of_range_options]).
Defined.

(** ** Options applied twice, and keys that are missing *)

Lemma state_ext (a b : LlamaState) :
  temp a = temp b -> top_k a = top_k b -> top_p a = top_p b ->
  min_p a = min_p b -> repeat_penalty a = repeat_penalty b ->
  repeat_last_n a = repeat_last_n b ->
  presence_penalty a = presence_penalty b ->
  frequency_penalty a = frequency_penalty b ->
  mirostat a = mirostat b -> mirostat_tau a = mirostat_tau b ->
  mirostat_eta a = mirostat_eta b -> seed a = seed b ->
  n_predict a = n_predict b -> n_ctx a = n_ctx b -> n_past a = n_past b ->
  verbose a = verbose b -> n_eval a = n_eval b -> n_gen a = n_gen b ->
  sampler a = sampler b -> a = b.
Proof.
  destruct a, b. cbn [temp top_k top_p min_p repeat_penalty repeat_last_n
    presence_penalty frequency_penalty mirostat mirostat_tau mirostat_eta
    seed n_predict n_ctx n_past verbose n_eval n_gen sampler].
  intros. subst. reflexivity.
Qed.

(** The fields the validation block leaves alone. *)
Lemma clamp_options_others st :
  repeat_last_n (clamp_options st) = repeat_last_n st /\
  presence_penalty (clamp_options st) = presence_penalty st /\
  frequency_penalty (clamp_options st) = frequency_penalty st /\
  mirostat (clamp_options st) = mirostat st /\
  mirostat_tau (clamp_options st) = mirostat_tau st /\
  mirostat_eta (clamp_options st) = mirostat_eta st /\
  seed (clamp_options st) = seed st /\
  verbose (clamp_options st) = verbose st /\
  n_eval (clamp_options st) = n_eval st /\
  n_gen (clamp_options st) = n_gen st /\
  sampler (clamp_options st) = sampler st.
Proof.
  set (P := fun a b : LlamaState =>
    repeat_last_n a = repeat_last_n b /\
    presence_penalty a = presence_penalty b /\
    frequency_penalty a = frequency_penalty b /\
    mirostat a = mirostat b /\ mirostat_tau a = mirostat_tau b /\
    mirostat_eta a = mirostat_eta b /\ seed a = seed b /\
    verbose a = verbose b /\ n_eval a = n_eval b /\ n_gen a = n_gen b /\
    sampler a = sampler b).
  assert (Hr : forall s, P s s) by (intros s; repeat split).
  assert (Ht : forall a b c, P a b -> P b c -> P a c).
  { unfold P. intros a b c (A1 & A2 & A3 & A4 & A5 & A6 & A7 & A8 & A9 & A10
                              & A11) (B1 & B2 & B3 & B4 & B5 & B6 & B7 & B8
                                      & B9 & B10 & B11).
    repeat split; etransitivity; eassumption. }
  assert (H1 : forall s, P (clamp_temp s) s).
  { intros s. unfold clamp_temp. cbv zeta.
    destruct (SFltb (temp s) f32_0);
      match goal with |- context [if ?c then _ else _] => destruct c end;
      repeat split. }
  assert (H2 : forall s, P (clamp_top_k s) s)
    by (intros s; unfold clamp_top_k; destruct (top_k s <? 1); repeat split).
  assert (H3 : forall s, P (clamp_top_p s) s).
  { intros s. unfold clamp_top_p. cbv zeta.
    destruct (SFltb (top_p s) f32_0);
      match goal with |- context [if ?c then _ else _] => destruct c end;
      repeat split. }
  assert (H4 : forall s, P (clamp_min_p s) s).
  { intros s. unfold clamp_min_p. cbv zeta.
    destruct (SFltb (min_p s) f32_0);
      match goal with |- context [if ?c then _ else _] => destruct c end;
      repeat split. }
  assert (H5 : forall s, P (clamp_repeat_penalty s) s)
    by (intros s; unfold clamp_repeat_penalty;
        destruct (SFltb (repeat_penalty s) f32_0); repeat split).
  assert (H6 : forall s, P (clamp_n_predict s) s)
    by (intros s; unfold clamp_n_predict; destruct (n_predict s <? -1);
        repeat split).
  change (P (clamp_options st) st). unfold clamp_options. cbv zeta.
  eapply Ht; [apply H6|]. eapply Ht; [apply H5|]. eapply Ht; [apply H4|].
  eapply Ht; [apply H3|]. eapply Ht; [apply H2|]. apply H1.
Qed.

(** [apply_options] with an options object, field by field. *)
Lemma apply_options_eq bk o st :
  let get_f := GET_D_FLOAT (Some o) in
  let get_i := GET_D_INT (Some o) in
  let c :=
    {| temp := fclamp f32_0 f32_2 (get_f "temperature" (temp st));
       top_k := (let k := get_i "top_k" (top_k st) in
                 if k <? 1 then 1 else k);
       top_p := fclamp f32_0 f32_1 (get_f "top_p" (top_p st));
       min_p := fclamp f32_0 f32_1 (get_f "min_p" (min_p st));
       repeat_penalty :=
         (let r := get_f "repeat_penalty" (repeat_penalty st) in
          if SFltb r f32_0 then f32_1 else r);
       repeat_last_n := get_i "repeat_last_n" (repeat_last_n st);
       presence_penalty := presence_penalty st;
       frequency_penalty := frequency_penalty st;
       mirostat := get_i "mirostat" (mirostat st);
       mirostat_tau := get_f "mirostat_tau" (mirostat_tau st);
       mirostat_eta := get_f "mirostat_eta" (mirostat_eta st);
       seed := get_i "seed" (seed st);
       n_predict := (let n := get_i "num_predict" (n_predict st) in
                     if n <? -1 then -1 else n);
       n_ctx := n_ctx st; n_past := n_past st; verbose := verbose st;
       n_eval := n_eval st; n_gen := n_gen st; sampler := sampler st |} in
  apply_options bk (Some o) st = set_sampler (Some (build_chain bk c)) c.
Proof.
  cbv zeta.
  match goal with |- _ = set_sampler _ ?c => set (c0 := c) end.
  assert (E : clamp_options (read_options (Some o) st) = c0).
  { destruct (tuple6_eq _ _ _ _ _ _ _ _ _ _ _ _
                (clamp_options_fields (read_options (Some o) st)))
      as (F1 & F2 & F3 & F4 & F5 & F6).
    destruct (clamp_options_others (read_options (Some o) st))
      as (G1 & G2 & G3 & G4 & G5 & G6 & G7 & G8 & G9 & G10 & G11).
    destruct (clamp_options_position (read_options (Some o) st)) as [P1 P2].
    apply state_ext; unfold c0;
      cbn [temp top_k top_p min_p repeat_penalty repeat_last_n
           presence_penalty frequency_penalty mirostat mirostat_tau
           mirostat_eta seed n_predict n_ctx n_past verbose n_eval n_gen
           sampler];
      first [exact F1|exact F2|exact F3|exact F4|exact F5|exact F6
            |exact G1|exact G2|exact G3|exact G4|exact G5|exact G6
            |exact G7|exact G8|exact G9|exact G10|exact G11
            |exact P1|exact P2]. }
  unfold apply_options. rewrite E. reflexivity.
Qed.

(** A read either stores a value that does not depend on the old one, or
    keeps the old one. *)
Lemma GET_D_FLOAT_cases o name :
  (exists v, forall t, GET_D_FLOAT o name t = v) \/
  (forall t, GET_D_FLOAT o name t = t).
Proof.
  unfold GET_D_FLOAT. destruct o as [o|]; [|right; reflexivity].
  destruct (Tcl_DictObjGet o name) as [val|]; [|right; reflexivity].
  destruct (Tcl_GetDoubleFromObj val) as [d|]; [|right; reflexivity].
  left. eexists. reflexivity.
Qed.

Lemma GET_D_INT_cases o name :
  (exists v, forall t, GET_D_INT o name t = v) \/
  (forall t, GET_D_INT o name t = t).
Proof.
  unfold GET_D_INT. destruct o as [o|]; [|right; reflexivity].
  destruct (Tcl_DictObjGet o name) as [val|]; [|right; reflexivity].
  destruct (Tcl_GetIntFromObj val) as [d|]; [|right; reflexivity].
  left. eexists. reflexivity.
Qed.

Lemma GET_D_FLOAT_missing o name t :
  Tcl_DictObjGet o name = None -> GET_D_FLOAT (Some o) name t = t.
Proof. unfold GET_D_FLOAT. intros ->. reflexivity. Qed.

Lemma GET_D_INT_missing o name t :
  Tcl_DictObjGet o name = None -> GET_D_INT (Some o) name t = t.
Proof. unfold GET_D_INT. intros ->. reflexivity. Qed.

Lemma fclamp_idem lo hi f :
  SFltb hi lo = false -> SFltb lo lo = false -> SFltb hi hi = false ->
  fclamp lo hi (fclamp lo hi f) = fclamp lo hi f.
Proof.
  intros Hhl Hll Hhh. unfold fclamp.
  destruct (SFltb f lo) eqn:E1.
  - rewrite Hhl, Hll, Hhl. reflexivity.
  - destruct (SFltb hi f) eqn:E2.
    + rewrite Hhl, Hhh. reflexivity.
    + rewrite E1, E2. reflexivity.
Qed.

Lemma SFleb_true_SFltb x y : SFleb x y = true -> SFltb y x = false.
Proof.
  unfold SFltb, SFleb. rewrite (SFcompare_antisym x y).
  destruct (SFcompare x y) as [[| |]|]; cbn; congruence.
Qed.

Lemma fclamp_in_range lo hi f : f32_between lo hi f -> fclamp lo hi f = f.
Proof.
  intros [H1 H2]. unfold fclamp.
  rewrite (SFleb_true_SFltb _ _ H1), (SFleb_true_SFltb _ _ H2). reflexivity.
Qed.

Lemma float_field_idem o name lo hi t :
  SFltb hi lo = false -> SFltb lo lo = false -> SFltb hi hi = false ->
  fclamp lo hi (GET_D_FLOAT o name (fclamp lo hi (GET_D_FLOAT o name t)))
  = fclamp lo hi (GET_D_FLOAT o name t).
Proof.
  intros H1 H2 H3. destruct (GET_D_FLOAT_cases o name) as [[v E]|E].
  - rewrite !E. reflexivity.
  - rewrite !E. apply fclamp_idem; assumption.
Qed.

Lemma int_field_idem o name b t :
  let c := fun x => if x <? b then b else x in
  c (GET_D_INT o name (c (GET_D_INT o name t))) = c (GET_D_INT o name t).
Proof.
  cbv zeta. destruct (GET_D_INT_cases o name) as [[v E]|E]; rewrite !E;
    [reflexivity|].
  destruct (t <? b) eqn:E1.
  - rewrite Z.ltb_irrefl. reflexivity.
  - rewrite E1. reflexivity.
Qed.

Lemma repeat_penalty_idem o name t :
  let c := fun x => if SFltb x f32_0 then f32_1 else x in
  c (GET_D_FLOAT o name (c (GET_D_FLOAT o name t)))
  = c (GET_D_FLOAT o name t).
Proof.
  cbv zeta. destruct (GET_D_FLOAT_cases o name) as [[v E]|E]; rewrite !E;
    [reflexivity|].
  destruct (SFltb t f32_0) eqn:E1.
  - change (SFltb f32_1 f32_0) with false. reflexivity.
  - rewrite E1. reflexivity.
Qed.

Lemma GET_D_FLOAT_idem o name t :
  GET_D_FLOAT o name (GET_D_FLOAT o name t) = GET_D_FLOAT o name t.
Proof.
  destruct (GET_D_FLOAT_cases o name) as [[v E]|E]; rewrite !E; reflexivity.
Qed.

Lemma GET_D_INT_idem o name t :
  GET_D_INT o name (GET_D_INT o name t) = GET_D_INT o name t.
Proof.
  destruct (GET_D_INT_cases o name) as [[v E]|E]; rewrite !E; reflexivity.
Qed.

Lemma set_sampler_twice c c' s :
  set_sampler c (set_sampler c' s) = set_sampler c s.
Proof. reflexivity. Qed.

(** X23.  Applying the same options twice is the same as applying them
    once: [apply_options] with an options object, on the session it has
    just produced from that object, changes nothing, whatever the object
    and the session. *)
Theorem apply_options_idempotent bk o st :
  apply_options bk (Some o) (apply_options bk (Some o) st)
  = apply_options bk (Some o) st.
Proof.
  pose proof (apply_options_eq bk o st) as E1. cbv zeta in E1.
  rewrite E1. clear E1.
  match goal with
  | |- context [set_sampler (Some (build_chain bk ?c)) ?c] =>
      set (c1 := c); set (ch := Some (build_chain bk c1))
  end.
  pose proof (apply_options_eq bk o (set_sampler ch c1)) as E2.
  cbv zeta in E2. rewrite E2. clear E2.
  match goal with
  | |- set_sampler (Some (build_chain bk ?c)) ?c = _ =>
      assert (E : c = set_sampler ch c1); [|rewrite E]
  end.
  - apply state_ext; unfold c1;
      cbn [set_sampler temp top_k top_p min_p repeat_penalty repeat_last_n
           presence_penalty frequency_penalty mirostat mirostat_tau
           mirostat_eta seed n_predict n_ctx n_past verbose n_eval n_gen
           sampler]; try reflexivity.
    + apply float_field_idem; reflexivity.
    + apply (int_field_idem (Some o) "top_k" 1).
    + apply float_field_idem; reflexivity.
    + apply float_field_idem; reflexivity.
    + apply (repeat_penalty_idem (Some o) "repeat_penalty").
    + apply GET_D_INT_idem.
    + apply GET_D_INT_idem.
    + apply GET_D_FLOAT_idem.
    + apply GET_D_FLOAT_idem.
    + apply GET_D_INT_idem.
    + apply (int_field_idem (Some o) "num_predict" (-1)).
  - rewrite build_chain_set_sampler, set_sampler_twice. reflexivity.
Qed.

(** X24.  Keys that are missing.  On a session that satisfies the session
    invariant and whose [n_predict] is at least -1, [apply_options] leaves
    the field of every key that the dictionary does not hold as it was,
    never changes the presence and frequency penalties (no key reads
    them), and, given a value that holds none of the keys (an empty
    dictionary, or a value that is no dictionary at all), returns the
    session unchanged, without an error. *)
Theorem options_missing_keys bk o st :
  session_ok bk st -> -1 <= n_predict st ->
  let st' := apply_options bk (Some o) st in
  let missing := fun k => Tcl_DictObjGet o k = None in
  (missing "temperature"%string -> temp st' = temp st) /\
  (missing "top_k"%string -> top_k st' = top_k st) /\
  (missing "top_p"%string -> top_p st' = top_p st) /\
  (missing "min_p"%string -> min_p st' = min_p st) /\
  (missing "repeat_penalty"%string -> repeat_penalty st' = repeat_penalty st) /\
  (missing "repeat_last_n"%string -> repeat_last_n st' = repeat_last_n st) /\
  (missing "num_predict"%string -> n_predict st' = n_predict st) /\
  (missing "mirostat"%string -> mirostat st' = mirostat st) /\
  (missing "mirostat_tau"%string -> mirostat_tau st' = mirostat_tau st) /\
  (missing "mirostat_eta"%string -> mirostat_eta st' = mirostat_eta st) /\
  (missing "seed"%string -> seed st' = seed st) /\
  presence_penalty st' = presence_penalty st /\
  frequency_penalty st' = frequency_penalty st /\
  (Forall missing option_keys -> st' = st).
Proof.
  intros (Ht & Hk & Hp & Hm & Hn & Hr & Hs & Hc) Hnp. cbv zeta.
  pose proof (apply_options_eq bk o st) as E. cbv zeta in E.
  assert (F1 : Tcl_DictObjGet o "temperature" = None ->
               temp (apply_options bk (Some o) st) = temp st).
  { intros Hk1. rewrite E. cbn [set_sampler temp].
    rewrite GET_D_FLOAT_missing by exact Hk1.
    apply fclamp_in_range, Ht. }
  assert (F2 : Tcl_DictObjGet o "top_k" = None ->
               top_k (apply_options bk (Some o) st) = top_k st).
  { intros Hk1. rewrite E. cbn [set_sampler top_k].
    rewrite GET_D_INT_missing by exact Hk1.
    destruct (top_k st <? 1) eqn:E1; [apply Z.ltb_lt in E1; lia|reflexivity]. }
  assert (F3 : Tcl_DictObjGet o "top_p" = None ->
               top_p (apply_options bk (Some o) st) = top_p st).
  { intros Hk1. rewrite E. cbn [set_sampler top_p].
    rewrite GET_D_FLOAT_missing by exact Hk1.
    apply fclamp_in_range, Hp. }
  assert (F4 : Tcl_DictObjGet o "min_p" = None ->
               min_p (apply_options bk (Some o) st) = min_p st).
  { intros Hk1. rewrite E. cbn [set_sampler min_p].
    rewrite GET_D_FLOAT_missing by exact Hk1.
    apply fclamp_in_range, Hm. }
  assert (F5 : Tcl_DictObjGet o "repeat_penalty" = None ->
               repeat_penalty (apply_options bk (Some o) st)
               = repeat_penalty st).
  { intros Hk1. rewrite E. cbn [set_sampler repeat_penalty].
    rewrite GET_D_FLOAT_missing by exact Hk1. rewrite Hr. reflexivity. }
  assert (F6 : Tcl_DictObjGet o "repeat_last_n" = None ->
               repeat_last_n (apply_options bk (Some o) st)
               = repeat_last_n st).
  { intros Hk1. rewrite E. cbn [set_sampler repeat_last_n].
    apply GET_D_INT_missing, Hk1. }
  assert (F7 : Tcl_DictObjGet o "num_predict" = None ->
               n_predict (apply_options bk (Some o) st) = n_predict st).
  { intros Hk1. rewrite E. cbn [set_sampler n_predict].
    rewrite GET_D_INT_missing by exact Hk1.
    destruct (n_predict st <? -1) eqn:E1;
      [apply Z.ltb_lt in E1; lia|reflexivity]. }
  assert (F8 : Tcl_DictObjGet o "mirostat" = None ->
               mirostat (apply_options bk (Some o) st) = mirostat st).
  { intros Hk1. rewrite E. cbn [set_sampler mirostat].
    apply GET_D_INT_missing, Hk1. }
  assert (F9 : Tcl_DictObjGet o "mirostat_tau" = None ->
               mirostat_tau (apply_options bk (Some o) st) = mirostat_tau st).
  { intros Hk1. rewrite E. cbn [set_sampler mirostat_tau].
    apply GET_D_FLOAT_missing, Hk1. }
  assert (F10 : Tcl_DictObjGet o "mirostat_eta" = None ->
                mirostat_eta (apply_options bk (Some o) st) = mirostat_eta st).
  { intros Hk1. rewrite E. cbn [set_sampler mirostat_eta].
    apply GET_D_FLOAT_missing, Hk1. }
  assert (F11 : Tcl_DictObjGet o "seed" = None ->
                seed (apply_options bk (Some o) st) = seed st).
  { intros Hk1. rewrite E. cbn [set_sampler seed].
    apply GET_D_INT_missing, Hk1. }
  assert (F12 : presence_penalty (apply_options bk (Some o) st)
                = presence_penalty st) by (rewrite E; reflexivity).
  assert (F13 : frequency_penalty (apply_options bk (Some o) st)
                = frequency_penalty st) by (rewrite E; reflexivity).
  repeat (split; [assumption|]).
  intros Hall. unfold option_keys in Hall.
  repeat match goal with
         | H : Forall _ (_ :: _) |- _ =>
             let H1 := fresh "K" in let H2 := fresh "R" in
             apply Forall_cons in H; destruct H as [H1 H2]
         end.
  assert (Ech : build_chain bk (apply_options bk (Some o) st)
                = build_chain bk st).
  { unfold build_chain.
    rewrite (F1 K), (F2 K0), (F3 K1), (F4 K2), (F5 K3), (F6 K4), (F8 K6),
      (F9 K7), (F10 K8), (F11 K9), F12, F13. reflexivity. }
  destruct (apply_options_position bk (Some o) st) as [P1 P2].
  apply state_ext; auto.
  - rewrite E. reflexivity.
  - rewrite E. reflexivity.
  - rewrite E. reflexivity.
  - rewrite Hs, <- Ech. unfold apply_options.
    generalize (clamp_options (read_options (Some o) st)). intros s.
    cbv zeta. rewrite build_chain_set_sampler. reflexivity.
Qed.

Lemma options_missing_keys_witness :
  session_ok bk_hello_world (fresh_session bk_hello_world) /\
  -1 <= n_predict (fresh_session bk_hello_world) /\
  Tcl_DictObjGet out_of_range_options "top_p" = None /\
  top_p (apply_options bk_hello_world (Some out_of_range_options)
           (fresh_session bk_hello_world))
  = top_p (fresh_session bk_hello_world) /\
  apply_options bk_hello_world (Some OptNotADict)
    (fresh_session bk_hello_world)
  = fresh_session bk_hello_world.
Proof.
  assert (H : session_ok bk_hello_world (fresh_session bk_hello_world)).
  { unfold session_ok. split; [split; reflexivity|].
    split; [cbn; lia|]. split; [split; reflexivity|].
    split; [split; reflexivity|]. split; [reflexivity|].
    split; [reflexivity|]. split; [reflexivity|cbn; lia]. }
  assert (Hn : -1 <= n_predict (fresh_session bk_hello_world))
    by (cbn; lia).
  split; [exact H|]. split; [exact Hn|].
  split; [vm_compute; reflexivity|]. split.
  - destruct (options_missing_keys bk_hello_world out_of_range_options
                (fresh_session bk_hello_world) H Hn)
      as (_ & _ & K & _).
    apply K. vm_compute. reflexivity.
  - destruct (options_missing_keys bk_hello_world OptNotADict
                (fresh_session bk_hello_world) H Hn)
      as (_ & _ & _ & _ & _ & _ & _ & _ & _ & _ & _ & _ & _ & K).
    apply K. repeat constructor.
Defined.

(** ** Generation with and without a callback *)

Section Transparent.

Variable bk : Backend.
Variable n_ctx_ : Z.
Variable stop_ids : list llama_token.
Variable c : callback.
Hypothesis c_ok : forall k frag, c k frag = true.

Lemma mute_app a b : mute (a ++ b) = mute a ++ mute b.
Proof. apply List.filter_app. Qed.

Lemma quiet_log e g :
  not_callback e = true -> quiet (log e g) = log e (quiet g).
Proof.
  intros H. unfold quiet, log. cbn [text_buffer resp p_cnt g_n_past trace].
  rewrite mute_app. unfold mute at 2. cbn [List.filter]. rewrite H.
  reflexivity.
Qed.

Lemma quiet_dstring_append pt f g :
  quiet (dstring_append pt f g) = dstring_append pt f (quiet g).
Proof. unfold dstring_append. rewrite quiet_log; reflexivity. Qed.

Lemma quiet_eval_callback pt f g :
  fst (eval_callback (Some c) pt f g) = true /\
  quiet (snd (eval_callback (Some c) pt f g)) = quiet g.
Proof.
  unfold eval_callback. cbn [fst snd]. split; [apply c_ok|].
  unfold quiet, log. cbn [text_buffer resp p_cnt g_n_past trace].
  rewrite mute_app. cbn. rewrite app_nil_r. reflexivity.
Qed.

Lemma quiet_text_step piece g :
  quiet_result (text_step (Some c) piece g) = text_step None piece (quiet g).
Proof.
  unfold text_step. cbv zeta.
  change (text_buffer (quiet g)) with (text_buffer g).
  set (tb := if (BUFFER_SIZE <? length (text_buffer g ++ piece))%nat
             then _ else _).
  assert (E0 : quiet (set_text_buffer tb (log (EvBuffer piece) g))
               = set_text_buffer tb (log (EvBuffer piece) (quiet g)))
    by (rewrite <- quiet_log by reflexivity; reflexivity).
  generalize dependent (set_text_buffer tb (log (EvBuffer piece) g)).
  intros g1 E0. rewrite <- E0. clear E0.
  destruct (found_tag tb).
  - cbn [quiet_result]. f_equal.
    destruct (first_tag_pos tb tags) as [tag_pos|]; [|reflexivity].
    destruct (substr_to tb tag_pos) as [|b before]; [reflexivity|].
    destruct (0 <? _)%nat; [|reflexivity].
    destruct (quiet_eval_callback MarkerEmit
                (take (find_last_utf8_boundary (b :: before)
                         (length (b :: before))) (b :: before))
                (dstring_append MarkerEmit
                   (take (find_last_utf8_boundary (b :: before)
                            (length (b :: before))) (b :: before)) g1))
      as [_ E].
    rewrite E. apply quiet_dstring_append.
  - destruct (20 <? length tb)%nat; [|reflexivity].
    destruct (0 <? _)%nat; [|reflexivity].
    match goal with
    | |- context [eval_callback (Some c) ?pt ?f ?g0] =>
        destruct (quiet_eval_callback pt f g0) as [E1 E2];
        destruct (eval_callback (Some c) pt f g0) as [ok g2]
    end.
    cbn [fst snd] in E1, E2. subst ok. cbn [eval_callback quiet_result].
    f_equal.
    change (quiet (set_text_buffer ?t g2)) with (set_text_buffer t (quiet g2)).
    rewrite E2, quiet_dstring_append. reflexivity.
Qed.

Lemma quiet_decode_step id g :
  quiet_result (decode_step bk id g) = decode_step bk id (quiet g).
Proof.
  unfold decode_step. cbv zeta.
  change (g_n_past (quiet g)) with (g_n_past g).
  destruct (bk_decode bk (fill_batch [] id (g_n_past g) true));
    cbn [quiet_result]; f_equal; unfold quiet, log;
    cbn [text_buffer resp p_cnt g_n_past trace cb_calls];
    rewrite mute_app; reflexivity.
Qed.

Lemma quiet_gen_step g :
  quiet_result (gen_step bk n_ctx_ (Some c) stop_ids g)
  = gen_step bk n_ctx_ None stop_ids (quiet g).
Proof.
  unfold gen_step. cbv zeta.
  change (g_n_past (quiet g)) with (g_n_past g).
  change (p_cnt (quiet g)) with (p_cnt g).
  destruct (n_ctx_ <=? g_n_past g); [reflexivity|].
  set (id := bk_sample bk (Z.to_nat (p_cnt g))).
  rewrite <- (quiet_log (EvSample id) g) by reflexivity.
  destruct (llama_vocab_is_eog bk id); [reflexivity|].
  destruct (bk_attr_control bk id); [reflexivity|].
  destruct (existsb (Z.eqb id) stop_ids); [reflexivity|].
  destruct (llama_token_to_piece bk id 511) as [n piece].
  destruct ((0 <? n) && (n <? 512)).
  - rewrite <- quiet_text_step.
    destruct (text_step (Some c) piece (log (EvSample id) g)) as [g1|why g1];
      cbn [quiet_result]; [apply quiet_decode_step|reflexivity].
  - apply quiet_decode_step.
Qed.

Lemma quiet_gen_loop max_tokens fuel :
  forall g,
    gen_loop bk n_ctx_ None stop_ids fuel max_tokens (quiet g)
    = option_map (fun x => (fst x, quiet (snd x)))
        (gen_loop bk n_ctx_ (Some c) stop_ids fuel max_tokens g).
Proof.
  induction fuel as [|fuel IH]; intros g; [reflexivity|].
  cbn [gen_loop]. change (p_cnt (quiet g)) with (p_cnt g).
  destruct (p_cnt g <? max_tokens); [|reflexivity].
  rewrite <- quiet_gen_step.
  destruct (gen_step bk n_ctx_ (Some c) stop_ids g) as [g1|why g1];
    cbn [quiet_result]; [apply IH|reflexivity].
Qed.

Lemma quiet_final_flush g :
  quiet (final_flush (Some c) g) = final_flush None (quiet g).
Proof.
  unfold final_flush. change (text_buffer (quiet g)) with (text_buffer g).
  destruct (text_buffer g) as [|b tb]; [reflexivity|].
  destruct (has_partial_tag (b :: tb)); [reflexivity|].
  match goal with
  | |- context [eval_callback (Some c) ?pt ?f ?g0] =>
      destruct (quiet_eval_callback pt f g0) as [_ E]
  end.
  rewrite E. apply quiet_dstring_append.
Qed.

End Transparent.

(** X25.  A callback that never fails is transparent.  With a callback
    whose every evaluation returns [TCL_OK], [run_inference] returns the
    same result code and text, leaves the session in the same state and
    leaves the loop the same way as without a callback, and does the same
    things in the same order (samples, buffer and result appends,
    decodes): the trace without the callback evaluations is the trace of
    the call without callback.  (The callback is a script that reports
    success or failure; it does not itself run commands on the
    session.) *)
Theorem callback_transparent bk st (c : callback) stop_ids :
  (forall k frag, c k frag = true) ->
  exists r,
    run_inference bk st (Some c) stop_ids = Some r /\
    run_inference bk st None stop_ids
    = Some {| r_state := r_state r; r_code := r_code r;
              r_trace := mute (r_trace r); r_exit := r_exit r |}.
Proof.
  intros Hc.
  destruct (run_inference_unfold bk st (Some c) stop_ids)
    as (why & g & Hloop & Hrun).
  eexists. split; [exact Hrun|].
  unfold run_inference. cbv zeta. fold (gen_init st).
  change (gen_init st) with (quiet (gen_init st)).
  rewrite (quiet_gen_loop bk (n_ctx st) stop_ids c Hc), Hloop.
  cbn [option_map fst snd].
  destruct why; cbn [run_result r_state r_code r_trace r_exit];
    rewrite <- ?(quiet_final_flush c Hc); reflexivity.
Qed.

Lemma callback_transparent_witness :
  (forall k frag, always_ok k frag = true) /\
  exists r,
    run_inference bk_hello_world (fresh_session bk_hello_world)
      (Some always_ok) [] = Some r /\
    run_inference bk_hello_world (fresh_session bk_hello_world) None []
    = Some {| r_state := r_state r; r_code := r_code r;
              r_trace := mute (r_trace r); r_exit := r_exit r |}.
Proof.
  split; [reflexivity|].
  apply (callback_transparent bk_hello_world (fresh_session bk_hello_world)
           always_ok []).
  reflexivity.
Defined.
